(** * BookHub backend: catalog queries, engagement counters and registration

    A shallow embedding of the Express/Mongoose handlers of
    [bookhub-backend/src/routes/books.js], [routes/auth.js] (which also
    carries the admin routes), [models/Book.js] and [middleware/auth.js].

    Conventions of the model.
    - A JavaScript number is an IEEE-754 double: a rational that
      [round64] leaves unchanged, an infinity or [NaN] ([number]); every
      arithmetic operation of the rating handler rounds its result to the
      nearest double, ties to even.  The two zeros are not told apart.
      Counters and paging values are integers ([Z], with [jsnum] where
      [NaN] may arise); they stay below 2^53 in every statement that
      depends on their arithmetic.
    - A string is held in UTF-8: byte order is then code point order, and
      white space covers the Unicode characters that [trim] strips.
    - The [rating] of a request body is any JSON value ([json]); an absent
      one is [JNull], which the validators treat alike.
    - The two Mongo collections are finite maps from [_id] to document; a
      path parameter [:id] is an identifier already cast to [ObjectId].
    - A handler is a [Call] that advances from one [await] to the next;
      served alone it runs to its response, and several of them advance
      under a schedule.  [step] is the run in which the store answers
      every operation; [step_with] also covers a rejected operation.
    - What the repository takes from its libraries (MongoDB text search,
      regular expressions, the sort stage, JWT, validators) is gathered in
      the class [Platform]. *)

From Stdlib Require Import ZArith QArith Qround Qpower Qabs Lqa Lia.
From Stdlib Require Import String Ascii List Permutation Sorted.
From stdpp Require Import gmap.
Import ListNotations.

Local Open Scope string_scope.
Local Open Scope Z_scope.

(** ** JavaScript numbers *)

(** An integer-valued JavaScript number, or [NaN]. *)
Inductive jsnum : Type :=
  | NaN : jsnum
  | Num : Z -> jsnum.

(** [Math.max(a, x)] and [Math.min(a, x)] for a literal [a]: [NaN] is
    contagious. *)
Definition Math_max (a : Z) (x : jsnum) : jsnum :=
  match x with
  | NaN => NaN
  | Num z => Num (Z.max a z)
  end.

Definition Math_min (a : Z) (x : jsnum) : jsnum :=
  match x with
  | NaN => NaN
  | Num z => Num (Z.min a z)
  end.

Definition js_sub (x y : jsnum) : jsnum :=
  match x, y with
  | Num a, Num b => Num (a - b)
  | _, _ => NaN
  end.

Definition js_mul (x y : jsnum) : jsnum :=
  match x, y with
  | Num a, Num b => Num (a * b)
  | _, _ => NaN
  end.

(** [Math.round(x)]: nearest integer, ties towards plus infinity. *)
Definition Math_round (x : Q) : Z := Qfloor (x + (1 # 2))%Q.

(** [Math.ceil(a / b)] for integers [a] and [b <> 0]. *)
Definition Math_ceil_div (a b : Z) : Z := Qceiling (inject_Z a / inject_Z b)%Q.

(** *** IEEE-754 binary64 *)

Definition pow2 (e : Z) : Q := (2 ^ e)%Q.

(** The nearest integer, a tie going to the even one. *)
Definition rne (x : Q) : Z :=
  let f := Qfloor x in
  match (x - inject_Z f ?= 1 # 2)%Q with
  | Lt => f
  | Gt => f + 1
  | Eq => if Z.even f then f else f + 1
  end.

(** The [e] with [2^e <= x < 2^(e+1)], for [x > 0]. *)
Definition ilog2 (x : Q) : Z :=
  let e := Z.log2 (Qnum x) - Z.log2 (Zpos (Qden x)) in
  if Qle_bool (pow2 e) x then e else e - 1.

(** The exponent of the unit in the last place: 53 significant bits, and
    the subnormal numbers below 2^-1022. *)
Definition ulp_exp (x : Q) : Z := Z.max (ilog2 x) (-1022) - 52.

Definition round64_pos (x : Q) : Q :=
  Qred (inject_Z (rne (x / pow2 (ulp_exp x))) * pow2 (ulp_exp x)).

(** The double nearest to [x], were the exponent range unbounded above. *)
Definition round64 (x : Q) : Q :=
  match Qnum x with
  | Z0 => 0%Q
  | Zpos _ => round64_pos x
  | Zneg _ => Qred (- round64_pos (- x))
  end.

(** A JavaScript number. *)
Inductive number : Type :=
  | Nan : number
  | Infinity (negative : bool) : number
  | Finite (x : Q) : number.

Definition is_neg (x : Q) : bool := Qnum x <? 0.
Definition is_zero (x : Q) : bool := Qnum x =? 0.

(** The number a real result is rounded to. *)
Definition fl (x : Q) : number :=
  let y := round64 x in
  if Qle_bool (pow2 1024) (Qabs y) then Infinity (is_neg y) else Finite y.

Definition add64 (a b : number) : number :=
  match a, b with
  | Nan, _ | _, Nan => Nan
  | Infinity s, Infinity t => if Bool.eqb s t then Infinity s else Nan
  | Infinity s, Finite _ | Finite _, Infinity s => Infinity s
  | Finite x, Finite y => fl (x + y)
  end.

Definition mul64 (a b : number) : number :=
  match a, b with
  | Nan, _ | _, Nan => Nan
  | Infinity s, Infinity t => Infinity (xorb s t)
  | Infinity s, Finite x | Finite x, Infinity s =>
      if is_zero x then Nan else Infinity (xorb s (is_neg x))
  | Finite x, Finite y => fl (x * y)
  end.

Definition div64 (a b : number) : number :=
  match a, b with
  | Nan, _ | _, Nan => Nan
  | Infinity _, Infinity _ => Nan
  | Infinity s, Finite y => Infinity (xorb s (is_neg y))
  | Finite _, Infinity _ => Finite 0
  | Finite x, Finite y =>
      if is_zero y then (if is_zero x then Nan else Infinity (is_neg x))
      else fl (x / y)
  end.

(** [Math.round] on a number: an integer nearest to a double is a double. *)
Definition Math_round64 (a : number) : number :=
  match a with
  | Finite x => Finite (inject_Z (Math_round x))
  | _ => a
  end.

(** [a <= b]. *)
Definition le64 (a b : number) : bool :=
  match a, b with
  | Nan, _ | _, Nan => false
  | Infinity s, Infinity t => implb t s
  | Infinity s, Finite _ => s
  | Finite _, Infinity t => negb t
  | Finite x, Finite y => Qle_bool x y
  end.

(** ** JavaScript strings *)

(** *** Digits *)

Definition digit_char (d : Z) : ascii := ascii_of_nat (Z.to_nat (48 + d)).

Fixpoint decimal (fuel : nat) (n : Z) (acc : string) : string :=
  match fuel with
  | O => acc
  | S fuel' =>
      let acc' := String (digit_char (n mod 10)) acc in
      if n / 10 =? 0 then acc' else decimal fuel' (n / 10) acc'
  end.

(** [String(n)] for an integer below 10^21 in absolute value. *)
Definition String_of_int (n : Z) : string :=
  if n <? 0
  then String "-" (decimal (S (Z.to_nat (Z.log2 (- n)))) (- n) "")
  else decimal (S (Z.to_nat (Z.log2 n))) n "".

(** A character ['0'..'9'], and a string of such characters. *)
Definition is_decimal (c : ascii) : bool :=
  let n := nat_of_ascii c in ((48 <=? n) && (n <=? 57))%nat.

Fixpoint all_decimal (s : string) : bool :=
  match s with
  | String c r => is_decimal c && all_decimal r
  | EmptyString => true
  end.

Definition digit_of (c : ascii) : option Z :=
  let n := Z.of_nat (nat_of_ascii c) in
  if (48 <=? n) && (n <=? 57) then Some (n - 48)
  else if (97 <=? n) && (n <=? 102) then Some (n - 87)
  else if (65 <=? n) && (n <=? 70) then Some (n - 55)
  else None.

(** *** White space

    [WhiteSpace] and [LineTerminator] of ECMAScript, which [trim],
    [parseInt], [parseFloat], the conversion of a string to a number and
    the class [\s] of regular expressions share. *)

Definition code (c : ascii) : N := N_of_ascii c.

(** U+0009..U+000D and U+0020. *)
Definition ws1 (a : ascii) : bool :=
  let x := code a in ((9 <=? x) && (x <=? 13) || (x =? 32))%N.

(** U+00A0. *)
Definition ws2 (a b : ascii) : bool :=
  ((code a =? 194) && (code b =? 160))%N.

(** U+1680, U+2000..U+200A, U+2028, U+2029, U+202F, U+205F, U+3000 and
    U+FEFF. *)
Definition ws3 (a b c : ascii) : bool :=
  let x := code a in
  let y := code b in
  let z := code c in
  ((x =? 225) && (y =? 154) && (z =? 128)
   || (x =? 226) && (y =? 128)
      && ((128 <=? z) && (z <=? 138) || (z =? 168) || (z =? 169) || (z =? 175))
   || (x =? 226) && (y =? 129) && (z =? 159)
   || (x =? 227) && (y =? 128) && (z =? 128)
   || (x =? 239) && (y =? 187) && (z =? 191))%N.

Fixpoint skip_spaces (s : string) : string :=
  match s with
  | EmptyString => s
  | String a r1 =>
      if ws1 a then skip_spaces r1
      else
        match r1 with
        | EmptyString => s
        | String b r2 =>
            if ws2 a b then skip_spaces r2
            else
              match r2 with
              | EmptyString => s
              | String c r3 => if ws3 a b c then skip_spaces r3 else s
              end
        end
  end.

Fixpoint rev_string (s acc : string) : string :=
  match s with
  | String c s' => rev_string s' (String c acc)
  | EmptyString => acc
  end.

(** Nothing but white space. *)
Definition blankb (s : string) : bool := String.eqb (skip_spaces s) "".

(** The string without the white space at its end. *)
Fixpoint strip_end (s : string) : string :=
  match s with
  | EmptyString => s
  | String c r => if blankb s then "" else String c (strip_end r)
  end.

(** [String.prototype.trim], and the [trim] sanitizer of the validators. *)
Definition trim (s : string) : string := strip_end (skip_spaces s).

(** [s.split(' ')]. *)
Fixpoint split_space (s cur : string) : list string :=
  match s with
  | String c s' =>
      if Ascii.eqb c " "
      then rev_string cur "" :: split_space s' ""
      else split_space s' (String c cur)
  | EmptyString => [rev_string cur ""]
  end.

(** validator.js [isLength]: the characters of the string, a surrogate
    pair counting once and a variation selector (U+FE0E, U+FE0F) not at
    all. *)
Definition is_continuation (a : ascii) : bool :=
  ((128 <=? code a) && (code a <? 192))%N.

Fixpoint char_count (s : string) : Z :=
  match s with
  | EmptyString => 0
  | String a r =>
      let selector :=
        match r with
        | String b (String c _) =>
            ((code a =? 239) && (code b =? 184)
             && ((code c =? 142) || (code c =? 143)))%N
        | _ => false
        end in
      (if is_continuation a || selector then 0 else 1) + char_count r
  end.

(** *** [parseInt] on strings *)

(** Longest prefix of digits in the given radix; [None] when there is none. *)
Fixpoint read_digits (radix : Z) (s : string) (acc : option Z) : option Z :=
  match s with
  | String c s' =>
      match digit_of c with
      | Some d =>
          if d <? radix
          then read_digits radix s' (Some (match acc with
                                            | Some a => a * radix + d
                                            | None => d
                                            end))
          else acc
      | None => acc
      end
  | EmptyString => acc
  end.

Definition strip_sign (s : string) : bool * string :=
  match s with
  | String "-" s' => (true, s')
  | String "+" s' => (false, s')
  | _ => (false, s)
  end.

Definition strip_hex (s : string) : Z * string :=
  match s with
  | String "0" (String "x" s') => (16, s')
  | String "0" (String "X" s') => (16, s')
  | _ => (10, s)
  end.

Definition parseInt (s : string) : jsnum :=
  let '(neg, s1) := strip_sign (skip_spaces s) in
  let '(radix, s2) := strip_hex s1 in
  match read_digits radix s2 None with
  | Some n => Num (if neg then - n else n)
  | None => NaN
  end.

(** *** [Number::toString] *)

Definition pow10 (e : Z) : Q := (10 ^ e)%Q.

(** The [n] with [10^(n-1) <= x < 10^n], for [x > 0]. *)
Definition dec_exp (x : Q) : Z :=
  let up n := if Qle_bool (pow10 n) x then n + 1 else n in
  let down n := if Qle_bool (pow10 (n - 1)) x then n else n - 1 in
  down (down (up (up (ilog2 x * 30103 / 100000 + 1)))).

(** The integer [s] of fewest digits, with its exponent [q], such that
    [s * 10^q] rounds to [x]; of two such integers, the one nearer to [x]. *)
Fixpoint shortest (fuel : nat) (k : Z) (x : Q) (n : Z) : Z * Z :=
  let p := pow10 (n - k) in
  let lo := Qfloor (x / p) in
  let hi := lo + 1 in
  let ok s := Qeq_bool (round64 (inject_Z s * p)) x in
  match fuel with
  | O => (lo, n - k)
  | S fuel' =>
      match ok lo, ok hi with
      | true, true =>
          match (x - inject_Z lo * p ?= inject_Z hi * p - x)%Q with
          | Lt => (lo, n - k)
          | Gt => (hi, n - k)
          | Eq => (if Z.even lo then lo else hi, n - k)
          end
      | true, false => (lo, n - k)
      | false, true => (hi, n - k)
      | false, false => shortest fuel' (k + 1) x n
      end
  end.

Fixpoint strip_zeros (fuel : nat) (s q : Z) : Z * Z :=
  match fuel with
  | O => (s, q)
  | S fuel' => if s mod 10 =? 0 then strip_zeros fuel' (s / 10) (q + 1) else (s, q)
  end.

Fixpoint zeros (n : nat) : string :=
  match n with
  | O => ""
  | S n' => String "0" (zeros n')
  end.

Definition Number_toString_pos (x : Q) : string :=
  let '(s0, q0) := shortest 17 1 x (dec_exp x) in
  let '(s, q) := strip_zeros 17 s0 q0 in
  let D := String_of_int s in
  let k := Z.of_nat (String.length D) in
  let n := q + k in
  if (k <=? n) && (n <=? 21) then D ++ zeros (Z.to_nat (n - k))
  else if (0 <? n) && (n <=? 21)
  then substring 0 (Z.to_nat n) D ++ "." ++ substring (Z.to_nat n) (Z.to_nat (k - n)) D
  else if (-6 <? n) && (n <=? 0) then "0." ++ zeros (Z.to_nat (- n)) ++ D
  else
    (if k =? 1 then D
     else substring 0 1 D ++ "." ++ substring 1 (Z.to_nat (k - 1)) D)
    ++ "e" ++ (if n - 1 <? 0 then "-" else "+") ++ String_of_int (Z.abs (n - 1)).

(** [String(a)] for a number [a]: the shortest decimal that reads back as
    the same double. *)
Definition Number_toString (a : number) : string :=
  match a with
  | Nan => "NaN"
  | Infinity true => "-Infinity"
  | Infinity false => "Infinity"
  | Finite x =>
      if is_zero x then "0"
      else if is_neg x then "-" ++ Number_toString_pos (- x)
      else Number_toString_pos x
  end.

(** *** Numeric literals *)

Fixpoint read_decimals (s : string) (acc count : Z) : Z * Z * string :=
  match s with
  | String c s' =>
      if is_decimal c
      then read_decimals s' (acc * 10 + (Z.of_nat (nat_of_ascii c) - 48)) (count + 1)
      else (acc, count, s)
  | EmptyString => (acc, count, s)
  end.

Definition is_e (c : ascii) : bool := Ascii.eqb c "e" || Ascii.eqb c "E".

(** The longest prefix that is a [StrUnsignedDecimalLiteral] other than
    [Infinity]: its exact value and the rest of the string. *)
Definition read_decimal_literal (s : string) : option (Q * string) :=
  let '(i, ni, s1) := read_decimals s 0 0 in
  let '(m, nf, s2) :=
    match s1 with
    | String "." s1' => read_decimals s1' i 0
    | _ => (i, 0, s1)
    end in
  let dot := match s1 with String "." _ => true | _ => false end in
  if (ni =? 0) && (if dot then nf =? 0 else true) then None
  else
    let '(e, s3) :=
      match s2 with
      | String c s2' =>
          if is_e c then
            let '(neg, s2'') := strip_sign s2' in
            let '(ev, ne, s3) := read_decimals s2'' 0 0 in
            if ne =? 0 then (0, s2) else (if neg then - ev else ev, s3)
          else (0, s2)
      | EmptyString => (0, s2)
      end in
    Some ((inject_Z m * pow10 (e - nf))%Q, s3).

Definition signed (neg : bool) (x : Q) : Q := if neg then (- x)%Q else x.

Definition parseFloat (s : string) : number :=
  let '(neg, s1) := strip_sign (skip_spaces s) in
  if String.prefix "Infinity" s1 then Infinity neg
  else
    match read_decimal_literal s1 with
    | Some (v, _) => fl (signed neg v)
    | None => Nan
    end.

(** A string made of digits of the radix only. *)
Fixpoint all_digits (radix : Z) (s : string) (acc : Z) : option Z :=
  match s with
  | String c s' =>
      match digit_of c with
      | Some d => if d <? radix then all_digits radix s' (acc * radix + d) else None
      | None => None
      end
  | EmptyString => Some acc
  end.

Definition radix_prefix (s : string) : option (Z * string) :=
  match s with
  | String "0" (String c r) =>
      if Ascii.eqb c "x" || Ascii.eqb c "X" then Some (16, r)
      else if Ascii.eqb c "o" || Ascii.eqb c "O" then Some (8, r)
      else if Ascii.eqb c "b" || Ascii.eqb c "B" then Some (2, r)
      else None
  | _ => None
  end.

(** [Number(s)], which [/] applies to a string operand. *)
Definition StringToNumber (s : string) : number :=
  let t := trim s in
  if String.eqb t "" then Finite 0
  else
    match radix_prefix t with
    | Some (radix, r) =>
        if String.eqb r "" then Nan
        else match all_digits radix r 0 with
             | Some n => fl (inject_Z n)
             | None => Nan
             end
    | None =>
        let '(neg, t1) := strip_sign t in
        if String.eqb t1 "Infinity" then Infinity neg
        else
          match read_decimal_literal t1 with
          | Some (v, "") => fl (signed neg v)
          | _ => Nan
          end
    end.

(** *** validator.js [isFloat(str, { min, max })] *)

(** The regular expression of [isFloat]: an optional sign, digits, an
    optional dot followed by digits, an optional exponent ([e] or [E], an
    optional sign, at least one digit), each part possibly empty but for
    the digits of the exponent. *)
Definition float_syntax (s : string) : bool :=
  let s1 := snd (strip_sign s) in
  let s2 := snd (read_decimals s1 0 0) in
  let s3 := match s2 with
            | String "." r => snd (read_decimals r 0 0)
            | _ => s2
            end in
  match s3 with
  | EmptyString => true
  | String c r =>
      is_e c
      && (let '(_, ne, r') := read_decimals (snd (strip_sign r)) 0 0 in
          (0 <? ne) && String.eqb r' "")
  end.

Definition isFloat (lo hi : Q) (s : string) : bool :=
  float_syntax s
  && negb (existsb (String.eqb s) [""; "."; ","; "-"; "+"])
  && le64 (Finite lo) (parseFloat s) && le64 (parseFloat s) (Finite hi).

(** ** JSON values *)

#[warnings="-register-all"]
Inductive json : Type :=
  | JNull : json
  | JBool : bool -> json
  | JNumber : Q -> json
  | JString : string -> json
  | JArray : list json -> json
  | JObject : json.

Fixpoint join_comma (l : list string) : string :=
  match l with
  | [] => ""
  | [s] => s
  | s :: l' => s ++ "," ++ join_comma l'
  end.

(** [String(v)].  A [JNumber] stands for its literal, which the body
    parser reads as the nearest double; an object is inspected no
    further. *)
Fixpoint js_String (v : json) : string :=
  match v with
  | JNull => "null"
  | JBool true => "true"
  | JBool false => "false"
  | JNumber x => Number_toString (fl x)
  | JString s => s
  | JArray l =>
      join_comma (map (fun e => match e with
                                | JNull => ""
                                | _ => js_String e
                                end) l)
  | JObject => "[object Object]"
  end.

(** The value of [a + v] for a number [a]: a number, or a string when
    [v] is a string, an array or an object. *)
Definition js_plus (a : number) (v : json) : number + string :=
  match v with
  | JNull => inl (add64 a (Finite 0))
  | JBool b => inl (add64 a (Finite (if b then 1 else 0)))
  | JNumber x => inl (add64 a (fl x))
  | JString _ | JArray _ | JObject => inr (Number_toString a ++ js_String v)
  end.

Definition ToNumber (v : number + string) : number :=
  match v with
  | inl a => a
  | inr s => StringToNumber s
  end.

(** express-validator: the string a validator is given for a value, and
    [isFloat] run on a field, element by element when the field is an
    array. *)
Definition validator_string (v : json) : string :=
  match v with
  | JNull => ""
  | _ => js_String v
  end.

(** [isFloat] on one value.  A number is given as its shortest decimal,
    which has the syntax of a float and reads back as the same number:
    the test is on the number itself. *)
Definition value_isFloat (lo hi : Q) (v : json) : bool :=
  match v with
  | JNumber x => le64 (Finite lo) (fl x) && le64 (fl x) (Finite hi)
  | _ => isFloat lo hi (validator_string v)
  end.

Definition field_isFloat (lo hi : Q) (v : json) : bool :=
  forallb (value_isFloat lo hi) (match v with JArray l => l | _ => [v] end).

(** [v === 'admin'] and the like: strict equality with a string literal. *)
Definition strict_eq_string (v : option json) (lit : string) : bool :=
  match v with
  | Some (JString s) => String.eqb s lit
  | _ => false
  end.

(** A query-string value is truthy when it is present and not empty. *)
Definition truthy (o : option string) : option string :=
  match o with
  | Some "" => None
  | _ => o
  end.
(** ** Data model *)

(** [models/Book.js].  The cover image, ISBN, publisher, tags, [createdBy]
    and [updatedAt] fields take no part in any handler decision and are left
    out; dates are milliseconds since the epoch. *)
Record Book : Type := mkBook {
  title : string;
  author : string;
  description : string;
  genre : string;
  publishedDate : option Z;
  pages : option Q;
  language : string;
  rating : Q;
  ratingCount : Z;
  readCount : Z;
  createdAt : Z
}.

(** The [enum] of [bookSchema.genre]. *)
Definition genres : list string :=
  [ "Fiction"; "Non-Fiction"; "Science Fiction"; "Fantasy";
    "Mystery"; "Thriller"; "Romance"; "Horror"; "Biography";
    "History"; "Self-Help"; "Science"; "Technology";
    "Children"; "Young Adult"; "Other" ].

Definition is_genre (g : string) : bool := existsb (String.eqb g) genres.

(** Modelled from the spec: [models/User.js] is not part of the sources; the
    spec gives a user a name, a unique email, a hashed password and a role,
    and the read handler adds book identifiers to [readBooks]. *)
Record User : Type := mkUser {
  name : string;
  email : string;
  password : string;
  role : string;
  readBooks : list N
}.

(** The two collections. *)
Record Db : Type := mkDb {
  books : gmap N Book;
  users : gmap N User
}.

Definition with_books (db : Db) (bs : gmap N Book) : Db := mkDb bs (users db).
Definition with_users (db : Db) (us : gmap N User) : Db := mkDb (books db) us.

Definition set_rating (b : Book) (r : Q) (c : Z) : Book :=
  mkBook (title b) (author b) (description b) (genre b) (publishedDate b)
         (pages b) (language b) r c (readCount b) (createdAt b).

Definition set_readCount (b : Book) (c : Z) : Book :=
  mkBook (title b) (author b) (description b) (genre b) (publishedDate b)
         (pages b) (language b) (rating b) (ratingCount b) c (createdAt b).

(** ** Responses *)

Record Pagination : Type := mkPagination {
  total : Z;
  page : jsnum;
  limit : jsnum;
  totalPages : jsnum
}.

Inductive Body : Type :=
  | Message (m : string)
  | ErrMessage                       (* [{ message: err.message }] *)
  | RatingBody (r : Q) (c : Z)
  | ReadBody (m : string) (c : Z)
  | BookBody (id : N) (b : Book)
  | ListBody (bs : list (N * Book)) (p : Pagination)
  | AuthBody (token : string) (id : N) (n e r : string).

Record Response : Type := mkResponse {
  status : Z;
  body : Body
}.

Definition server_error : Response := mkResponse 500 ErrMessage.

(** ** Library interface *)

(** What decides, in one execution of a query, the order of documents
    with equal sort keys: the plan chosen, the index walked, the place of
    the documents on disk.  Every query has its own. *)
Definition Plan : Type := N.

(** What the handlers obtain from MongoDB, Mongoose, express-validator,
    jsonwebtoken and the JavaScript runtime. *)
Class Platform : Type := {
  (** [$text: { $search: s }] against the text index of the collection. *)
  text_search : string -> Book -> bool;
  (** [$regex] with option [i]; [None] for a pattern MongoDB refuses. *)
  regex_compile : string -> option (string -> bool);
  (** [new Date(s)]; [None] stands for an invalid date. *)
  parseDate : string -> option Z;
  (** The sort stage [.sort({ [field]: 1 | -1 })] of one query; [true] is
      ascending; [None] when the server refuses the sort specification. *)
  mongo_sort : Plan -> string -> bool -> list (N * Book)
               -> option (list (N * Book));
  (** What a cursor with a [NaN] skip or limit yields: documents, or
      [None] when the driver or the server refuses the command. *)
  find_nan : list (N * Book) -> option (list (N * Book));
  (** [jwt.verify] at the time of the request; [None] when it throws. *)
  jwt_verify : string -> option N;
  (** [jwt.sign({ id }, secret, { expiresIn })] at a time in seconds, which
      the token carries as [iat] and, shifted, as [exp]. *)
  jwt_sign : N -> Z -> string;
  hash_password : string -> string;
  isEmail : string -> bool
}.

(** *** Sort keys and the BSON comparison order *)

Inductive Key : Type :=
  | KNull : Key
  | KNum : Q -> Key
  | KStr : string -> Key
  | KId : N -> Key
  | KDate : Z -> Key.

Definition opt_key {A : Type} (f : A -> Key) (o : option A) : Key :=
  match o with
  | Some a => f a
  | None => KNull
  end.

(** The key of a document under a sort on [field], for the paths that
    [Book] carries; [None] for any other name, of which the model says
    nothing. *)
Definition sort_key (field : string) (d : N * Book) : option Key :=
  let b := snd d in
  if String.eqb field "_id" then Some (KId (fst d))
  else if String.eqb field "title" then Some (KStr (title b))
  else if String.eqb field "author" then Some (KStr (author b))
  else if String.eqb field "description" then Some (KStr (description b))
  else if String.eqb field "genre" then Some (KStr (genre b))
  else if String.eqb field "language" then Some (KStr (language b))
  else if String.eqb field "publishedDate" then Some (opt_key KDate (publishedDate b))
  else if String.eqb field "pages" then Some (opt_key KNum (pages b))
  else if String.eqb field "rating" then Some (KNum (rating b))
  else if String.eqb field "ratingCount" then Some (KNum (inject_Z (ratingCount b)))
  else if String.eqb field "readCount" then Some (KNum (inject_Z (readCount b)))
  else if String.eqb field "createdAt" then Some (KDate (createdAt b))
  else None.

(** The paths that [sort_key] knows. *)
Definition carried_paths : list string :=
  [ "_id"; "title"; "author"; "description"; "genre"; "language";
    "publishedDate"; "pages"; "rating"; "ratingCount"; "readCount";
    "createdAt" ].

Definition carried (field : string) : bool :=
  existsb (String.eqb field) carried_paths.

Definition key_rank (k : Key) : Z :=
  match k with
  | KNull => 0
  | KNum _ => 1
  | KStr _ => 2
  | KId _ => 3
  | KDate _ => 4
  end.

Definition key_le (a b : Key) : bool :=
  match a, b with
  | KNum x, KNum y => Qle_bool x y
  | KStr x, KStr y => String.leb x y
  | KId x, KId y => (x <=? y)%N
  | KDate x, KDate y => x <=? y
  | _, _ => key_rank a <=? key_rank b
  end.

Definition key_eq (a b : Key) : bool := key_le a b && key_le b a.

(** The order a sort on [field] asks for. *)
Definition doc_le (field : string) (asc : bool) (x y : N * Book) : bool :=
  match sort_key field x, sort_key field y with
  | Some a, Some b => if asc then key_le a b else key_le b a
  | _, _ => true
  end.

(** The two documents have the same key under a sort on [field]. *)
Definition same_key (field : string) (x y : N * Book) : bool :=
  doc_le field true x y && doc_le field true y x.

(** The contract of the sort stage: when it answers, the same documents,
    ordered by the requested key, whatever the plan; nothing is said about
    documents with equal keys.  It answers for the paths of the schema,
    and refuses an empty field name. *)
Class PlatformOk (P : Platform) : Prop := {
  sort_perm : forall p f asc l s,
      mongo_sort p f asc l = Some s -> Permutation s l;
  sort_sorted : forall p f asc l s,
      mongo_sort p f asc l = Some s ->
      Sorted (fun x y => doc_le f asc x y = true) s;
  sort_accepts : forall p f asc l,
      carried f = true -> mongo_sort p f asc l <> None;
  sort_refuses : forall p asc l, mongo_sort p "" asc l = None
}.

(** ** Requests *)

(** The plain fields of the [req.body] of the admin create and update
    routes, each absent or a value of the type the schema gives the path;
    a [null], a value that Mongoose would have to cast, and a [createdAt]
    of the body's own are not modelled. *)
Record BookInput : Type := mkBookInput {
  i_title : option string;
  i_author : option string;
  i_description : option string;
  i_genre : option string;
  i_publishedDate : option Z;
  i_pages : option Q;
  i_language : option string;
  i_rating : option Q;
  i_ratingCount : option Z;
  i_readCount : option Z
}.

(** The update operators on numbers that a [req.body] may carry beside
    its plain fields, as in [{ ..., "$inc": { "rating": 3 } }]; the
    argument is an integer. *)
Inductive NumPath : Type := on_pages | on_rating | on_ratingCount | on_readCount.

Inductive NumOp : Type := op_inc | op_mul | op_min | op_max.

Record Operator : Type := mkOperator {
  o_op : NumOp;
  o_path : NumPath;
  o_arg : Z
}.

(** [req.body] of the registration route. *)
Record RegisterBody : Type := mkRegisterBody {
  r_name : option string;
  r_email : option string;
  r_password : option string;
  r_role : option json
}.

(** [req.query] of the list route. *)
Record Query : Type := mkQuery {
  q_search : option string;
  q_genre : option string;
  q_author : option string;
  q_language : option string;
  q_minRating : option string;
  q_sortBy : option string;
  q_sortOrder : option string;
  q_page : option string;
  q_limit : option string;
  q_publishedFrom : option string;
  q_publishedTo : option string
}.

(** The Mongo filter object built by the list route, after casting. *)
Record Filter : Type := mkFilter {
  f_text : option string;
  f_genre : option string;
  f_author : option (string -> bool);
  f_language : option string;
  f_minRating : option number;
  f_from : option Z;
  f_to : option Z
}.

(** A handler between two of its [await] points. *)
Inductive Call : Type :=
  | RateStart (authorization : option string) (id : N) (sent : json)
  | RateAuthed (id : N) (sent : json)
  | RateSaving (id : N) (doc : Book)
  | ReadStart (authorization : option string) (id : N)
  | ReadAuthed (uid : N) (id : N)
  | ReadBumped (uid : N) (id : N) (doc : Book)
  | Finished (resp : Response).

Section Handlers.

Context {P : Platform}.

(** *** middleware/auth.js *)

Definition bearer_token (authorization : option string) : option string :=
  match authorization with
  | Some a =>
      if String.prefix "Bearer " a
      then truthy (nth_error (split_space a "") 1)
      else None
  | None => None
  end.

(** [protect].  The document is carried whole: the handlers read its
    [_id] and its [role] only, and [me], which sends it, leaves the
    password out as [select('-password')] does. *)
Definition protect (authorization : option string) (db : Db)
  : Response + (N * User) :=
  match bearer_token authorization with
  | None => inl (mkResponse 401 (Message "Not authorized. No token provided."))
  | Some token =>
      match jwt_verify token with
      | None => inl (mkResponse 401 (Message "Not authorized. Invalid token."))
      | Some uid =>
          match users db !! uid with
          | None => inl (mkResponse 401 (Message "User no longer exists."))
          | Some u => inr (uid, u)
          end
      end
  end.

Definition adminOnly (u : User) : option Response :=
  if String.eqb (role u) "admin" then None
  else Some (mkResponse 403 (Message "Access denied. Admin only.")).

(** The request passes [protect]. *)
Definition authenticated (authorization : option string) (db : Db) : Prop :=
  exists who, protect authorization db = inr who.

(** *** Schema validation of models/Book.js *)

Definition pages_ok (p : option Q) : bool :=
  match p with
  | Some n => Qle_bool 1 n
  | None => true
  end.

Definition rating_ok (r : Q) : bool := Qle_bool 0 r && Qle_bool r 5.

Definition schema_ok (b : Book) : bool :=
  negb (String.eqb (title b) "") && negb (String.eqb (author b) "")
  && negb (String.eqb (description b) "") && is_genre (genre b)
  && pages_ok (pages b) && rating_ok (rating b).

(** *** POST /api/books/:id/rate *)

(** The validator [body('rating').isFloat({ min: 1, max: 5 })]: a
    number, but also a string that reads as one, and an array of such
    values -- an empty array included. *)
Definition rating_valid (sent : json) : bool := field_isFloat 1 5 sent.

(** Lines 112-116: the in-memory document after the two assignments.
    [None] when the new rating is [NaN] or an infinity, which the schema
    refuses at [save]. *)
Definition rate_update (b : Book) (sent : json) : option Book :=
  let count := Finite (inject_Z (ratingCount b)) in
  let newRatingCount := add64 count (Finite 1) in
  let newRating :=
    div64 (ToNumber (js_plus (mul64 (Finite (rating b)) count) sent))
          newRatingCount in
  match div64 (Math_round64 (mul64 newRating (Finite 10))) (Finite 10),
        newRatingCount with
  | Finite r, Finite c => Some (set_rating b r (Qfloor c))
  | _, _ => None
  end.

(** [book.save()]: validates the document and writes the two modified
    paths to the stored document. *)
Definition save_rating (id : N) (doc : Book) (bs : gmap N Book)
  : option (gmap N Book) :=
  if schema_ok doc then
    match bs !! id with
    | Some stored =>
        Some (<[id := set_rating stored (rating doc) (ratingCount doc)]> bs)
    | None => None
    end
  else None.

(** *** POST /api/books/:id/read *)

(** [$addToSet]. *)
Definition addToSet (x : N) (l : list N) : list N :=
  if existsb (N.eqb x) l then l else l ++ [x].

Definition add_read (u : User) (id : N) : User :=
  mkUser (name u) (email u) (password u) (role u) (addToSet id (readBooks u)).

(** *** One step of a handler: the code up to its next [await] taking
    effect on the store, which answers *)

Definition step (db : Db) (t : Call) : Db * Call :=
  match t with
  | RateStart authorization id sent =>
      match protect authorization db with
      | inl resp => (db, Finished resp)
      | inr _ =>
          if rating_valid sent then (db, RateAuthed id sent)
          else (db, Finished (mkResponse 400
                                (Message "Rating must be between 1 and 5")))
      end
  | RateAuthed id sent =>
      match books db !! id with
      | None => (db, Finished (mkResponse 404 (Message "Book not found.")))
      | Some book =>
          match rate_update book sent with
          | Some doc => (db, RateSaving id doc)
          | None => (db, Finished server_error)
          end
      end
  | RateSaving id doc =>
      match save_rating id doc (books db) with
      | Some bs =>
          (with_books db bs,
           Finished (mkResponse 200 (RatingBody (rating doc) (ratingCount doc))))
      | None => (db, Finished server_error)
      end
  | ReadStart authorization id =>
      match protect authorization db with
      | inl resp => (db, Finished resp)
      | inr (uid, _) => (db, ReadAuthed uid id)
      end
  | ReadAuthed uid id =>
      match books db !! id with
      | None => (db, Finished (mkResponse 404 (Message "Book not found.")))
      | Some book =>
          let doc := set_readCount book (readCount book + 1) in
          (with_books db (<[id := doc]> (books db)), ReadBumped uid id doc)
      end
  | ReadBumped uid id doc =>
      (with_users db (alter (fun u => add_read u id) uid (users db)),
       Finished (mkResponse 200 (ReadBody "Marked as read" (readCount doc))))
  | Finished resp => (db, t)
  end.

(** The same step when the store may reject the awaited operation, which
    then has no effect: the [catch] of [protect] answers 401, the [catch]
    of a handler 500.  A request without a usable token is turned away
    before [protect] reaches the store. *)
Definition step_with (rejected : bool) (db : Db) (t : Call) : Db * Call :=
  if rejected then
    match t with
    | RateStart authorization _ _ | ReadStart authorization _ =>
        match bearer_token authorization with
        | None => step db t
        | Some token =>
            match jwt_verify token with
            | None => step db t
            | Some _ =>
                (db, Finished (mkResponse 401
                                 (Message "Not authorized. Invalid token.")))
            end
        end
    | RateAuthed _ _ | RateSaving _ _ | ReadAuthed _ _ | ReadBumped _ _ _ =>
        (db, Finished server_error)
    | Finished _ => (db, t)
    end
  else step db t.

Fixpoint steps (n : nat) (db : Db) (t : Call) : Db * Call :=
  match n with
  | O => (db, t)
  | S n' => let '(db', t') := step db t in steps n' db' t'
  end.

Fixpoint steps_with (rejected : list bool) (db : Db) (t : Call) : Db * Call :=
  match rejected with
  | [] => (db, t)
  | r :: rejected' =>
      let '(db', t') := step_with r db t in steps_with rejected' db' t'
  end.

Definition response_of (t : Call) : option Response :=
  match t with
  | Finished resp => Some resp
  | _ => None
  end.

(** A request served with no other request in flight. *)
Definition serve (t : Call) (db : Db) : option Response * Db :=
  let '(db', t') := steps 3 db t in (response_of t', db').

(** The same when the store rejects the first, second or third operation
    the request awaits. *)
Definition serve_with (r1 r2 r3 : bool) (t : Call) (db : Db)
  : option Response * Db :=
  let '(db', t') := steps_with [r1; r2; r3] db t in (response_of t', db').

Definition recordRating (authorization : option string) (id : N) (sent : json)
  (db : Db) : option Response * Db :=
  serve (RateStart authorization id sent) db.

Definition recordRead (authorization : option string) (id : N) (db : Db)
  : option Response * Db :=
  serve (ReadStart authorization id) db.

(** Ratings sent as JSON numbers, one after the other, by the same
    client. *)
Fixpoint submit_all (authorization : option string) (id : N) (rs : list Q)
  (db : Db) : Db :=
  match rs with
  | [] => db
  | r :: rs' =>
      submit_all authorization id rs'
        (snd (recordRating authorization id (JNumber r) db))
  end.
(** *** Requests in flight together

    Node runs one handler at a time and switches between handlers only at
    an [await]; a schedule names, step after step, the request that
    proceeds. *)

Fixpoint run_schedule (sched : list nat) (db : Db) (ts : list Call)
  : Db * list Call :=
  match sched with
  | [] => (db, ts)
  | i :: sched' =>
      match ts !! i with
      | Some t =>
          let '(db', t') := step db t in
          run_schedule sched' db' (<[i := t']> ts)
      | None => run_schedule sched' db ts
      end
  end.

Definition succeeded (t : Call) : bool :=
  match t with
  | Finished resp => status resp =? 200
  | _ => false
  end.

(** *** Admin routes (second module of routes/auth.js) *)

Definition or_else {A : Type} (o : option A) (d : A) : A :=
  match o with
  | Some a => a
  | None => d
  end.

(** [router.use(protect, adminOnly)]. *)
Definition admin_route (authorization : option string) (db : Db)
  : option Response :=
  match protect authorization db with
  | inl resp => Some resp
  | inr (_, u) => adminOnly u
  end.

(** [bookValidation]: the first failing validator gives the message; the
    [trim] sanitizers rewrite the body. *)
Definition bookValidation (i : BookInput) : Response + BookInput :=
  let t := trim (or_else (i_title i) "") in
  let a := trim (or_else (i_author i) "") in
  let d := trim (or_else (i_description i) "") in
  if String.eqb t "" then inl (mkResponse 400 (Message "Title is required"))
  else if String.eqb a "" then inl (mkResponse 400 (Message "Author is required"))
  else if String.eqb d "" then inl (mkResponse 400 (Message "Description is required"))
  else if String.eqb (or_else (i_genre i) "") ""
  then inl (mkResponse 400 (Message "Genre is required"))
  else inr (mkBookInput (Some t) (Some a) (Some d) (i_genre i)
              (i_publishedDate i) (i_pages i) (i_language i) (i_rating i)
              (i_ratingCount i) (i_readCount i)).

(** The document [new Book({ ...req.body })] with the schema defaults. *)
Definition new_book (i : BookInput) (now : Z) : Book :=
  mkBook (trim (or_else (i_title i) "")) (trim (or_else (i_author i) ""))
         (or_else (i_description i) "") (or_else (i_genre i) "")
         (i_publishedDate i) (i_pages i) (or_else (i_language i) "English")
         (or_else (i_rating i) 0%Q) (or_else (i_ratingCount i) 0)
         (or_else (i_readCount i) 0) now.

(** The stored document after [$set]ting the fields of the body. *)
Definition apply_update (i : BookInput) (b : Book) : Book :=
  mkBook (or_else (trim <$> i_title i) (title b))
         (or_else (trim <$> i_author i) (author b))
         (or_else (i_description i) (description b))
         (or_else (i_genre i) (genre b))
         (match i_publishedDate i with Some d => Some d | None => publishedDate b end)
         (match i_pages i with Some p => Some p | None => pages b end)
         (or_else (i_language i) (language b))
         (or_else (i_rating i) (rating b))
         (or_else (i_ratingCount i) (ratingCount b))
         (or_else (i_readCount i) (readCount b))
         (createdAt b).

(** [runValidators: true]: the schema validators of the paths being set.
    Mongoose runs none for [$inc], [$mul], [$min] and [$max]. *)
Definition update_ok (i : BookInput) : bool :=
  match i_title i with Some s => negb (String.eqb (trim s) "") | None => true end
  && match i_author i with Some s => negb (String.eqb (trim s) "") | None => true end
  && match i_description i with Some s => negb (String.eqb s "") | None => true end
  && match i_genre i with Some g => is_genre g | None => true end
  && pages_ok (i_pages i)
  && match i_rating i with Some r => rating_ok r | None => true end.

(** [$inc], [$mul], [$min] and [$max] on the server; a product or a sum
    on a double is rounded, and a missing [pages] counts as 0. *)
Definition operate (op : NumOp) (x : Q) (n : Z) : Q :=
  match op with
  | op_inc => round64 (x + inject_Z n)
  | op_mul => round64 (x * inject_Z n)
  | op_min => if Qle_bool x (inject_Z n) then x else inject_Z n
  | op_max => if Qle_bool x (inject_Z n) then inject_Z n else x
  end.

Definition operate_Z (op : NumOp) (x n : Z) : Z :=
  match op with
  | op_inc => x + n
  | op_mul => x * n
  | op_min => Z.min x n
  | op_max => Z.max x n
  end.

Definition apply_operator (o : Operator) (b : Book) : Book :=
  match o_path o with
  | on_pages =>
      mkBook (title b) (author b) (description b) (genre b) (publishedDate b)
             (Some (match pages b, o_op o with
                    | Some p, _ => operate (o_op o) p (o_arg o)
                    | None, op_mul => 0%Q
                    | None, _ => inject_Z (o_arg o)
                    end))
             (language b) (rating b) (ratingCount b) (readCount b) (createdAt b)
  | on_rating =>
      set_rating b (operate (o_op o) (rating b) (o_arg o)) (ratingCount b)
  | on_ratingCount =>
      set_rating b (rating b) (operate_Z (o_op o) (ratingCount b) (o_arg o))
  | on_readCount =>
      set_readCount b (operate_Z (o_op o) (readCount b) (o_arg o))
  end.

Definition path_eqb (p q : NumPath) : bool :=
  match p, q with
  | on_pages, on_pages | on_rating, on_rating
  | on_ratingCount, on_ratingCount | on_readCount, on_readCount => true
  | _, _ => false
  end.

(** The plain field of the body that [$set]s the path. *)
Definition sets (i : BookInput) (p : NumPath) : bool :=
  match p with
  | on_pages => bool_decide (i_pages i <> None)
  | on_rating => bool_decide (i_rating i <> None)
  | on_ratingCount => bool_decide (i_ratingCount i <> None)
  | on_readCount => bool_decide (i_readCount i <> None)
  end.

(** MongoDB refuses an update that names a path twice. *)
Fixpoint conflict (i : BookInput) (ops : list Operator) : bool :=
  match ops with
  | [] => false
  | o :: ops' =>
      sets i (o_path o)
      || existsb (fun o' => path_eqb (o_path o) (o_path o')) ops'
      || conflict i ops'
  end.

(** POST /api/admin/books.  [fresh] is the [ObjectId] Mongoose generates
    and [now] the creation time. *)
Definition createBook (authorization : option string) (i : BookInput)
  (fresh : N) (now : Z) (db : Db) : Response * Db :=
  match admin_route authorization db with
  | Some resp => (resp, db)
  | None =>
      match bookValidation i with
      | inl resp => (resp, db)
      | inr i' =>
          let doc := new_book i' now in
          if schema_ok doc then
            match books db !! fresh with
            | None => (mkResponse 201 (BookBody fresh doc),
                       with_books db (<[fresh := doc]> (books db)))
            | Some _ => (server_error, db)
            end
          else (server_error, db)
      end
  end.

(** PUT /api/admin/books/:id.  [req.body] goes whole to
    [findByIdAndUpdate]: its plain fields [i] are [$set], its operators
    [ops] applied as they are. *)
Definition updateBook (authorization : option string) (id : N)
  (i : BookInput) (ops : list Operator) (db : Db) : Response * Db :=
  match admin_route authorization db with
  | Some resp => (resp, db)
  | None =>
      match bookValidation i with
      | inl resp => (resp, db)
      | inr i' =>
          if update_ok i' && negb (conflict i' ops) then
            match books db !! id with
            | None => (mkResponse 404 (Message "Book not found."), db)
            | Some b =>
                let doc := fold_left (fun d o => apply_operator o d) ops
                                     (apply_update i' b) in
                (mkResponse 200 (BookBody id doc),
                 with_books db (<[id := doc]> (books db)))
            end
          else (server_error, db)
      end
  end.

(** DELETE /api/admin/books/:id. *)
Definition deleteBook (authorization : option string) (id : N) (db : Db)
  : Response * Db :=
  match admin_route authorization db with
  | Some resp => (resp, db)
  | None =>
      match books db !! id with
      | None => (mkResponse 404 (Message "Book not found."), db)
      | Some _ =>
          (mkResponse 200 (Message "Book deleted successfully."),
           with_books db (delete id (books db)))
      end
  end.

(** *** POST /api/auth/register *)

(** [User.findOne({ email })]. *)
Definition findOne_email (e : string) (us : gmap N User) : option (N * User) :=
  List.find (fun p => String.eqb (email (snd p)) e) (map_to_list us).

(** Modelled from the spec: [User.create] of the missing [models/User.js];
    the document is stored under a new identifier with its password hashed
    and no book read. *)
Definition User_create (n e pw r : string) (fresh : N) (us : gmap N User)
  : option (User * gmap N User) :=
  match us !! fresh with
  | None =>
      let u := mkUser n e (hash_password pw) r [] in
      Some (u, <[fresh := u]> us)
  | Some _ => None
  end.

Definition register_validation (b : RegisterBody) : option Response :=
  if String.eqb (trim (or_else (r_name b) "")) ""
  then Some (mkResponse 400 (Message "Name is required"))
  else if negb (isEmail (or_else (r_email b) ""))
  then Some (mkResponse 400 (Message "Valid email is required"))
  else if char_count (or_else (r_password b) "") <? 6
  then Some (mkResponse 400 (Message "Password must be at least 6 characters"))
  else None.

(** [now] is the time, in seconds, at which the token is signed. *)
Definition register (b : RegisterBody) (fresh : N) (now : Z) (db : Db)
  : Response * Db :=
  match register_validation b with
  | Some resp => (resp, db)
  | None =>
      let e := or_else (r_email b) "" in
      match findOne_email e (users db) with
      | Some _ => (mkResponse 400 (Message "Email already in use."), db)
      | None =>
          let userRole :=
            if strict_eq_string (r_role b) "admin" then "admin" else "user" in
          match User_create (trim (or_else (r_name b) "")) e
                            (or_else (r_password b) "") userRole fresh (users db) with
          | Some (u, us) =>
              (mkResponse 201
                 (AuthBody (jwt_sign fresh now) fresh (name u) (email u) (role u)),
               with_users db us)
          | None => (server_error, db)
          end
      end
  end.

(** *** GET /api/books *)

(** [parseFloat(minRating)] as Mongoose casts it: [NaN] is refused, an
    infinity is not. *)
Definition cast_number (s : string) : option number :=
  match parseFloat s with
  | Nan => None
  | v => Some v
  end.

(** Lines 18-30.  [None] when Mongoose cannot cast the filter ([NaN] for a
    number, an invalid date) or MongoDB refuses the pattern: the query then
    rejects and the handler answers 500. *)
Definition build_filter (q : Query) : option Filter :=
  let cast {A B : Type} (f : A -> option B) (o : option A) : option (option B) :=
    match o with
    | Some a => match f a with Some b => Some (Some b) | None => None end
    | None => Some None
    end in
  match cast regex_compile (truthy (q_author q)),
        cast cast_number (truthy (q_minRating q)),
        cast parseDate (truthy (q_publishedFrom q)),
        cast parseDate (truthy (q_publishedTo q)) with
  | Some a, Some m, Some dfrom, Some dto =>
      Some (mkFilter (truthy (q_search q)) (truthy (q_genre q)) a
                     (truthy (q_language q)) m dfrom dto)
  | _, _, _, _ => None
  end.

Definition opt_test {A : Type} (o : option A) (p : A -> bool) : bool :=
  match o with
  | Some a => p a
  | None => true
  end.

(** Does a stored book satisfy the filter object? *)
Definition matches (f : Filter) (b : Book) : bool :=
  opt_test (f_text f) (fun s => text_search s b)
  && opt_test (f_genre f) (fun g => String.eqb (genre b) g)
  && opt_test (f_author f) (fun re => re (author b))
  && opt_test (f_language f) (fun l => String.eqb (language b) l)
  && opt_test (f_minRating f) (fun m => le64 m (Finite (rating b)))
  && opt_test (f_from f)
       (fun d => match publishedDate b with Some x => d <=? x | None => false end)
  && opt_test (f_to f)
       (fun d => match publishedDate b with Some x => x <=? d | None => false end).

(** [Book.find(filter)] before sorting. *)
Definition find_all (f : Filter) (db : Db) : list (N * Book) :=
  List.filter (fun d => matches f (snd d)) (map_to_list (books db)).

(** [.skip(skip).limit(limitNum)] on the sorted cursor. *)
Definition skip_limit (skip limitNum : jsnum) (sorted : list (N * Book))
  : option (list (N * Book)) :=
  match skip, limitNum with
  | Num s, Num l => Some (firstn (Z.to_nat l) (skipn (Z.to_nat s) sorted))
  | _, _ => find_nan sorted
  end.

(** Lines 35-37; the defaults [page = 1, limit = 12] apply to an absent
    parameter only. *)
Definition pageNum_of (q : Query) : jsnum :=
  Math_max 1 (match q_page q with Some s => parseInt s | None => Num 1 end).

Definition limitNum_of (q : Query) : jsnum :=
  Math_min 50 (Math_max 1 (match q_limit q with
                           | Some s => parseInt s
                           | None => Num 12
                           end)).

Definition skip_of (q : Query) : jsnum :=
  js_mul (js_sub (pageNum_of q) (Num 1)) (limitNum_of q).

(** Lines 13 and 32-33: the sort the list route asks for. *)
Definition sort_field (q : Query) : string := or_else (q_sortBy q) "createdAt".

Definition sort_asc (q : Query) : bool :=
  match q_sortOrder q with
  | Some o => String.eqb o "asc"
  | None => false
  end.

Definition sorted_matches (q : Query) (plan : Plan) (f : Filter) (db : Db)
  : option (list (N * Book)) :=
  mongo_sort plan (sort_field q) (sort_asc q) (find_all f db).

Definition listBooks (q : Query) (plan : Plan) (db : Db) : Response :=
  match build_filter q with
  | None => server_error
  | Some f =>
      let pageNum := pageNum_of q in
      let limitNum := limitNum_of q in
      let total := Z.of_nat (length (find_all f db)) in
      match sorted_matches q plan f db with
      | None => server_error
      | Some sorted =>
          match skip_limit (skip_of q) limitNum sorted with
          | Some bs =>
              mkResponse 200
                (ListBody bs
                   (mkPagination total pageNum limitNum
                      (match limitNum with
                       | Num l => Num (Math_ceil_div total l)
                       | NaN => NaN
                       end)))
          | None => server_error
          end
      end
  end.

End Handlers.

(** ** Specification vocabulary *)

(** Rounding to one decimal place, a tie going up. *)
Definition round1 (x : Q) : Q := Qfloor (x * 10 + (1 # 2))%Q # 10.

(** The double nearest to a real number. *)
Definition dbl (x : Q) : Q := round64 x.

Definition Qsum (rs : list Q) : Q := fold_right Qplus 0%Q rs.

Definition mean (rs : list Q) : Q :=
  (Qsum rs / inject_Z (Z.of_nat (length rs)))%Q.

(** Lines 112-116 on the pair [(rating, ratingCount)] for a rating sent
    as the number [r], every operation rounding to a double: the product,
    the sum, the new count, the quotient, and the number of tenths that
    [Math.round] yields. *)
Definition rate_product (a : Q) (c : Z) : Q := dbl (a * inject_Z c).

Definition rate_sum (a : Q) (c : Z) (r : Q) : Q := dbl (rate_product a c + dbl r).

Definition rate_count (c : Z) : Q := dbl (inject_Z c + 1).

Definition rate_quotient (a : Q) (c : Z) (r : Q) : Q :=
  dbl (rate_sum a c r / rate_count c).

Definition rate_tenths (a : Q) (c : Z) (r : Q) : Z :=
  Math_round (dbl (rate_quotient a c r * 10)).

Definition running (s : Q * Z) (r : Q) : Q * Z :=
  (dbl (inject_Z (rate_tenths (fst s) (snd s) r) / 10),
   Qfloor (rate_count (snd s))).

(** A number with at most one decimal. *)
Definition one_decimal (x : Q) : Prop := (round1 x == x)%Q.

(** The running mean of every proper, non-empty prefix has one decimal. *)
Definition exact_prefixes (rs : list Q) : Prop :=
  forall k : nat, (0 < k < length rs)%nat -> one_decimal (mean (firstn k rs)).

Definition valid_rating (r : Q) : Prop := (1 <= r)%Q /\ (r <= 5)%Q.

(** [x * 10] is at least [eps] away from every tie [j + 1/2]. *)
Definition clear_of_ties (x eps : Q) : Prop :=
  forall j : Z, (eps <= Qabs (x * 10 - (inject_Z j + (1 # 2))))%Q.

(** [a] is as close to [m] as the double nearest to a number of 0..5 is. *)
Definition near (a m : Q) : Prop :=
  (a - m <= pow2 (-53) * 5 + pow2 (-1075))%Q
  /\ (m - a <= pow2 (-53) * 5 + pow2 (-1075))%Q.

(** The engagement invariants of the data model. *)
Definition rating_in_range (b : Book) : Prop :=
  (0 <= rating b)%Q /\ (rating b <= 5)%Q.








(** A read request for book [id], at any point of its run. *)
Definition read_of (id : N) (t : Call) : Prop :=
  match t with
  | ReadStart _ i | ReadAuthed _ i | ReadBumped _ i _ => i = id
  | Finished _ => True
  | _ => False
  end.

(** 1 once the request has incremented [readCount], 0 before that or when
    the request was turned away. *)
Definition bumped (t : Call) : Z :=
  match t with
  | ReadBumped _ _ _ => 1
  | Finished resp => if status resp =? 200 then 1 else 0
  | _ => 0
  end.

Definition bumps (ts : list Call) : Z := fold_right (fun t n => bumped t + n) 0 ts.


(** No two records of the list have the same sort key. *)
Definition distinct_keys (field : string) (l : list (N * Book)) : Prop :=
  forall x y, In x l -> In y l -> same_key field x y = true -> x = y.

(** The [k]-th page (from 0) of a result sequence. *)
Definition chunk {A : Type} (l : nat) (s : list A) (k : nat) : list A :=
  firstn l (skipn (k * l) s).

Definition numeric (o : option string) : Prop :=
  match o with
  | Some s => parseInt s <> NaN
  | None => True
  end.

(** A paging parameter as [parseInt] reads it, with the default of an
    absent one. *)
Definition parsed (o : option string) (d : Z) : jsnum :=
  match o with
  | Some s => parseInt s
  | None => Num d
  end.

(** The filters of a list query, as the specification lists them: a
    filter applies when its parameter is present and not empty. *)
Definition satisfies {P : Platform} (q : Query) (b : Book) : bool :=
  opt_test (truthy (q_search q)) (fun s => text_search s b)
  && opt_test (truthy (q_genre q)) (fun g => String.eqb (genre b) g)
  && opt_test (truthy (q_author q))
       (fun s => match regex_compile s with
                 | Some re => re (author b)
                 | None => false
                 end)
  && opt_test (truthy (q_language q)) (fun l => String.eqb (language b) l)
  && opt_test (truthy (q_minRating q))
       (fun s => le64 (parseFloat s) (Finite (rating b)))
  && opt_test (truthy (q_publishedFrom q))
       (fun s => match parseDate s, publishedDate b with
                 | Some d, Some x => d <=? x
                 | _, _ => false
                 end)
  && opt_test (truthy (q_publishedTo q))
       (fun s => match parseDate s, publishedDate b with
                 | Some d, Some x => x <=? d
                 | _, _ => false
                 end).

(** The stored books a list query asks for. *)
Definition matching {P : Platform} (q : Query) (db : Db) : list (N * Book) :=
  List.filter (fun d => satisfies q (snd d)) (map_to_list (books db)).

(** The filter values of the query can be used: the author pattern is one
    MongoDB accepts, [minRating] reads as a number, the dates are dates. *)
Definition usable {P : Platform} (q : Query) : Prop :=
  (forall s, truthy (q_author q) = Some s -> regex_compile s <> None)
  /\ (forall s, truthy (q_minRating q) = Some s -> parseFloat s <> Nan)
  /\ (forall s, truthy (q_publishedFrom q) = Some s -> parseDate s <> None)
  /\ (forall s, truthy (q_publishedTo q) = Some s -> parseDate s <> None).

(** ** A platform to run the handlers on concrete requests *)

Fixpoint insert_sorted {A : Type} (le : A -> A -> bool) (x : A) (l : list A)
  : list A :=
  match l with
  | [] => [x]
  | y :: l' => if le x y then x :: l else y :: insert_sorted le x l'
  end.

Definition isort {A : Type} (le : A -> A -> bool) (l : list A) : list A :=
  fold_right (insert_sorted le) [] l.

(** Orders by the requested key and, among equal keys, by identifier:
    the larger one first under an even plan, the smaller one first under
    an odd plan. *)
Definition test_le (plan : Plan) (field : string) (asc : bool)
  (x y : N * Book) : bool :=
  doc_le field asc x y
  && (negb (doc_le field asc y x)
      || (if N.even plan then (fst y <=? fst x)%N else (fst x <=? fst y)%N)).

Definition num_of_string (s : string) : option Z :=
  match parseInt s with
  | Num z => Some z
  | NaN => None
  end.

Definition test_platform : Platform := {|
  text_search := fun s b => String.eqb s (title b);
  regex_compile := fun p => Some (String.eqb p);
  parseDate := num_of_string;
  mongo_sort := fun plan f asc l =>
                  if String.eqb f "" then None
                  else Some (isort (test_le plan f asc) l);
  find_nan := fun _ => None;
  jwt_verify := fun t => Z.to_N <$> num_of_string t;
  jwt_sign := fun _ _ => "jwt";
  hash_password := fun p => "hashed:" ++ p;
  isEmail := fun s => existsb (Ascii.eqb "@") (list_ascii_of_string s)
|}.

Definition sample_book (r : Q) (c : Z) : Book :=
  mkBook "Dune" "Frank Herbert" "Desert planet" "Science Fiction" None None
         "English" r c 0 0.

Definition reader : User := mkUser "Ann" "ann@example.com" "hashed:secret" "user" [].
Definition admin : User := mkUser "Root" "admin@bookhub.com" "hashed:admin123" "admin" [].

(** Users 1 (a reader) and 2 (an admin); their tokens are ["1"] and ["2"]. *)
Definition sample_users : gmap N User := <[2%N := admin]> (<[1%N := reader]> ∅).

Definition sample_db (bs : gmap N Book) : Db := mkDb bs sample_users.

(** One unrated book, with identifier 7. *)
Definition unrated_db : Db := sample_db {[ 7%N := sample_book 0 0 ]}.

(** Two books that agree on every field, with identifiers 1 and 2. *)
Definition tie_db : Db :=
  sample_db (<[2%N := sample_book 4 1]> {[ 1%N := sample_book 4 1 ]}).

(** Three books with three ratings and three creation times. *)
Definition shelf_book (t : string) (r : Q) (created : Z) : Book :=
  mkBook t "An author" "A description" "Fiction" None None "English" r 1 0 created.

Definition shelf_db : Db :=
  sample_db (<[3%N := shelf_book "C" 3 30]>
               (<[2%N := shelf_book "B" 5 10]> {[ 1%N := shelf_book "A" 4 20 ]})).

Definition as_reader : option string := Some "Bearer 1".
Definition as_admin : option string := Some "Bearer 2".

Definition no_query : Query :=
  mkQuery None None None None None None None None None None None.

(** A body that passes [bookValidation] and sets [ratingCount] to -1. *)
Definition negative_count_input : BookInput :=
  mkBookInput (Some "Dune") (Some "Frank Herbert") (Some "Desert planet")
              (Some "Science Fiction") None None None None (Some (-1)) None.



Definition with_paging (q : Query) (pg lm : option string) : Query :=
  mkQuery (q_search q) (q_genre q) (q_author q) (q_language q) (q_minRating q)
          (q_sortBy q) (q_sortOrder q) pg lm (q_publishedFrom q) (q_publishedTo q).

Definition with_genre (q : Query) (g : option string) : Query :=
  mkQuery (q_search q) g (q_author q) (q_language q) (q_minRating q)
          (q_sortBy q) (q_sortOrder q) (q_page q) (q_limit q)
          (q_publishedFrom q) (q_publishedTo q).


Definition empty_input : BookInput :=
  mkBookInput None None None None None None None None None None.

(** The [books] array of a list response. *)
Definition books_of (resp : Response) : list (N * Book) :=
  match body resp with
  | ListBody bs _ => bs
  | _ => []
  end.

(** Pages [pgs 0 .. pgs (n - 1)] of a query, each asked for in a request
    of its own, put end to end. *)
Definition enumerate {P : Platform} (q : Query) (lm : option string)
  (pgs : nat -> option string) (plans : nat -> Plan) (n : nat) (db : Db)
  : list (N * Book) :=
  concat (map (fun k => books_of (listBooks (with_paging q (pgs k) lm) (plans k) db))
              (seq 0 n)).

(** * Further routes and their callers

    The remaining routes of [routes/books.js] and [routes/auth.js], and the
    front-end code that calls the catalog routes or renders their answers:
    [store/filterSlice.ts], the [fetchBooks] of the home page, the
    [Pagination] and [StarRating] components, the request interceptor of
    [utils/api] and the [register] call of the authentication context. *)

(** ** GET /api/books/:id *)

Definition getBook (id : N) (db : Db) : Response :=
  match books db !! id with
  | Some book => mkResponse 200 (BookBody id book)
  | None => mkResponse 404 (Message "Book not found.")
  end.

(** ** Answers of the admin listing and of the insights route *)

Record AdminList : Type := mkAdminList {
  a_books : list (N * Book);
  a_total : Z;
  a_page : jsnum;
  (** [NaN] also stands for an infinity: both are [null] in the JSON. *)
  a_totalPages : jsnum
}.

(** One group of [{ $group: { _id: '$genre', count, totalReads } }]. *)
Record GenreStat : Type := mkGenreStat {
  g_id : string;
  g_count : Z;
  g_totalReads : Z
}.

(** [.select('title author readCount rating coverImage')], the cover image
    being outside the model. *)
Record ReadCard : Type := mkReadCard {
  c_id : N;
  c_title : string;
  c_author : string;
  c_readCount : Z;
  c_rating : Q
}.

(** [.select('title author genre createdAt coverImage')]. *)
Record RecentCard : Type := mkRecentCard {
  n_id : N;
  n_title : string;
  n_author : string;
  n_genre : string;
  n_createdAt : Z
}.

(** [.select('title author readCount')]. *)
Record ReadRow : Type := mkReadRow {
  w_id : N;
  w_title : string;
  w_author : string;
  w_readCount : Z
}.

Record Insights : Type := mkInsights {
  totalBooks : Z;
  totalReads : Z;
  topBooks : list ReadCard;
  bottomBooks : list ReadCard;
  recentBooks : list RecentCard;
  readCountPerBook : list ReadRow;
  genreBreakdown : list GenreStat
}.

(** The [user] of the answer of [/me]: [protect] selects ['-password']. *)
Record Profile : Type := mkProfile {
  p_id : N;
  p_name : string;
  p_email : string;
  p_role : string;
  p_readBooks : list N
}.

(** What the login and admin routes obtain from their libraries, besides
    [Platform]. *)
Class Services : Type := {
  (** [user.comparePassword(candidate)] of the missing [models/User.js]:
      the candidate, then the stored hash. *)
  comparePassword : string -> string -> bool;
  (** The stage [{ $sort: { count: -1 } }] of the insights pipeline. *)
  sort_stats : list GenreStat -> list GenreStat;
  (** What a cursor yields when its skip is negative or [NaN], or its
      limit is below 1 or [NaN]; [None] when the command is refused. *)
  odd_cursor : jsnum -> jsnum -> list (N * Book) -> option (list (N * Book))
}.

(** The contract of the [$sort] stage on groups. *)
Class ServicesOk (S : Services) : Prop := {
  sort_stats_perm : forall l, Permutation (sort_stats l) l;
  sort_stats_sorted : forall l,
      Sorted (fun x y => g_count y <= g_count x) (sort_stats l)
}.

Section MoreHandlers.

Context {P : Platform} {S : Services}.

(** ** POST /api/auth/login *)

Definition login_validation (e pw : option string) : option Response :=
  if negb (isEmail (or_else e ""))
  then Some (mkResponse 400 (Message "Valid email is required"))
  else if String.eqb (or_else pw "") ""
  then Some (mkResponse 400 (Message "Password is required"))
  else None.

(** [now] is the time, in seconds, at which the token is signed. *)
Definition login (e pw : option string) (now : Z) (db : Db) : Response :=
  match login_validation e pw with
  | Some resp => resp
  | None =>
      match findOne_email (or_else e "") (users db) with
      | Some (id, user) =>
          if comparePassword (or_else pw "") (password user)
          then mkResponse 200
                 (AuthBody (jwt_sign id now) id (name user) (email user) (role user))
          else mkResponse 401 (Message "Invalid email or password.")
      | None => mkResponse 401 (Message "Invalid email or password.")
      end
  end.

(** ** GET /api/auth/me *)

(** [req.user] as it is sent: the document less its password. *)
Definition profile_of (id : N) (u : User) : Profile :=
  mkProfile id (name u) (email u) (role u) (readBooks u).

Definition me (authorization : option string) (db : Db) : Response + Profile :=
  match protect authorization db with
  | inl resp => inl resp
  | inr (id, user) => inr (profile_of id user)
  end.

(** ** GET /api/admin/books *)

Definition adminBooks (authorization : option string)
  (page limit search : option string) (plan : Plan) (db : Db)
  : Response + AdminList :=
  match admin_route authorization db with
  | Some resp => inl resp
  | None =>
      let pageNum := parsed page 1 in
      let limitNum := parsed limit 20 in
      let found :=
        List.filter (fun d => match truthy search with
                              | Some s => text_search s (snd d)
                              | None => true
                              end)
                    (map_to_list (books db)) in
      let total := Z.of_nat (length found) in
      let skip := js_mul (js_sub pageNum (Num 1)) limitNum in
      let cursor :=
        match mongo_sort plan "createdAt" false found with
        | None => None
        | Some sorted =>
            match skip, limitNum with
            | Num s, Num l =>
                if (0 <=? s) && (1 <=? l)
                then Some (firstn (Z.to_nat l) (skipn (Z.to_nat s) sorted))
                else odd_cursor skip limitNum sorted
            | _, _ => odd_cursor skip limitNum sorted
            end
        end in
      match cursor with
      | Some bs =>
          inr (mkAdminList bs total pageNum
                 (match limitNum with
                  | Num l => if l =? 0 then NaN else Num (Math_ceil_div total l)
                  | NaN => NaN
                  end))
      | None => inl server_error
      end
  end.

(** ** GET /api/admin/insights *)

(** The accumulator of the [$group] stage. *)
Fixpoint add_stat (g : string) (reads : Z) (gs : list GenreStat)
  : list GenreStat :=
  match gs with
  | [] => [mkGenreStat g 1 reads]
  | s :: gs' =>
      if String.eqb (g_id s) g
      then mkGenreStat g (g_count s + 1) (g_totalReads s + reads) :: gs'
      else s :: add_stat g reads gs'
  end.

Definition group_genres (docs : list (N * Book)) : list GenreStat :=
  fold_right (fun d gs => add_stat (genre (snd d)) (readCount (snd d)) gs) [] docs.

Definition sum_reads (docs : list (N * Book)) : Z :=
  fold_right (fun d n => readCount (snd d) + n) 0 docs.

Definition read_card (d : N * Book) : ReadCard :=
  mkReadCard (fst d) (title (snd d)) (author (snd d)) (readCount (snd d))
             (rating (snd d)).

Definition recent_card (d : N * Book) : RecentCard :=
  mkRecentCard (fst d) (title (snd d)) (author (snd d)) (genre (snd d))
               (createdAt (snd d)).

Definition read_row (d : N * Book) : ReadRow :=
  mkReadRow (fst d) (title (snd d)) (author (snd d)) (readCount (snd d)).

(** The four sorted queries of the route have a plan each. *)
Definition insights (authorization : option string) (plan : nat -> Plan)
  (db : Db) : Response + Insights :=
  match admin_route authorization db with
  | Some resp => inl resp
  | None =>
      let docs := map_to_list (books db) in
      match mongo_sort (plan 0%nat) "readCount" false docs,
            mongo_sort (plan 1%nat) "readCount" true docs,
            mongo_sort (plan 2%nat) "createdAt" false docs,
            mongo_sort (plan 3%nat) "readCount" false docs with
      | Some top, Some bottom, Some recent, Some rows =>
          inr (mkInsights
                 (Z.of_nat (length docs))
                 (sum_reads docs)
                 (map read_card (firstn 5 top))
                 (map read_card (firstn 5 bottom))
                 (map recent_card (firstn 10 recent))
                 (map read_row rows)
                 (sort_stats (group_genres docs)))
      | _, _, _, _ => inl server_error
      end
  end.

End MoreHandlers.

(** ** store/filterSlice.ts *)

Inductive SortField : Type :=
  | SortCreatedAt | SortRating | SortReadCount | SortPublishedDate | SortTitle.

Inductive SortOrder : Type := Asc | Desc.

Definition SortField_string (f : SortField) : string :=
  match f with
  | SortCreatedAt => "createdAt"
  | SortRating => "rating"
  | SortReadCount => "readCount"
  | SortPublishedDate => "publishedDate"
  | SortTitle => "title"
  end.

Definition SortOrder_string (o : SortOrder) : string :=
  match o with
  | Asc => "asc"
  | Desc => "desc"
  end.

Record FilterState : Type := mkFilterState {
  fs_search : string;
  fs_genre : string;
  fs_author : string;
  fs_minRating : string;
  fs_sortBy : SortField;
  fs_sortOrder : SortOrder;
  fs_publishedFrom : string;
  fs_publishedTo : string;
  fs_page : Z;
  fs_limit : Z
}.

Definition initialState : FilterState :=
  mkFilterState "" "" "" "" SortCreatedAt Desc "" "" 1 12.

Inductive Action : Type :=
  | setSearch (s : string)
  | setGenre (s : string)
  | setAuthor (s : string)
  | setMinRating (s : string)
  | setSortBy (f : SortField)
  | setSortOrder (o : SortOrder)
  | setPublishedFrom (s : string)
  | setPublishedTo (s : string)
  | setPage (n : Z)
  | setLimit (n : Z)
  | resetFilters.

Definition reducer (st : FilterState) (a : Action) : FilterState :=
  match a with
  | setSearch s =>
      mkFilterState s (fs_genre st) (fs_author st) (fs_minRating st)
        (fs_sortBy st) (fs_sortOrder st) (fs_publishedFrom st)
        (fs_publishedTo st) 1 (fs_limit st)
  | setGenre s =>
      mkFilterState (fs_search st) s (fs_author st) (fs_minRating st)
        (fs_sortBy st) (fs_sortOrder st) (fs_publishedFrom st)
        (fs_publishedTo st) 1 (fs_limit st)
  | setAuthor s =>
      mkFilterState (fs_search st) (fs_genre st) s (fs_minRating st)
        (fs_sortBy st) (fs_sortOrder st) (fs_publishedFrom st)
        (fs_publishedTo st) 1 (fs_limit st)
  | setMinRating s =>
      mkFilterState (fs_search st) (fs_genre st) (fs_author st) s
        (fs_sortBy st) (fs_sortOrder st) (fs_publishedFrom st)
        (fs_publishedTo st) 1 (fs_limit st)
  | setSortBy f =>
      mkFilterState (fs_search st) (fs_genre st) (fs_author st)
        (fs_minRating st) f (fs_sortOrder st) (fs_publishedFrom st)
        (fs_publishedTo st) 1 (fs_limit st)
  | setSortOrder o =>
      mkFilterState (fs_search st) (fs_genre st) (fs_author st)
        (fs_minRating st) (fs_sortBy st) o (fs_publishedFrom st)
        (fs_publishedTo st) (fs_page st) (fs_limit st)
  | setPublishedFrom s =>
      mkFilterState (fs_search st) (fs_genre st) (fs_author st)
        (fs_minRating st) (fs_sortBy st) (fs_sortOrder st) s
        (fs_publishedTo st) 1 (fs_limit st)
  | setPublishedTo s =>
      mkFilterState (fs_search st) (fs_genre st) (fs_author st)
        (fs_minRating st) (fs_sortBy st) (fs_sortOrder st)
        (fs_publishedFrom st) s 1 (fs_limit st)
  | setPage n =>
      mkFilterState (fs_search st) (fs_genre st) (fs_author st)
        (fs_minRating st) (fs_sortBy st) (fs_sortOrder st)
        (fs_publishedFrom st) (fs_publishedTo st) n (fs_limit st)
  | setLimit n =>
      mkFilterState (fs_search st) (fs_genre st) (fs_author st)
        (fs_minRating st) (fs_sortBy st) (fs_sortOrder st)
        (fs_publishedFrom st) (fs_publishedTo st) 1 n
  | resetFilters => initialState
  end.

(** ** The [fetchBooks] of the home page

    The query string built with [URLSearchParams] is taken as read back
    unchanged by Express. *)

Definition param (s : string) : option string :=
  if String.eqb s "" then None else Some s.

Definition fetchBooks_query (st : FilterState) : Query :=
  mkQuery (param (fs_search st)) (param (fs_genre st)) (param (fs_author st))
          None (param (fs_minRating st))
          (Some (SortField_string (fs_sortBy st)))
          (Some (SortOrder_string (fs_sortOrder st)))
          (Some (String_of_int (fs_page st)))
          (Some (String_of_int (fs_limit st)))
          (param (fs_publishedFrom st)) (param (fs_publishedTo st)).

(** ** The [Pagination] component *)

(** [for (let i = a; i <= b; i++)]. *)
Definition range (a b : Z) : list Z :=
  map (fun i => a + Z.of_nat i) (seq 0 (Z.to_nat (b - a + 1))).

(** The buttons: a page number, or [None] for ['...']; the component
    renders nothing when there is at most one page. *)
Definition page_buttons (page totalPages : Z) : option (list (option Z)) :=
  if totalPages <=? 1 then None
  else if totalPages <=? 7 then Some (map Some (range 1 totalPages))
  else
    Some ([Some 1]
            ++ (if 3 <? page then [None] else [])
            ++ map Some (range (Z.max 2 (page - 1))
                               (Z.min (totalPages - 1) (page + 1)))
            ++ (if page <? totalPages - 2 then [None] else [])
            ++ [Some totalPages])%list.

Definition showing_from (page limit : Z) : Z := (page - 1) * limit + 1.

Definition showing_to (page limit total : Z) : Z := Z.min (page * limit) total.

(** ** The [StarRating] of a book card *)

Inductive Glyph : Type := FullStar | HalfStar | EmptyStar.

(** [x % 1]: the remainder has the sign of [x]. *)
Definition mod1 (x : Q) : Q :=
  (x - inject_Z (if Qle_bool 0 x then Qfloor x else Qceiling x))%Q.

Definition StarRating (rating : Q) : list Glyph :=
  let full := Qfloor rating in
  let half := Qle_bool (1 # 2) (mod1 rating) in
  map (fun i => if i <? full then FullStar
                else if (i =? full) && half then HalfStar
                else EmptyStar)
      [0; 1; 2; 3; 4].

Definition glyph_value (g : Glyph) : Q :=
  match g with
  | FullStar => 1
  | HalfStar => 1 # 2
  | EmptyStar => 0
  end.

(** ** The request interceptor and the [register] call of the front end *)

(** [Authorization: Bearer ${token}] when local storage holds a token. *)
Definition interceptor (token : option string) : option string :=
  match truthy token with
  | Some t => Some ("Bearer " ++ t)
  | None => None
  end.

(** The body [{ name, email, password }] the sign-up form posts. *)
Definition register_call (n e pw : string) : RegisterBody :=
  mkRegisterBody (Some n) (Some e) (Some pw) None.

(** ** Vocabulary of the further properties *)

Definition sum_counts (gs : list GenreStat) : Z :=
  fold_right (fun s n => g_count s + n) 0 gs.

Definition sum_totalReads (gs : list GenreStat) : Z :=
  fold_right (fun s n => g_totalReads s + n) 0 gs.

Definition no_space (s : string) : Prop :=
  Forall (fun c => Ascii.eqb c " " = false) (list_ascii_of_string s).

(** The numbers among the buttons, in order. *)
Definition numbers (bs : list (option Z)) : list Z :=
  flat_map (fun b => match b with Some n => [n] | None => [] end) bs.

Definition stars_value (gs : list Glyph) : Q :=
  fold_right (fun g v => (glyph_value g + v)%Q) 0%Q gs.

(** Services for the concrete runs. *)
Definition test_services : Services := {|
  comparePassword := fun candidate stored => String.eqb ("hashed:" ++ candidate) stored;
  sort_stats := isort (fun x y => g_count y <=? g_count x);
  odd_cursor := fun _ _ _ => None
|}.

(** The caller passes [protect] and [adminOnly]. *)
Definition admin_caller {P : Platform} (authorization : option string)
  (db : Db) : Prop :=
  exists uid u, protect authorization db = inr (uid, u) /\ role u = "admin".

(** The stored books the admin listing is asked for: all of them, or
    those the text search finds when [search] is present and not empty. *)
Definition searched {P : Platform} (search : option string) (db : Db)
  : list (N * Book) :=
  List.filter (fun d => opt_test (truthy search) (fun s => text_search s (snd d)))
              (map_to_list (books db)).

(** The answer is one of the refusals of the access middleware. *)
Definition refused (resp : Response) : Prop :=
  status resp = 401 \/ status resp = 403.

(** As [test_platform], with tokens that [jwt_verify] reads back and that
    carry the time at which they were signed. *)
Definition session_platform : Platform := {|
  text_search := text_search (Platform := test_platform);
  regex_compile := regex_compile (Platform := test_platform);
  parseDate := parseDate (Platform := test_platform);
  mongo_sort := mongo_sort (Platform := test_platform);
  find_nan := find_nan (Platform := test_platform);
  jwt_verify := jwt_verify (Platform := test_platform);
  jwt_sign := fun id now => String_of_int (Z.of_N id) ++ "." ++ String_of_int now;
  hash_password := hash_password (Platform := test_platform);
  isEmail := isEmail (Platform := test_platform)
|}.

(** Two books named Dune and one named Emma. *)
Definition dune_db : Db :=
  sample_db (<[3%N := shelf_book "Emma" 3 30]>
               (<[2%N := sample_book 4 1]> {[ 1%N := sample_book 4 1 ]})).

Definition eve : RegisterBody :=
  mkRegisterBody (Some "Eve") (Some "eve@example.com") (Some "secret1") None.

(** The query with its empty filter parameters taken away. *)
Definition drop_blank (q : Query) : Query :=
  mkQuery (truthy (q_search q)) (truthy (q_genre q)) (truthy (q_author q))
          (truthy (q_language q)) (truthy (q_minRating q))
          (q_sortBy q) (q_sortOrder q) (q_page q) (q_limit q)
          (truthy (q_publishedFrom q)) (truthy (q_publishedTo q)).

(** The book is not on the card list. *)
Definition unlisted (id : N) (cs : list ReadCard) : Prop :=
  forall c, In c cs -> c_id c <> id.

(** What the components dispatch: a page of at least 1, a limit within
    the server's bounds. *)
Definition dispatched (a : Action) : Prop :=
  match a with
  | setPage n => 1 <= n
  | setLimit n => 1 <= n <= 50
  | _ => True
  end.

(** The state after a sequence of actions. *)
Definition run (actions : list Action) (st : FilterState) : FilterState :=
  fold_left reducer actions st.

(** The buttons after [prev] go up one page at a time, and an ellipsis
    stands exactly where pages are left out. *)
Fixpoint gaps_ok (prev : Z) (bs : list (option Z)) : Prop :=
  match bs with
  | [] => True
  | Some n :: rest => n = prev + 1 /\ gaps_ok n rest
  | None :: rest =>
      match rest with
      | Some n :: rest' => prev + 1 < n /\ gaps_ok n rest'
      | _ => False
      end
  end.

(** The string of the given bytes. *)
Definition utf8 (bytes : list N) : string :=
  fold_right (fun b s => String (ascii_of_N b) s) "" bytes.

(** The white-space characters of ECMAScript, in UTF-8: U+0009 to
    U+000D, U+0020, U+00A0, U+1680, U+2000 to U+200A, U+2028, U+2029,
    U+202F, U+205F, U+3000 and U+FEFF. *)
Definition white_space : list string :=
  map utf8
    [ [9]; [10]; [11]; [12]; [13]; [32]; [194; 160]; [225; 154; 128];
      [226; 128; 128]; [226; 128; 129]; [226; 128; 130]; [226; 128; 131];
      [226; 128; 132]; [226; 128; 133]; [226; 128; 134]; [226; 128; 135];
      [226; 128; 136]; [226; 128; 137]; [226; 128; 138]; [226; 128; 168];
      [226; 128; 169]; [226; 128; 175]; [226; 129; 159]; [227; 128; 128];
      [239; 187; 191] ]%N.

(** A string of white space only. *)
Inductive blank : string -> Prop :=
  | blank_empty : blank ""
  | blank_space (w s : string) : In w white_space -> blank s -> blank (w ++ s).



(** A rating request for any book, or a read request for book [id]. *)
Definition rate_or_read_of (id : N) (t : Call) : Prop :=
  match t with
  | ReadStart _ i | ReadAuthed _ i | ReadBumped _ i _ => i = id
  | _ => True
  end.

(** 1 for a read request that has got through: its increment is done, or
    it has been answered "Marked as read". *)
Definition marked (t : Call) : Z :=
  match t with
  | ReadBumped _ _ _ => 1
  | Finished resp =>
      match body resp with
      | ReadBody _ _ => 1
      | _ => 0
      end
  | _ => 0
  end.

Definition marks (ts : list Call) : Z := fold_right (fun t n => marked t + n) 0 ts.
(** * Properties *)

(** ** Rounding to a double *)

Lemma pow2_pos (e : Z) : (0 < pow2 e)%Q.
Proof. apply Qpower_0_lt. reflexivity. Qed.

Lemma pow2_add (a b : Z) : (pow2 (a + b) == pow2 a * pow2 b)%Q.
Proof. apply Qpower_plus. discriminate. Qed.

Lemma pow2_sub (a b : Z) : (pow2 (a - b) == pow2 a / pow2 b)%Q.
Proof. apply Qpower_minus. discriminate. Qed.

Lemma pow2_succ (e : Z) : (pow2 (e + 1) == 2 * pow2 e)%Q.
Proof. rewrite pow2_add. change (pow2 1) with 2%Q. ring. Qed.

Lemma pow2_le (a b : Z) : a <= b -> (pow2 a <= pow2 b)%Q.
Proof. intros H. apply Qpower_le_compat_l; [exact H | discriminate]. Qed.

Lemma pow2_lt (a b : Z) : a < b -> (pow2 a < pow2 b)%Q.
Proof. intros H. apply Qpower_lt_compat_l; [exact H | reflexivity]. Qed.

Lemma pow2_inject (e : Z) : 0 <= e -> (pow2 e == inject_Z (2 ^ e))%Q.
Proof. intros H. unfold pow2. now rewrite Zpower_Qpower. Qed.

Lemma Qmake_div (n : Z) (d : positive) : (n # d == inject_Z n / inject_Z (Zpos d))%Q.
Proof. apply Qmake_Qdiv. Qed.

Lemma ilog2_spec (x : Q) :
  (0 < x)%Q -> (pow2 (ilog2 x) <= x)%Q /\ (x < pow2 (ilog2 x + 1))%Q.
Proof.
  intros Hx. destruct x as [n d]. unfold ilog2. cbn [Qnum Qden].
  assert (Hn : 0 < n) by (unfold Qlt in Hx; cbn in Hx; lia).
  set (a := Z.log2 n). set (b := Z.log2 (Zpos d)).
  assert (Ha : 2 ^ a <= n < 2 ^ (a + 1))
    by (unfold a; pose proof (Z.log2_spec n Hn); lia).
  assert (Hb : 2 ^ b <= Zpos d < 2 ^ (b + 1))
    by (unfold b; pose proof (Z.log2_spec (Zpos d) ltac:(lia)); lia).
  assert (Ha0 : 0 <= a) by apply Z.log2_nonneg.
  assert (Hb0 : 0 <= b) by apply Z.log2_nonneg.
  assert (Hd : (0 < inject_Z (Zpos d))%Q) by reflexivity.
  assert (Ex : (n # d == inject_Z n / inject_Z (Zpos d))%Q) by apply Qmake_Qdiv.
  assert (Lo : (pow2 (a - b - 1) <= n # d)%Q).
  { rewrite Ex. replace (a - b - 1) with (a - (b + 1)) by lia.
    rewrite pow2_sub. rewrite !pow2_inject by lia.
    apply Qle_shift_div_l; [exact Hd |].
    assert (H2 : (0 < inject_Z (2 ^ (b + 1)))%Q)
      by (rewrite <- pow2_inject by lia; apply pow2_pos).
    unfold Qdiv. rewrite <- Qmult_assoc, (Qmult_comm (/ _)), Qmult_assoc.
    apply Qle_shift_div_r; [exact H2 |].
    rewrite <- !inject_Z_mult, <- Zle_Qle. nia. }
  assert (Hi : (n # d < pow2 (a - b + 1))%Q).
  { rewrite Ex. replace (a - b + 1) with (a + 1 - b) by lia.
    rewrite pow2_sub. rewrite !pow2_inject by lia.
    assert (H2 : (0 < inject_Z (2 ^ b))%Q)
      by (rewrite <- pow2_inject by lia; apply pow2_pos).
    apply Qlt_shift_div_r; [exact Hd |].
    unfold Qdiv. rewrite <- Qmult_assoc, (Qmult_comm (/ _)), Qmult_assoc.
    apply Qlt_shift_div_l; [exact H2 |].
    rewrite <- !inject_Z_mult, <- Zlt_Qlt. nia. }
  destruct (Qle_bool (pow2 (a - b)) (n # d)) eqn:E.
  - apply Qle_bool_iff in E. split; [exact E | exact Hi].
  - split; [exact Lo |].
    replace (a - b - 1 + 1) with (a - b) by lia.
    apply Qnot_le_lt. intros H. apply Qle_bool_iff in H. congruence.
Qed.

Lemma ilog2_mono (x y : Q) : (0 < x)%Q -> (x <= y)%Q -> ilog2 x <= ilog2 y.
Proof.
  intros Hx Hxy.
  destruct (ilog2_spec x Hx) as [Lx _].
  destruct (ilog2_spec y ltac:(lra)) as [_ Uy].
  destruct (Z_le_gt_dec (ilog2 x) (ilog2 y)) as [H | H]; [exact H | exfalso].
  assert (pow2 (ilog2 y + 1) <= pow2 (ilog2 x))%Q by (apply pow2_le; lia).
  lra.
Qed.

Lemma ilog2_unique (x : Q) (e : Z) :
  (pow2 e <= x)%Q -> (x < pow2 (e + 1))%Q -> ilog2 x = e.
Proof.
  intros L U.
  assert (Hx : (0 < x)%Q) by (pose proof (pow2_pos e); lra).
  destruct (ilog2_spec x Hx) as [L' U'].
  destruct (Z.lt_trichotomy (ilog2 x) e) as [H | [H | H]]; [exfalso | exact H | exfalso].
  - assert (pow2 (ilog2 x + 1) <= pow2 e)%Q by (apply pow2_le; lia). lra.
  - assert (pow2 (e + 1) <= pow2 (ilog2 x))%Q by (apply pow2_le; lia). lra.
Qed.

(** *** Rounding to the nearest integer, ties to even *)

Lemma rne_cases (x : Q) :
  let f := Qfloor x in
  (rne x = f /\ (x - inject_Z f <= 1 # 2)%Q)
  \/ (rne x = f + 1 /\ (1 # 2 <= x - inject_Z f)%Q).
Proof.
  cbv zeta. unfold rne.
  destruct (Qcompare_spec (x - inject_Z (Qfloor x)) (1 # 2)) as [E | L | G].
  - destruct (Z.even (Qfloor x)); [left | right]; split; try reflexivity; lra.
  - left. split; [reflexivity | lra].
  - right. split; [reflexivity | lra].
Qed.

Lemma rne_error (x : Q) :
  (inject_Z (rne x) - x <= 1 # 2)%Q /\ (x - inject_Z (rne x) <= 1 # 2)%Q.
Proof.
  pose proof (Qfloor_le x) as Hle. pose proof (Qlt_floor x) as Hlt.
  rewrite inject_Z_plus in Hlt. change (inject_Z 1) with 1%Q in Hlt.
  destruct (rne_cases x) as [[-> H] | [-> H]].
  - split; lra.
  - rewrite inject_Z_plus. change (inject_Z 1) with 1%Q. split; lra.
Qed.

Lemma Qfloor_inject (z : Z) : Qfloor (inject_Z z) = z.
Proof. apply Qfloor_Z. Qed.

Lemma rne_inject (z : Z) : rne (inject_Z z) = z.
Proof.
  unfold rne. rewrite Qfloor_Z.
  destruct (Qcompare_spec (inject_Z z - inject_Z z) (1 # 2)) as [E | L | G];
    try reflexivity; exfalso; lra.
Qed.

#[export] Instance rne_comp : Proper (Qeq ==> eq) rne.
Proof.
  intros x y E. unfold rne. rewrite (Qfloor_comp _ _ E).
  assert (H : ((x - inject_Z (Qfloor y) ?= 1 # 2) = (y - inject_Z (Qfloor y) ?= 1 # 2))%Q)
    by (now rewrite E).
  now rewrite H.
Qed.

Lemma rne_mono (x y : Q) : (x <= y)%Q -> rne x <= rne y.
Proof.
  intros Hxy.
  pose proof (Qfloor_resp_le _ _ Hxy) as Hf.
  pose proof (Qfloor_le x) as Hlx. pose proof (Qlt_floor x) as Hux.
  pose proof (Qfloor_le y) as Hly. pose proof (Qlt_floor y) as Huy.
  destruct (Z.eq_dec (Qfloor x) (Qfloor y)) as [E | N].
  - unfold rne. rewrite <- E.
    destruct (Qcompare_spec (x - inject_Z (Qfloor x)) (1 # 2)) as [Ex | Lx | Gx];
      destruct (Qcompare_spec (y - inject_Z (Qfloor x)) (1 # 2)) as [Ey | Ly | Gy];
      try lia; try (exfalso; lra);
      destruct (Z.even (Qfloor x)); lia.
  - destruct (rne_cases x) as [[-> _] | [-> _]];
      destruct (rne_cases y) as [[-> _] | [-> _]]; lia.
Qed.

(** *** Rounding to binary64 *)

Lemma round64_pos_eq (x : Q) :
  (round64_pos x == inject_Z (rne (x / pow2 (ulp_exp x))) * pow2 (ulp_exp x))%Q.
Proof. unfold round64_pos. apply Qred_correct. Qed.

Lemma round64_pos_error (x : Q) :
  let u := pow2 (ulp_exp x) in
  (round64_pos x - x <= u / 2)%Q /\ (x - round64_pos x <= u / 2)%Q.
Proof.
  cbv zeta. rewrite round64_pos_eq.
  set (u := pow2 (ulp_exp x)).
  assert (Hu : (0 < u)%Q) by apply pow2_pos.
  destruct (rne_error (x / u)) as [H1 H2].
  assert (E : (x == x / u * u)%Q) by (field; lra).
  set (r := inject_Z (rne (x / u))) in *.
  set (t := (x / u)%Q) in *.
  assert (A : ((r - t) * u <= (1 # 2) * u)%Q) by (apply Qmult_le_compat_r; lra).
  assert (B : ((t - r) * u <= (1 # 2) * u)%Q) by (apply Qmult_le_compat_r; lra).
  assert (C : ((r - t) * u == r * u - x)%Q) by (rewrite E; ring).
  assert (D : ((t - r) * u == x - r * u)%Q) by (rewrite E; ring).
  rewrite C in A. rewrite D in B.
  assert (Eh : (u / 2 == (1 # 2) * u)%Q) by field.
  rewrite Eh. split; assumption.
Qed.

(** The relative error is at most 2^-53, but for a gradual underflow of
    at most 2^-1075. *)
Lemma round64_pos_rel (x : Q) :
  (0 < x)%Q ->
  (round64_pos x - x <= pow2 (-53) * x + pow2 (-1075))%Q
  /\ (x - round64_pos x <= pow2 (-53) * x + pow2 (-1075))%Q.
Proof.
  intros Hx. destruct (round64_pos_error x) as [H1 H2].
  destruct (ilog2_spec x Hx) as [L _].
  assert (B : (pow2 (ulp_exp x) / 2 <= pow2 (-53) * x + pow2 (-1075))%Q).
  { unfold ulp_exp. destruct (Z.max_spec (ilog2 x) (-1022)) as [[_ ->] | [_ ->]].
    - change (-1022 - 52) with (-1075 + 1). rewrite pow2_succ.
      assert (0 <= pow2 (-53) * x)%Q
        by (apply Qmult_le_0_compat; [apply Qlt_le_weak, pow2_pos | lra]).
      field_simplify. lra.
    - replace (ilog2 x - 52) with (-53 + ilog2 x + 1) by lia.
      rewrite pow2_succ, pow2_add.
      assert (pow2 (-53) * pow2 (ilog2 x) <= pow2 (-53) * x)%Q.
      { rewrite !(Qmult_comm (pow2 (-53))).
        apply Qmult_le_compat_r; [exact L | apply Qlt_le_weak, pow2_pos]. }
      pose proof (pow2_pos (-1075)). field_simplify. lra. }
  split; lra.
Qed.

(** A multiple of its own unit in the last place is a double. *)
Lemma round64_pos_exact (x : Q) (m : Z) :
  (x == inject_Z m * pow2 (ulp_exp x))%Q -> (round64_pos x == x)%Q.
Proof.
  intros E. rewrite round64_pos_eq.
  assert (Hu : (0 < pow2 (ulp_exp x))%Q) by apply pow2_pos.
  assert (T : (x / pow2 (ulp_exp x) == inject_Z m)%Q).
  { rewrite E at 1. field. lra. }
  rewrite T, rne_inject. symmetry. exact E.
Qed.

Lemma pow2_nonneg_int (k : Z) : 0 <= k -> (pow2 k == inject_Z (2 ^ k))%Q.
Proof. apply pow2_inject. Qed.

(** [m * 2^k] with [0 < m < 2^53] and [k >= -1074] is a double. *)
Lemma round64_pos_dyadic (m k : Z) :
  0 < m < 2 ^ 53 -> -1074 <= k ->
  (round64_pos (inject_Z m * pow2 k) == inject_Z m * pow2 k)%Q.
Proof.
  intros Hm Hk. set (x := (inject_Z m * pow2 k)%Q).
  assert (Hm1 : (1 <= inject_Z m)%Q)
    by (change 1%Q with (inject_Z 1); rewrite <- Zle_Qle; lia).
  assert (Hm2 : (inject_Z m < pow2 53)%Q)
    by (rewrite pow2_inject by lia; rewrite <- Zlt_Qlt; lia).
  assert (Hx : (0 < x)%Q).
  { unfold x. apply Qmult_lt_0_compat; [lra | apply pow2_pos]. }
  destruct (ilog2_spec x Hx) as [L _].
  assert (He : ulp_exp x <= k).
  { unfold ulp_exp. destruct (Z.max_spec (ilog2 x) (-1022)) as [[_ ->] | [_ ->]];
      [lia |].
    destruct (Z_le_gt_dec (ilog2 x - 52) k) as [H | H]; [exact H | exfalso].
    assert (pow2 (k + 53) <= pow2 (ilog2 x))%Q by (apply pow2_le; lia).
    assert (x < pow2 (k + 53))%Q.
    { unfold x. rewrite Z.add_comm, pow2_add.
      apply Qmult_lt_compat_r; [apply pow2_pos | exact Hm2]. }
    lra. }
  apply (round64_pos_exact x (m * 2 ^ (k - ulp_exp x))).
  rewrite inject_Z_mult, <- pow2_inject by lia.
  rewrite <- Qmult_assoc, <- pow2_add.
  replace (k - ulp_exp x + ulp_exp x) with k by lia. reflexivity.
Qed.

Lemma ulp_exp_mono (x y : Q) : (0 < x)%Q -> (x <= y)%Q -> ulp_exp x <= ulp_exp y.
Proof.
  intros Hx Hxy. unfold ulp_exp. pose proof (ilog2_mono x y Hx Hxy). lia.
Qed.

Lemma round64_pos_mono (x y : Q) :
  (0 < x)%Q -> (x <= y)%Q -> (round64_pos x <= round64_pos y)%Q.
Proof.
  intros Hx Hxy. assert (Hy : (0 < y)%Q) by lra.
  rewrite !round64_pos_eq.
  pose proof (ulp_exp_mono x y Hx Hxy) as He.
  set (ex := ulp_exp x) in *. set (ey := ulp_exp y) in *.
  assert (Hux : (0 < pow2 ex)%Q) by apply pow2_pos.
  assert (Huy : (0 < pow2 ey)%Q) by apply pow2_pos.
  destruct (Z.eq_dec ex ey) as [E | N].
  - rewrite <- E. apply Qmult_le_compat_r; [| lra].
    rewrite <- Zle_Qle. apply rne_mono.
    unfold Qdiv. apply Qmult_le_compat_r; [exact Hxy |].
    apply Qlt_le_weak, Qinv_lt_0_compat, Hux.
  - assert (Hlt : ex < ey) by lia.
    (* the binade of [y] lies above that of [x] *)
    assert (Hey : ey = ilog2 y - 52) by (unfold ey, ex, ulp_exp in *; lia).
    destruct (ilog2_spec x Hx) as [_ Ux]. destruct (ilog2_spec y Hy) as [Ly _].
    assert (Ux' : (x <= pow2 (ex + 53))%Q).
    { apply Qlt_le_weak. eapply Qlt_le_trans; [exact Ux |].
      apply pow2_le. unfold ex, ulp_exp. lia. }
    apply Qle_trans with (pow2 (ex + 53)).
    + assert (T : (x / pow2 ex <= inject_Z (2 ^ 53))%Q).
      { apply Qle_shift_div_r; [exact Hux |].
        rewrite <- pow2_inject by lia. rewrite <- pow2_add.
        now rewrite Z.add_comm. }
      apply rne_mono in T. rewrite rne_inject in T.
      rewrite Zle_Qle in T. rewrite <- pow2_inject in T by lia.
      rewrite Z.add_comm, pow2_add.
      apply Qmult_le_compat_r; [exact T | lra].
    + apply Qle_trans with (pow2 (ey + 52)); [apply pow2_le; lia |].
      assert (T : (inject_Z (2 ^ 52) <= y / pow2 ey)%Q).
      { apply Qle_shift_div_l; [exact Huy |].
        rewrite <- pow2_inject by lia. rewrite <- pow2_add.
        rewrite Z.add_comm, Hey. replace (ilog2 y - 52 + 52) with (ilog2 y) by lia.
        exact Ly. }
      apply rne_mono in T. rewrite rne_inject in T.
      rewrite Zle_Qle in T. rewrite <- pow2_inject in T by lia.
      rewrite Z.add_comm, pow2_add.
      apply Qmult_le_compat_r; [exact T | lra].
Qed.

Lemma round64_pos_nonneg (x : Q) : (0 < x)%Q -> (0 <= round64_pos x)%Q.
Proof.
  intros Hx. rewrite round64_pos_eq.
  apply Qmult_le_0_compat; [| apply Qlt_le_weak, pow2_pos].
  change 0%Q with (inject_Z 0). rewrite <- Zle_Qle.
  rewrite <- (rne_inject 0). apply rne_mono.
  apply Qle_shift_div_l; [apply pow2_pos |].
  change (inject_Z 0) with 0%Q. lra.
Qed.

Lemma round64_of_pos (x : Q) : (0 < x)%Q -> round64 x = round64_pos x.
Proof.
  intros H. unfold round64. destruct x as [[| p | p] d]; try reflexivity;
    unfold Qlt in H; cbn in H; lia.
Qed.

Lemma round64_of_neg (x : Q) : (x < 0)%Q -> round64 x = Qred (- round64_pos (- x)).
Proof.
  intros H. unfold round64. destruct x as [[| p | p] d]; try reflexivity;
    unfold Qlt in H; cbn in H; lia.
Qed.

Lemma round64_of_zero (x : Q) : (x == 0)%Q -> round64 x = 0%Q.
Proof.
  intros H. unfold round64. destruct x as [[| p | p] d]; try reflexivity;
    unfold Qeq in H; cbn in H; lia.
Qed.

Lemma round64_pos_comp (x y : Q) :
  (0 < x)%Q -> (x == y)%Q -> round64_pos x = round64_pos y.
Proof.
  intros P E. unfold round64_pos, ulp_exp.
  assert (G : ilog2 y = ilog2 x).
  { destruct (ilog2_spec x P). apply ilog2_unique; lra. }
  rewrite G. set (k := Z.max (ilog2 x) (-1022) - 52).
  assert (T : (x / pow2 k == y / pow2 k)%Q)
    by (apply Qdiv_comp; [exact E | reflexivity]).
  now rewrite (rne_comp _ _ T).
Qed.

#[export] Instance round64_comp : Proper (Qeq ==> eq) round64.
Proof.
  intros x y E. destruct (Q_dec x 0) as [[N | P] | Zx].
  - rewrite (round64_of_neg x N), (round64_of_neg y) by lra.
    rewrite (round64_pos_comp (- x) (- y)); [reflexivity | lra | now rewrite E].
  - rewrite (round64_of_pos x P), (round64_of_pos y) by lra.
    now apply round64_pos_comp.
  - rewrite (round64_of_zero x Zx), (round64_of_zero y) by lra. reflexivity.
Qed.

Lemma round64_opp (x : Q) : (round64 (- x) == - round64 x)%Q.
Proof.
  destruct (Q_dec x 0) as [[N | P] | Zx].
  - rewrite (round64_of_neg x N), (round64_of_pos (- x)) by lra.
    rewrite Qred_correct. ring.
  - rewrite (round64_of_pos x P), (round64_of_neg (- x)) by lra.
    rewrite Qred_correct.
    assert (E : (- - x == x)%Q) by ring.
    assert (F : round64_pos (- - x) = round64_pos x).
    { unfold round64_pos, ulp_exp.
      assert (G : ilog2 (- - x) = ilog2 x).
      { destruct (ilog2_spec x P). apply ilog2_unique; lra. }
      rewrite G. apply Qred_complete. now rewrite E. }
    rewrite F. reflexivity.
  - rewrite (round64_of_zero x Zx), (round64_of_zero (- x)) by lra. reflexivity.
Qed.

Lemma round64_nonneg (x : Q) : (0 <= x)%Q -> (0 <= round64 x)%Q.
Proof.
  intros H. destruct (Qle_lt_or_eq _ _ H) as [P | Z].
  - rewrite (round64_of_pos x P). now apply round64_pos_nonneg.
  - rewrite (round64_of_zero x) by (now symmetry). apply Qle_refl.
Qed.

Lemma round64_mono (x y : Q) : (x <= y)%Q -> (round64 x <= round64 y)%Q.
Proof.
  intros Hxy.
  destruct (Qlt_le_dec 0 x) as [Px | Nx].
  - rewrite (round64_of_pos x Px), (round64_of_pos y) by lra.
    now apply round64_pos_mono.
  - destruct (Qlt_le_dec y 0) as [Ny | Py].
    + (* both negative *)
      rewrite (round64_of_neg x) by lra. rewrite (round64_of_neg y Ny).
      rewrite !Qred_correct.
      apply Qopp_le_compat. apply round64_pos_mono; lra.
    + apply Qle_trans with 0%Q; [| now apply round64_nonneg].
      assert (0 <= round64 (- x))%Q by (apply round64_nonneg; lra).
      rewrite round64_opp in H. lra.
Qed.

(** The error of a rounding, in absolute value. *)
Lemma round64_rel (x : Q) :
  (Qabs (round64 x - x) <= pow2 (-53) * Qabs x + pow2 (-1075))%Q.
Proof.
  destruct (Q_dec x 0) as [[N | P] | Zx].
  - rewrite (round64_of_neg x N), Qred_correct.
    destruct (round64_pos_rel (- x) ltac:(lra)) as [H1 H2].
    rewrite (Qabs_neg x) by lra. apply Qabs_case; intros _; lra.
  - rewrite (round64_of_pos x P).
    destruct (round64_pos_rel x P) as [H1 H2].
    rewrite (Qabs_pos x) by lra. apply Qabs_case; intros _; lra.
  - rewrite (round64_of_zero x Zx). rewrite Zx.
    change (Qabs (0 - 0)) with 0%Q. change (Qabs 0) with 0%Q.
    pose proof (pow2_pos (-1075)). lra.
Qed.

(** Integers below 2^53 in absolute value are doubles, and so are their
    halves. *)
Lemma round64_dyadic (m k : Z) :
  - 2 ^ 53 < m < 2 ^ 53 -> -1074 <= k ->
  (round64 (inject_Z m * pow2 k) == inject_Z m * pow2 k)%Q.
Proof.
  intros Hm Hk. pose proof (pow2_pos k) as Hp.
  destruct (Z.lt_trichotomy m 0) as [N | [Zm | P]].
  - assert (E : (inject_Z m * pow2 k == - (inject_Z (- m) * pow2 k))%Q)
      by (rewrite inject_Z_opp; ring).
    assert (X : (inject_Z m * pow2 k < 0)%Q).
    { rewrite E. assert (0 < inject_Z (- m) * pow2 k)%Q; [| lra].
      apply Qmult_lt_0_compat; [| exact Hp].
      change 0%Q with (inject_Z 0). rewrite <- Zlt_Qlt. lia. }
    rewrite (round64_of_neg _ X), Qred_correct.
    assert (F : round64_pos (- (inject_Z m * pow2 k))
                = round64_pos (inject_Z (- m) * pow2 k)).
    { assert (G : (- (inject_Z m * pow2 k) == inject_Z (- m) * pow2 k)%Q)
        by (rewrite inject_Z_opp; ring).
      unfold round64_pos, ulp_exp.
      assert (I : ilog2 (- (inject_Z m * pow2 k)) = ilog2 (inject_Z (- m) * pow2 k)).
      { assert (0 < inject_Z (- m) * pow2 k)%Q by lra.
        destruct (ilog2_spec (inject_Z (- m) * pow2 k)) as [A B]; [assumption |].
        apply ilog2_unique; lra. }
      rewrite I. apply Qred_complete. now rewrite G. }
    rewrite F, round64_pos_dyadic by lia. rewrite inject_Z_opp. ring.
  - subst m. rewrite round64_of_zero; [| ring]. ring.
  - assert (X : (0 < inject_Z m * pow2 k)%Q).
    { apply Qmult_lt_0_compat; [| exact Hp].
      change 0%Q with (inject_Z 0). rewrite <- Zlt_Qlt. lia. }
    rewrite (round64_of_pos _ X). apply round64_pos_dyadic; lia.
Qed.

Lemma round64_int (z : Z) :
  - 2 ^ 53 < z < 2 ^ 53 -> (round64 (inject_Z z) == inject_Z z)%Q.
Proof.
  intros H. pose proof (round64_dyadic z 0 H ltac:(lia)) as E.
  change (pow2 0) with 1%Q in E.
  assert (F : (inject_Z z * 1 == inject_Z z)%Q) by ring.
  rewrite <- (round64_comp _ _ F). now rewrite E.
Qed.

(** ** Rounding *)

Lemma Qmake_10 (z : Z) : (z # 10 == inject_Z z / 10)%Q.
Proof. unfold Qeq, Qdiv, Qmult, Qinv, inject_Z; simpl. lia. Qed.

(** The expression of line 115 is the rounding of the specification. *)
Lemma round1_Math_round (x : Q) :
  (inject_Z (Math_round (x * 10)) / 10 == round1 x)%Q.
Proof. unfold round1, Math_round. symmetry. apply Qmake_10. Qed.

#[export] Instance round1_proper : Proper (Qeq ==> Qeq) round1.
Proof.
  intros x y E. unfold round1.
  assert (H : Qfloor (x * 10 + (1 # 2)) = Qfloor (y * 10 + (1 # 2))).
  { apply Qfloor_comp. rewrite E. reflexivity. }
  rewrite H. reflexivity.
Qed.

(** [round1 x] is the multiple of one tenth nearest to [x]. *)
Lemma round1_nearest (x : Q) :
  (x - (1 # 20) < round1 x)%Q /\ (round1 x <= x + (1 # 20))%Q.
Proof.
  unfold round1. rewrite Qmake_10.
  pose proof (Qfloor_le (x * 10 + (1 # 2))) as Hle.
  pose proof (Qlt_floor (x * 10 + (1 # 2))) as Hlt.
  rewrite inject_Z_plus in Hlt.
  set (f := inject_Z (Qfloor (x * 10 + (1 # 2)))) in *.
  change (inject_Z 1) with 1%Q in Hlt.
  split.
  - apply Qlt_shift_div_l; [reflexivity | lra].
  - apply Qle_shift_div_r; [reflexivity | lra].
Qed.

Lemma round1_tenths (z : Z) : (round1 (z # 10) == z # 10)%Q.
Proof.
  unfold round1.
  assert (E : (((z # 10) * 10 + (1 # 2)) == inject_Z z + (1 # 2))%Q).
  { rewrite (Qmake_10 z). field. }
  rewrite (Qfloor_comp _ _ E).
  assert (F : Qfloor (inject_Z z + (1 # 2)) = z).
  { pose proof (Qfloor_le (inject_Z z + (1 # 2))) as Hle.
    pose proof (Qlt_floor (inject_Z z + (1 # 2))) as Hlt.
    set (f := Qfloor (inject_Z z + (1 # 2))) in *.
    assert (inject_Z f < inject_Z (z + 1))%Q
      by (rewrite inject_Z_plus; change (inject_Z 1) with 1%Q; lra).
    assert (inject_Z z < inject_Z (f + 1))%Q by lra.
    rewrite <- Zlt_Qlt in *. lia. }
  rewrite F. reflexivity.
Qed.

Lemma round1_int (z : Z) : (round1 (inject_Z z) == inject_Z z)%Q.
Proof.
  assert (E : (inject_Z z == (z * 10) # 10)%Q)
    by (unfold Qeq, inject_Z; simpl; lia).
  rewrite E at 1. rewrite round1_tenths. symmetry. exact E.
Qed.

Lemma round1_monotone (x y : Q) : (x <= y)%Q -> (round1 x <= round1 y)%Q.
Proof.
  intros H.
  assert (Qfloor (x * 10 + (1 # 2)) <= Qfloor (y * 10 + (1 # 2)))
    by (apply Qfloor_resp_le; lra).
  unfold round1, Qle; cbn [Qnum Qden]. lia.
Qed.

Lemma round1_range (x : Q) :
  (0 <= x)%Q -> (x <= 5)%Q -> (0 <= round1 x)%Q /\ (round1 x <= 5)%Q.
Proof.
  intros H0 H5. split.
  - rewrite <- (round1_int 0). now apply round1_monotone.
  - rewrite <- (round1_int 5). now apply round1_monotone.
Qed.

(** ** [Math.ceil] of a quotient *)

Lemma Math_ceil_div_spec (a b : Z) :
  0 < b -> (Math_ceil_div a b - 1) * b < a <= Math_ceil_div a b * b.
Proof.
  intros Hb. unfold Math_ceil_div.
  set (x := (inject_Z a / inject_Z b)%Q).
  assert (Hbq : (inject_Z 0 < inject_Z b)%Q) by (rewrite <- Zlt_Qlt; exact Hb).
  change (inject_Z 0) with 0%Q in Hbq.
  assert (Ex : (x * inject_Z b == inject_Z a)%Q) by (unfold x; field; lra).
  pose proof (Qle_ceiling x) as Hle.
  pose proof (Qceiling_lt x) as Hlt.
  set (c := Qceiling x) in *.
  split.
  - rewrite Zlt_Qlt, inject_Z_mult, <- Ex.
    apply Qmult_lt_compat_r; [exact Hbq | exact Hlt].
  - rewrite Zle_Qle, inject_Z_mult, <- Ex.
    apply Qmult_le_compat_r; [exact Hle | lra].
Qed.

(** ** The arithmetic of a rating *)

Lemma round64_pow2 (k : Z) : -1074 <= k -> (round64 (pow2 k) == pow2 k)%Q.
Proof.
  intros Hk. pose proof (round64_dyadic 1 k ltac:(lia) Hk) as E.
  assert (F : (inject_Z 1 * pow2 k == pow2 k)%Q) by (change (inject_Z 1) with 1%Q; ring).
  rewrite <- (round64_comp _ _ F) at 1. now rewrite E.
Qed.

(** A result of moderate size does not overflow. *)
Lemma fl_finite (x : Q) : (Qabs x <= pow2 1000)%Q -> fl x = Finite (round64 x).
Proof.
  intros H. unfold fl.
  assert (Hb : (- pow2 1000 <= x)%Q /\ (x <= pow2 1000)%Q).
  { revert H. apply Qabs_case; intros; split; lra. }
  destruct Hb as [Hlo Hhi].
  apply round64_mono in Hlo, Hhi.
  rewrite round64_opp, round64_pow2 in Hlo by lia.
  rewrite round64_pow2 in Hhi by lia.
  assert (Hlt : (pow2 1000 < pow2 1024)%Q) by (apply pow2_lt; lia).
  destruct (Qle_bool (pow2 1024) (Qabs (round64 x))) eqn:E; [exfalso | reflexivity].
  apply Qle_bool_iff in E. revert E. apply Qabs_case; intros; lra.
Qed.

Lemma fl_small (x : Q) :
  (0 <= x)%Q -> (x <= pow2 60)%Q -> fl x = Finite (round64 x).
Proof.
  intros H0 H1. apply fl_finite. rewrite Qabs_pos by exact H0.
  apply Qle_trans with (pow2 60); [exact H1 | apply pow2_le; lia].
Qed.

Lemma round64_le_int (x : Q) (z : Z) :
  - 2 ^ 53 < z < 2 ^ 53 -> (x <= inject_Z z)%Q -> (round64 x <= inject_Z z)%Q.
Proof.
  intros Hz H. apply round64_mono in H. now rewrite round64_int in H.
Qed.

Lemma round64_ge_int (x : Q) (z : Z) :
  - 2 ^ 53 < z < 2 ^ 53 -> (inject_Z z <= x)%Q -> (inject_Z z <= round64 x)%Q.
Proof.
  intros Hz H. apply round64_mono in H. now rewrite round64_int in H.
Qed.

Lemma Math_round_le (y : Q) (z : Z) : (y <= inject_Z z)%Q -> Math_round y <= z.
Proof.
  intros H. unfold Math_round.
  pose proof (Qfloor_le (y + (1 # 2))) as Hf.
  assert (inject_Z (Qfloor (y + (1 # 2))) < inject_Z (z + 1))%Q
    by (rewrite inject_Z_plus; change (inject_Z 1) with 1%Q; lra).
  rewrite <- Zlt_Qlt in *. lia.
Qed.

Lemma Math_round_ge (y : Q) (z : Z) : (inject_Z z <= y)%Q -> z <= Math_round y.
Proof.
  intros H. unfold Math_round.
  pose proof (Qlt_floor (y + (1 # 2))) as Hf.
  rewrite inject_Z_plus in Hf. change (inject_Z 1) with 1%Q in Hf.
  assert (inject_Z z < inject_Z (Qfloor (y + (1 # 2)) + 1))%Q
    by (rewrite inject_Z_plus; change (inject_Z 1) with 1%Q; lra).
  rewrite <- Zlt_Qlt in *. lia.
Qed.

Lemma Math_round_near (y : Q) :
  (inject_Z (Math_round y) - y <= 1 # 2)%Q /\ (y - inject_Z (Math_round y) < 1 # 2)%Q.
Proof.
  unfold Math_round.
  pose proof (Qfloor_le (y + (1 # 2))) as Hle.
  pose proof (Qlt_floor (y + (1 # 2))) as Hlt.
  rewrite inject_Z_plus in Hlt. change (inject_Z 1) with 1%Q in Hlt.
  split; lra.
Qed.

Lemma Math_round_int (z : Z) : Math_round (inject_Z z) = z.
Proof.
  apply Z.le_antisymm.
  - apply Math_round_le. apply Qle_refl.
  - apply Math_round_ge. apply Qle_refl.
Qed.

Lemma Math_round_comp (x y : Q) : (x == y)%Q -> Math_round x = Math_round y.
Proof. intros E. unfold Math_round. apply Qfloor_comp. now rewrite E. Qed.

Lemma dbl_succ (c : Z) :
  0 <= c < 2 ^ 50 -> (dbl (inject_Z c + 1) == inject_Z (c + 1))%Q.
Proof.
  intros Hc. unfold dbl.
  assert (E : (inject_Z c + 1 == inject_Z (c + 1))%Q)
    by (rewrite inject_Z_plus; reflexivity).
  rewrite (round64_comp _ _ E). apply round64_int. lia.
Qed.

(** The double nearest to a number between two integers lies between
    them. *)
Lemma dbl_range (r : Q) (lo : Z) :
  0 <= lo <= 5 -> (inject_Z lo <= r)%Q -> (r <= 5)%Q ->
  (inject_Z lo <= dbl r)%Q /\ (dbl r <= 5)%Q.
Proof.
  intros Hlo H1 H5. unfold dbl. split.
  - apply round64_ge_int; [lia | exact H1].
  - change 5%Q with (inject_Z 5). apply round64_le_int; [lia | exact H5].
Qed.

Section Step.

Variables (a r : Q) (c lo : Z).

Hypothesis Hc : 0 <= c < 2 ^ 50.
Hypothesis Hlo : 0 <= lo <= 5.
Hypothesis Ha_lo : (inject_Z lo * inject_Z c <= a * inject_Z c)%Q.
Hypothesis Ha_hi : (a * inject_Z c <= 5 * inject_Z c)%Q.
Hypothesis Hr : (inject_Z lo <= dbl r)%Q /\ (dbl r <= 5)%Q.

Lemma count_range : (0 <= inject_Z c)%Q /\ (inject_Z c <= inject_Z (2 ^ 50))%Q.
Proof.
  rewrite <- !Zle_Qle. change 0%Q with (inject_Z 0). rewrite <- Zle_Qle. lia.
Qed.

Lemma rate_count_eq : (rate_count c == inject_Z c + 1)%Q.
Proof.
  unfold rate_count. rewrite dbl_succ by exact Hc.
  rewrite inject_Z_plus. reflexivity.
Qed.

Lemma rate_product_range :
  (inject_Z lo * inject_Z c <= rate_product a c)%Q
  /\ (rate_product a c <= 5 * inject_Z c)%Q.
Proof.
  unfold rate_product, dbl. split.
  - rewrite <- inject_Z_mult. apply round64_ge_int; [nia |].
    rewrite inject_Z_mult. exact Ha_lo.
  - change 5%Q with (inject_Z 5). rewrite <- inject_Z_mult.
    apply round64_le_int; [nia |]. rewrite inject_Z_mult. exact Ha_hi.
Qed.

Lemma rate_sum_range :
  (inject_Z lo * (inject_Z c + 1) <= rate_sum a c r)%Q
  /\ (rate_sum a c r <= 5 * (inject_Z c + 1))%Q.
Proof.
  destruct rate_product_range as [A1 A2]. destruct Hr as [B1 B2].
  assert (E1 : (inject_Z lo * (inject_Z c + 1) == inject_Z (lo * (c + 1)))%Q)
    by (rewrite inject_Z_mult, inject_Z_plus; reflexivity).
  assert (E2 : (5 * (inject_Z c + 1) == inject_Z (5 * (c + 1)))%Q)
    by (rewrite inject_Z_mult, inject_Z_plus; reflexivity).
  unfold rate_sum, dbl in *. split.
  - rewrite E1. apply round64_ge_int; [nia |]. rewrite <- E1. lra.
  - rewrite E2. apply round64_le_int; [nia |]. rewrite <- E2. lra.
Qed.

Lemma rate_quotient_range :
  (inject_Z lo <= rate_quotient a c r)%Q /\ (rate_quotient a c r <= 5)%Q.
Proof.
  destruct rate_sum_range as [A1 A2]. destruct count_range as [C0 _].
  pose proof rate_count_eq as En.
  assert (Hn : (0 < rate_count c)%Q) by lra.
  unfold rate_quotient, dbl. split.
  - apply round64_ge_int; [lia |]. apply Qle_shift_div_l; [exact Hn |].
    rewrite En. exact A1.
  - change 5%Q with (inject_Z 5). apply round64_le_int; [lia |].
    apply Qle_shift_div_r; [exact Hn |]. rewrite En. exact A2.
Qed.

Lemma rate_tenths_range : lo * 10 <= rate_tenths a c r <= 50.
Proof.
  destruct rate_quotient_range as [A1 A2]. unfold rate_tenths. split.
  - apply Math_round_ge. apply round64_ge_int; [lia |]. rewrite inject_Z_mult.
    change (inject_Z 10) with 10%Q. lra.
  - apply Math_round_le. apply round64_le_int; [lia |].
    change (inject_Z 50) with 50%Q. lra.
Qed.

(** The new rating lies between the bounds that hold of the old rating
    and of the rating sent. *)
Lemma running_range :
  (inject_Z lo <= fst (running (a, c) r))%Q /\ (fst (running (a, c) r) <= 5)%Q.
Proof.
  destruct rate_tenths_range as [A1 A2].
  rewrite Zle_Qle in A1, A2. rewrite inject_Z_mult in A1.
  change (inject_Z 10) with 10%Q in A1. change (inject_Z 50) with 50%Q in A2.
  unfold running, dbl. cbn [fst snd]. split.
  - apply round64_ge_int; [lia |]. apply Qle_shift_div_l; [reflexivity | lra].
  - change 5%Q with (inject_Z 5). apply round64_le_int; [lia |].
    apply Qle_shift_div_r; [reflexivity |]. change (inject_Z 5) with 5%Q. lra.
Qed.

Lemma running_count_succ : snd (running (a, c) r) = c + 1.
Proof.
  unfold running. cbn [snd].
  rewrite (Qfloor_comp _ _ rate_count_eq). rewrite <- (Qfloor_Z (c + 1)).
  apply Qfloor_comp. rewrite inject_Z_plus. reflexivity.
Qed.

End Step.

Lemma count_bounds (c : Z) :
  0 <= c < 2 ^ 50 -> (0 <= inject_Z c)%Q /\ (inject_Z c <= 1125899906842624)%Q.
Proof.
  intros H. change 0%Q with (inject_Z 0).
  change 1125899906842624%Q with (inject_Z (2 ^ 50)).
  rewrite <- !Zle_Qle. lia.
Qed.

Lemma pow2_60 : (pow2 60 == 1152921504606846976)%Q.
Proof. reflexivity. Qed.

Lemma is_zero_false (x : Q) : (0 < x)%Q -> is_zero x = false.
Proof.
  intros H. unfold is_zero. apply Z.eqb_neq. unfold Qlt in H. cbn in H. lia.
Qed.

(** Lines 112-116 for a rating sent as a number that the validator lets
    through, on a book whose rating times its count lies within the bounds
    of the schema: no operation overflows, and the document is the one
    [running] gives. *)
Lemma rate_update_valid (b : Book) (r : Q) (lo : Z) :
  0 <= ratingCount b < 2 ^ 50 ->
  0 <= lo <= 5 ->
  (inject_Z lo * inject_Z (ratingCount b)
   <= rating b * inject_Z (ratingCount b))%Q ->
  (rating b * inject_Z (ratingCount b) <= 5 * inject_Z (ratingCount b))%Q ->
  fl r = Finite (dbl r) ->
  (inject_Z lo <= dbl r)%Q -> (dbl r <= 5)%Q ->
  rate_update b (JNumber r)
  = Some (set_rating b (fst (running (rating b, ratingCount b) r))
                     (ratingCount b + 1)).
Proof.
  intros Hc Hlo Ha_lo Ha_hi Hfl Hr1 Hr5.
  set (a := rating b) in *. set (c := ratingCount b) in *.
  destruct (count_bounds c Hc) as [C0 C1].
  assert (Hr : (inject_Z lo <= dbl r)%Q /\ (dbl r <= 5)%Q) by (split; assumption).
  assert (L0 : (0 <= inject_Z lo)%Q)
    by (change 0%Q with (inject_Z 0); rewrite <- Zle_Qle; lia).
  assert (Hlc : (0 <= inject_Z lo * inject_Z c)%Q)
    by (apply Qmult_le_0_compat; assumption).
  pose proof (rate_count_eq c Hc) as En.
  destruct (rate_product_range a c lo Hc Hlo Ha_lo Ha_hi) as [P1 P2].
  destruct (rate_sum_range a r c lo Hc Hlo Ha_lo Ha_hi Hr) as [T1 T2].
  destruct (rate_quotient_range a r c lo Hc Hlo Ha_lo Ha_hi Hr) as [Q1 Q2].
  destruct (rate_tenths_range a r c lo Hc Hlo Ha_lo Ha_hi Hr) as [K1 K2].
  assert (Hl1 : (0 <= inject_Z lo * (inject_Z c + 1))%Q)
    by (apply Qmult_le_0_compat; [assumption | lra]).
  pose proof pow2_60 as E60.
  unfold rate_update. fold a c.
  unfold add64 at 1.
  rewrite (fl_small (inject_Z c + 1)) by lra.
  change (round64 (inject_Z c + 1)) with (rate_count c).
  unfold mul64 at 2.
  rewrite (fl_small (a * inject_Z c)) by lra.
  change (round64 (a * inject_Z c)) with (rate_product a c).
  cbn [js_plus ToNumber].
  rewrite Hfl.
  unfold add64.
  rewrite (fl_small (rate_product a c + dbl r)) by lra.
  change (round64 (rate_product a c + dbl r)) with (rate_sum a c r).
  assert (Hn : (0 < rate_count c)%Q) by lra.
  unfold div64 at 2. rewrite (is_zero_false _ Hn).
  assert (Hq : (0 <= rate_sum a c r / rate_count c)%Q
               /\ (rate_sum a c r / rate_count c <= 5)%Q).
  { split.
    - apply Qle_shift_div_l; [exact Hn | lra].
    - apply Qle_shift_div_r; [exact Hn | lra]. }
  rewrite (fl_small (rate_sum a c r / rate_count c)) by lra.
  change (round64 (rate_sum a c r / rate_count c)) with (rate_quotient a c r).
  unfold mul64.
  rewrite (fl_small (rate_quotient a c r * 10)) by lra.
  cbn [Math_round64].
  change (Math_round (round64 (rate_quotient a c r * 10)))
    with (rate_tenths a c r).
  unfold div64. rewrite (is_zero_false 10) by reflexivity.
  assert (Hk : (0 <= inject_Z (rate_tenths a c r) / 10)%Q
               /\ (inject_Z (rate_tenths a c r) / 10 <= 5)%Q).
  { assert (K0 : 0 <= rate_tenths a c r) by lia.
    rewrite Zle_Qle in K0, K2. change (inject_Z 0) with 0%Q in K0.
    change (inject_Z 50) with 50%Q in K2. split.
    - apply Qle_shift_div_l; [reflexivity | lra].
    - apply Qle_shift_div_r; [reflexivity | lra]. }
  rewrite (fl_small (inject_Z (rate_tenths a c r) / 10)) by lra.
  rewrite (fl_small (inject_Z c + 1)) by lra.
  f_equal. f_equal.
  change (Qfloor (round64 (inject_Z c + 1))) with (snd (running (a, c) r)).
  now apply running_count_succ.
Qed.

Lemma in_range_products (a : Q) (c : Z) :
  (0 <= a)%Q -> (a <= 5)%Q -> 0 <= c < 2 ^ 50 ->
  (inject_Z 0 * inject_Z c <= a * inject_Z c)%Q
  /\ (a * inject_Z c <= 5 * inject_Z c)%Q.
Proof.
  intros Ha0 Ha5 Hc. destruct (count_bounds c Hc) as [C0 _]. split.
  - change (inject_Z 0) with 0%Q.
    assert (0 <= a * inject_Z c)%Q by (apply Qmult_le_0_compat; assumption). lra.
  - apply Qmult_le_compat_r; assumption.
Qed.

Lemma rate_update_number (b : Book) (r : Q) :
  rating_in_range b ->
  0 <= ratingCount b < 2 ^ 50 ->
  (0 <= r)%Q -> (r <= 5)%Q ->
  rate_update b (JNumber r)
  = Some (set_rating b (fst (running (rating b, ratingCount b) r))
                     (ratingCount b + 1)).
Proof.
  intros [Ha0 Ha5] Hc Hr0 Hr5.
  destruct (in_range_products _ _ Ha0 Ha5 Hc) as [Ha_lo Ha_hi].
  destruct (dbl_range r 0 ltac:(lia) Hr0 Hr5) as [D0 D5].
  apply (rate_update_valid b r 0); try assumption; try lia.
  apply fl_small; [exact Hr0 |]. rewrite pow2_60. lra.
Qed.

Lemma round64_error (x B : Q) :
  (0 <= x)%Q -> (x <= B)%Q ->
  (round64 x - x <= pow2 (-53) * B + pow2 (-1075))%Q
  /\ (x - round64 x <= pow2 (-53) * B + pow2 (-1075))%Q.
Proof.
  intros H0 HB. pose proof (round64_rel x) as H.
  rewrite (Qabs_pos x) in H by exact H0.
  assert (Hu : (pow2 (-53) * x <= pow2 (-53) * B)%Q).
  { rewrite !(Qmult_comm (pow2 (-53))).
    apply Qmult_le_compat_r; [exact HB | apply Qlt_le_weak, pow2_pos]. }
  revert H. apply Qabs_case; intros; split; lra.
Qed.

(** The double-precision value of [newRating * 10] is within 2^-45 of the
    exact one. *)
Lemma rate_tenths_error (a r : Q) (c : Z) :
  (0 <= a)%Q -> (a <= 5)%Q -> 0 <= c < 2 ^ 50 -> (0 <= r)%Q -> (r <= 5)%Q ->
  let X := ((a * inject_Z c + r) / (inject_Z c + 1))%Q in
  (0 <= X)%Q /\ (X <= 5)%Q
  /\ (dbl (rate_quotient a c r * 10) - X * 10 <= pow2 (-45))%Q
  /\ (X * 10 - dbl (rate_quotient a c r * 10) <= pow2 (-45))%Q.
Proof.
  intros Ha0 Ha5 Hc Hr0 Hr5 X.
  destruct (count_bounds c Hc) as [C0 C1].
  assert (Ha_lo : (inject_Z 0 * inject_Z c <= a * inject_Z c)%Q).
  { change (inject_Z 0) with 0%Q.
    assert (0 <= a * inject_Z c)%Q by (apply Qmult_le_0_compat; assumption). lra. }
  assert (Ha_hi : (a * inject_Z c <= 5 * inject_Z c)%Q)
    by (apply Qmult_le_compat_r; assumption).
  assert (Hlo : 0 <= 0 <= 5) by lia.
  pose proof (dbl_range r 0 Hlo Hr0 Hr5) as Hr.
  pose proof (rate_count_eq c Hc) as En.
  destruct (rate_product_range a c 0 Hc Hlo Ha_lo Ha_hi) as [P1 P2].
  destruct (rate_sum_range a r c 0 Hc Hlo Ha_lo Ha_hi Hr) as [T1 T2].
  destruct (rate_quotient_range a r c 0 Hc Hlo Ha_lo Ha_hi Hr) as [Q1 Q2].
  change (inject_Z 0) with 0%Q in *.
  set (C := inject_Z c) in *. set (P := (a * C)%Q) in *.
  assert (HP0 : (0 <= P)%Q) by lra.
  (* the four roundings *)
  destruct (round64_error P (5 * C)%Q HP0 Ha_hi) as [E1a E1b].
  fold (dbl P) in E1a, E1b. change (dbl P) with (rate_product a c) in E1a, E1b.
  destruct (round64_error r 5 Hr0 Hr5) as [E0a E0b]. fold (dbl r) in E0a, E0b.
  destruct Hr as [S1 S2].
  destruct (round64_error (rate_product a c + dbl r) (5 * C + 5)%Q
              ltac:(lra) ltac:(lra)) as [E2a E2b].
  fold (dbl (rate_product a c + dbl r)) in E2a, E2b.
  change (dbl (rate_product a c + dbl r)) with (rate_sum a c r) in E2a, E2b.
  assert (Hn : (0 < rate_count c)%Q) by lra.
  set (W := (rate_sum a c r / rate_count c)%Q).
  assert (HW : (0 <= W)%Q /\ (W <= 5)%Q).
  { unfold W. split.
    - apply Qle_shift_div_l; [exact Hn | lra].
    - apply Qle_shift_div_r; [exact Hn | lra]. }
  destruct HW as [W0 W5].
  destruct (round64_error W 5 W0 W5) as [E3a E3b].
  fold (dbl W) in E3a, E3b. change (dbl W) with (rate_quotient a c r) in E3a, E3b.
  destruct (round64_error (rate_quotient a c r * 10) 50 ltac:(lra) ltac:(lra))
    as [E4a E4b].
  fold (dbl (rate_quotient a c r * 10)) in E4a, E4b.
  (* the exact quotient *)
  assert (HX : (0 <= X)%Q /\ (X <= 5)%Q).
  { unfold X. fold C P. split.
    - apply Qle_shift_div_l; lra.
    - apply Qle_shift_div_r; lra. }
  set (u := pow2 (-53)) in *. set (eta := pow2 (-1075)) in *.
  assert (Hu : (0 < u)%Q) by apply pow2_pos.
  assert (Heta : (0 < eta)%Q) by apply pow2_pos.
  assert (D : (W - X <= 10 * u + 3 * eta)%Q /\ (X - W <= 10 * u + 3 * eta)%Q).
  { assert (EW : (W - X == (rate_sum a c r - (P + r)) / (C + 1))%Q).
    { unfold W, X. fold C P. rewrite En. field. lra. }
    assert (EX : (X - W == ((P + r) - rate_sum a c r) / (C + 1))%Q).
    { unfold W, X. fold C P. rewrite En. field. lra. }
    assert (HeC : (0 <= eta * C)%Q)
      by (apply Qmult_le_0_compat; [apply Qlt_le_weak, Heta | exact C0]).
    rewrite EW, EX. split; apply Qle_shift_div_r; lra. }
  destruct D as [D1 D2].
  assert (Hsmall : (200 * u + 41 * eta <= pow2 (-45))%Q).
  { unfold u, eta. apply Qle_bool_iff. vm_compute. reflexivity. }
  split; [apply HX |]. split; [apply HX |]. split; lra.
Qed.

Lemma Math_round_bounds (y : Q) :
  (inject_Z (Math_round y) <= y + (1 # 2))%Q
  /\ (y + (1 # 2) < inject_Z (Math_round y) + 1)%Q.
Proof.
  unfold Math_round. split.
  - apply Qfloor_le.
  - pose proof (Qlt_floor (y + (1 # 2))) as H.
    rewrite inject_Z_plus in H. exact H.
Qed.

(** One accepted rating moves the stored value to within a twentieth, and
    the rounding error of the doubles, of the exact new mean. *)
Lemma running_close (a r : Q) (c : Z) :
  (0 <= a)%Q -> (a <= 5)%Q -> 0 <= c < 2 ^ 50 -> (0 <= r)%Q -> (r <= 5)%Q ->
  let X := ((a * inject_Z c + r) / (inject_Z c + 1))%Q in
  (Qabs (fst (running (a, c) r) - X) <= (1 # 20) + pow2 (-46))%Q.
Proof.
  intros Ha0 Ha5 Hc Hr0 Hr5 X.
  destruct (rate_tenths_error a r c Ha0 Ha5 Hc Hr0 Hr5) as (X0 & X5 & Y1 & Y2).
  fold X in X0, X5, Y1, Y2.
  cbn [running fst snd]. unfold rate_tenths.
  set (y := dbl (rate_quotient a c r * 10)) in *.
  destruct (Math_round_bounds y) as [K1 K2].
  set (k := inject_Z (Math_round y)) in *.
  assert (P45 : (pow2 (-45) <= 1 # 2)%Q) by (apply Qle_bool_iff; vm_compute; reflexivity).
  assert (Hk0 : (0 <= k / 10)%Q).
  { assert (0 <= Math_round y).
    { unfold Math_round. apply Qfloor_resp_le with (x := 0%Q). lra. }
    assert (0 <= k)%Q
      by (unfold k; change 0%Q with (inject_Z 0); rewrite <- Zle_Qle; assumption).
    apply Qle_shift_div_l; lra. }
  assert (Hk5 : (k / 10 <= 6)%Q) by (apply Qle_shift_div_r; lra).
  destruct (round64_error (k / 10) 6 Hk0 Hk5) as [E1 E2].
  fold (dbl (k / 10)) in E1, E2.
  assert (Ek : (k / 10 == (1 # 10) * k)%Q) by field.
  assert (Hsmall : ((1 # 10) * pow2 (-45) + (pow2 (-53) * 6 + pow2 (-1075))
                    <= pow2 (-46))%Q)
    by (apply Qle_bool_iff; vm_compute; reflexivity).
  set (R := dbl (k / 10)) in *.
  assert (E1' : (R - (1 # 10) * k <= pow2 (-53) * 6 + pow2 (-1075))%Q)
    by (rewrite <- Ek; exact E1).
  assert (E2' : ((1 # 10) * k - R <= pow2 (-53) * 6 + pow2 (-1075))%Q)
    by (rewrite <- Ek; exact E2).
  apply Qabs_Qle_condition. split; lra.
Qed.

(** Two numbers closer to each other than either is to a tie round to the
    same integer. *)
Lemma Math_round_clear (x y d eps : Q) :
  (x - y <= d)%Q -> (y - x <= d)%Q -> (d < eps)%Q ->
  (forall j : Z, (eps <= Qabs (y - (inject_Z j + (1 # 2))))%Q) ->
  Math_round x = Math_round y.
Proof.
  intros D1 D2 Hd Hclear.
  destruct (Math_round_bounds x) as [K1 K2].
  destruct (Math_round_bounds y) as [L1 L2].
  destruct (Z.lt_trichotomy (Math_round x) (Math_round y)) as [Lt | [Eq | Gt]].
  - exfalso. specialize (Hclear (Math_round y - 1)).
    assert (Hz : (inject_Z (Math_round x) + 1 <= inject_Z (Math_round y))%Q).
    { rewrite <- (inject_Z_plus _ 1), <- Zle_Qle. lia. }
    unfold Z.sub in Hclear. rewrite inject_Z_plus in Hclear.
    change (inject_Z (- (1))) with (- (1))%Q in Hclear.
    revert Hclear. apply Qabs_case; intros; lra.
  - exact Eq.
  - exfalso. specialize (Hclear (Math_round x - 1)).
    assert (Hz : (inject_Z (Math_round y) + 1 <= inject_Z (Math_round x))%Q).
    { rewrite <- (inject_Z_plus _ 1), <- Zle_Qle. lia. }
    unfold Z.sub in Hclear. rewrite inject_Z_plus in Hclear.
    change (inject_Z (- (1))) with (- (1))%Q in Hclear.
    revert Hclear. apply Qabs_case; intros; lra.
Qed.

Lemma clear_of_ties_near (x y d eps eps' : Q) :
  (x * 10 - y * 10 <= d)%Q -> (y * 10 - x * 10 <= d)%Q -> (eps' + d <= eps)%Q ->
  clear_of_ties y eps -> clear_of_ties x eps'.
Proof.
  intros D1 D2 He Hy j. specialize (Hy j). revert Hy.
  apply Qabs_case; apply Qabs_case; intros; lra.
Qed.

Lemma round1_near (x y d eps : Q) :
  (x * 10 - y * 10 <= d)%Q -> (y * 10 - x * 10 <= d)%Q -> (d < eps)%Q ->
  clear_of_ties y eps -> round1 x = round1 y.
Proof.
  intros D1 D2 Hd Hy. unfold round1.
  change (Qfloor (x * 10 + (1 # 2))) with (Math_round (x * 10)).
  change (Qfloor (y * 10 + (1 # 2))) with (Math_round (y * 10)).
  now rewrite (Math_round_clear (x * 10) (y * 10) d eps D1 D2 Hd Hy).
Qed.

(** Away from the ties of the rounding to one decimal, the stored value is
    the double nearest to the exact mean rounded to one decimal. *)
Lemma running_clear (a r : Q) (c : Z) :
  (0 <= a)%Q -> (a <= 5)%Q -> 0 <= c < 2 ^ 50 -> (0 <= r)%Q -> (r <= 5)%Q ->
  let X := ((a * inject_Z c + r) / (inject_Z c + 1))%Q in
  clear_of_ties X (pow2 (-44)) ->
  fst (running (a, c) r) = dbl (round1 X).
Proof.
  intros Ha0 Ha5 Hc Hr0 Hr5 X Hclear.
  destruct (rate_tenths_error a r c Ha0 Ha5 Hc Hr0 Hr5) as (X0 & X5 & Y1 & Y2).
  fold X in X0, X5, Y1, Y2.
  cbn [running fst snd]. unfold rate_tenths, round1.
  set (y := dbl (rate_quotient a c r * 10)) in *.
  assert (P : (pow2 (-45) < pow2 (-44))%Q) by (apply pow2_lt; lia).
  change (Qfloor (X * 10 + (1 # 2))) with (Math_round (X * 10)).
  rewrite (Math_round_clear y (X * 10) (pow2 (-45)) (pow2 (-44)) Y1 Y2 P Hclear).
  unfold dbl. apply round64_comp. symmetry. apply Qmake_div.
Qed.

Lemma near_dbl (m : Q) : (0 <= m)%Q -> (m <= 5)%Q -> near (dbl m) m.
Proof. intros H0 H5. apply round64_error; assumption. Qed.

Lemma near_comp (a m m' : Q) : (m == m')%Q -> near a m -> near a m'.
Proof. intros E [H1 H2]. unfold near. rewrite <- E. split; assumption. Qed.

(** The same against the mean [m] of the ratings so far, when the stored
    value [a] is the double nearest to it. *)
Lemma running_mean_step (a m r : Q) (c : Z) :
  (0 <= a)%Q -> (a <= 5)%Q -> 0 <= c < 2 ^ 50 -> (0 <= r)%Q -> (r <= 5)%Q ->
  near a m ->
  let M := ((m * inject_Z c + r) / (inject_Z c + 1))%Q in
  clear_of_ties M (pow2 (-43)) ->
  fst (running (a, c) r) = dbl (round1 M).
Proof.
  intros Ha0 Ha5 Hc Hr0 Hr5 [N1 N2] M Hclear.
  destruct (count_bounds c Hc) as [C0 C1].
  set (X := ((a * inject_Z c + r) / (inject_Z c + 1))%Q).
  set (d := (pow2 (-53) * 5 + pow2 (-1075))%Q) in *.
  assert (Hd0 : (0 <= d)%Q).
  { unfold d. pose proof (pow2_pos (-53)). pose proof (pow2_pos (-1075)). lra. }
  assert (D : (X - M <= d)%Q /\ (M - X <= d)%Q).
  { set (C := inject_Z c) in *.
    assert (E1 : (X - M == ((a - m) * C) / (C + 1))%Q)
      by (unfold X, M; fold C; field; lra).
    assert (E2 : (M - X == ((m - a) * C) / (C + 1))%Q)
      by (unfold X, M; fold C; field; lra).
    assert (HdC : (0 <= d * C)%Q) by (apply Qmult_le_0_compat; assumption).
    assert (B1 : ((a - m) * C <= d * C)%Q) by (apply Qmult_le_compat_r; assumption).
    assert (B2 : ((m - a) * C <= d * C)%Q) by (apply Qmult_le_compat_r; assumption).
    rewrite E1, E2. split; apply Qle_shift_div_r; lra. }
  destruct D as [D1 D2].
  assert (Hs1 : (pow2 (-44) + 10 * d <= pow2 (-43))%Q)
    by (apply Qle_bool_iff; vm_compute; reflexivity).
  assert (Hs2 : (10 * d < pow2 (-43))%Q).
  { pose proof (pow2_pos (-44)). lra. }
  rewrite (running_clear a r c Ha0 Ha5 Hc Hr0 Hr5).
  - fold X. f_equal.
    apply (round1_near X M (10 * d) (pow2 (-43))); try assumption; lra.
  - fold X.
    apply (clear_of_ties_near X M (10 * d) (pow2 (-43)) (pow2 (-44)));
      try assumption; lra.
Qed.

(** A number of one decimal is half a unit away from every tie. *)
Lemma one_decimal_clear (x : Q) : one_decimal x -> clear_of_ties x (1 # 2).
Proof.
  unfold one_decimal, round1. intros E j.
  set (z := Qfloor (x * 10 + (1 # 2))) in *.
  assert (Ex : (x * 10 == inject_Z z)%Q).
  { rewrite <- E at 1. rewrite Qmake_div. change (inject_Z 10) with 10%Q. field. }
  rewrite Ex.
  destruct (Z_lt_le_dec j z) as [Hlt | Hle].
  - assert (H : (inject_Z j + 1 <= inject_Z z)%Q)
      by (rewrite <- (inject_Z_plus _ 1), <- Zle_Qle; lia).
    apply Qabs_case; intros; lra.
  - rewrite Zle_Qle in Hle. apply Qabs_case; intros; lra.
Qed.

Lemma clear_of_ties_weaken (x eps eps' : Q) :
  (eps' <= eps)%Q -> clear_of_ties x eps -> clear_of_ties x eps'.
Proof. intros He H j. specialize (H j). lra. Qed.

(** *** The validators on a JSON number *)

Lemma rating_ok_iff (r : Q) : rating_ok r = true <-> (0 <= r)%Q /\ (r <= 5)%Q.
Proof.
  unfold rating_ok. rewrite andb_true_iff, !Qle_bool_iff. reflexivity.
Qed.

Lemma rating_valid_number (r : Q) : valid_rating r -> rating_valid (JNumber r) = true.
Proof.
  intros [H1 H5]. unfold rating_valid, field_isFloat, value_isFloat.
  cbn [forallb]. rewrite fl_small; [| lra | rewrite pow2_60; lra].
  cbn [le64]. rewrite andb_true_r, andb_true_iff, !Qle_bool_iff. split.
  - change 1%Q with (inject_Z 1). apply round64_ge_int; [lia | exact H1].
  - change 5%Q with (inject_Z 5). apply round64_le_int; [lia | exact H5].
Qed.

Lemma schema_ok_rating (b : Book) : schema_ok b = true -> rating_in_range b.
Proof.
  unfold schema_ok. rewrite !andb_true_iff. intros [_ H].
  now apply rating_ok_iff.
Qed.

Lemma schema_ok_set_rating (b : Book) (r : Q) (c : Z) :
  schema_ok b = true -> rating_ok r = true ->
  schema_ok (set_rating b r c) = true.
Proof.
  unfold schema_ok; cbn [set_rating title author description genre pages rating].
  rewrite !andb_true_iff. intros [H _] Hr. split; assumption.
Qed.

Lemma running_in_range (a r : Q) (c : Z) :
  (0 <= a)%Q -> (a <= 5)%Q -> 0 <= c < 2 ^ 50 -> (0 <= r)%Q -> (r <= 5)%Q ->
  (0 <= fst (running (a, c) r))%Q /\ (fst (running (a, c) r) <= 5)%Q.
Proof.
  intros Ha0 Ha5 Hc Hr0 Hr5.
  destruct (count_bounds c Hc) as [C0 C1].
  destruct (in_range_products _ _ Ha0 Ha5 Hc) as [Ha_lo Ha_hi].
  apply (running_range a r c 0 Hc); [lia | assumption | assumption |].
  now apply dbl_range.
Qed.


(** ** The rating handler *)

Section Rating.

Context {P : Platform}.

Lemma protect_with_books (authorization : option string) (db : Db)
  (bs : gmap N Book) :
  protect authorization (with_books db bs) = protect authorization db.
Proof. reflexivity. Qed.

(** An authenticated rating sent as a JSON number in 1..5 to a book whose
    rating lies in 0..5: the request reaches [save] with the pair that
    [running] computes, and what it answers is decided by the schema. *)
Lemma recordRating_number
  (authorization : option string) (id : N) (r : Q) (db : Db) (b : Book) :
  authenticated authorization db ->
  books db !! id = Some b ->
  valid_rating r ->
  rating_in_range b ->
  0 <= ratingCount b < 2 ^ 50 ->
  let R := fst (running (rating b, ratingCount b) r) in
  let doc := set_rating b R (ratingCount b + 1) in
  recordRating authorization id (JNumber r) db
  = if schema_ok doc
    then (Some (mkResponse 200 (RatingBody R (ratingCount b + 1))),
          with_books db (<[id := doc]> (books db)))
    else (Some server_error, db).
Proof.
  intros [who Hauth] Hb Hr [H0 H5] Hc R doc.
  unfold recordRating, serve, steps. cbn [step]. rewrite Hauth.
  rewrite (rating_valid_number r Hr). cbn [step]. rewrite Hb.
  destruct Hr as [Hr1 Hr5].
  rewrite rate_update_number; [| split; assumption | exact Hc | lra | exact Hr5 ].
  cbn [step]. unfold save_rating. fold R. fold doc.
  destruct (schema_ok doc).
  - rewrite Hb. unfold doc. cbn [set_rating rating ratingCount title author
      description genre publishedDate pages language readCount createdAt].
    reflexivity.
  - reflexivity.
Qed.

(** C1, as amended.  For an existing book in state [(oldRating, oldCount)]
    with [0 <= oldRating <= 5] and [0 <= oldCount < 2^50], and a rating
    [r] with [1 <= r <= 5] sent as a JSON number by an authenticated
    client, [recordRating] answers, and it answers 200 whenever the stored
    book satisfies the schema.  When it answers 200 the stored rating is
    the double [R] that lines 112-116 compute, the stored [ratingCount] is
    [oldCount + 1], the body carries that pair and no user changes.  [R]
    lies within [1/20 + 2^-46] of the exact mean
    [(oldRating * oldCount + r) / (oldCount + 1)], and it is the double
    nearest to [round1] of that mean whenever ten times the mean is at
    least [2^-44] away from every tie [j + 1/2]. *)
Theorem recordRating_running_mean
  (authorization : option string) (id : N) (r : Q) (db : Db) (b : Book) :
  authenticated authorization db ->
  books db !! id = Some b ->
  valid_rating r ->
  rating_in_range b ->
  0 <= ratingCount b < 2 ^ 50 ->
  let exact :=
    ((rating b * inject_Z (ratingCount b) + r) / (inject_Z (ratingCount b) + 1))%Q in
  let R := fst (running (rating b, ratingCount b) r) in
  exists resp db',
    recordRating authorization id (JNumber r) db = (Some resp, db')
    /\ (status resp = 200 ->
        body resp = RatingBody R (ratingCount b + 1)
        /\ books db' = <[id := set_rating b R (ratingCount b + 1)]> (books db)
        /\ users db' = users db)
    /\ (schema_ok b = true -> status resp = 200)
    /\ (Qabs (R - exact) <= (1 # 20) + pow2 (-46))%Q
    /\ (clear_of_ties exact (pow2 (-44)) -> R = dbl (round1 exact)).
Proof.
  intros Hauth Hb Hr Hin Hc exact R.
  pose proof (recordRating_number authorization id r db b Hauth Hb Hr Hin Hc) as E.
  cbv zeta in E. fold R in E.
  destruct Hin as [H0 H5]. destruct Hr as [Hr1 Hr5].
  assert (Hr0 : (0 <= r)%Q) by lra.
  destruct (schema_ok (set_rating b R (ratingCount b + 1))) eqn:Hs.
  - eexists _, _. split; [exact E |]. split; [| split; [| split]].
    + intros _. repeat split.
    + intros _. reflexivity.
    + apply running_close; assumption.
    + apply running_clear; assumption.
  - eexists _, _. split; [exact E |]. split; [| split; [| split]].
    + intros H. discriminate H.
    + intros Hok. exfalso.
      rewrite schema_ok_set_rating in Hs; [discriminate | exact Hok |].
      apply rating_ok_iff. apply running_in_range; assumption.
    + apply running_close; assumption.
    + apply running_clear; assumption.
Qed.

(** Accepted ratings sent one after the other fold [running] over the
    stored pair. *)
Lemma submit_all_fold (authorization : option string) (id : N) (rs : list Q) :
  forall (db : Db) (b : Book),
    authenticated authorization db ->
    books db !! id = Some b ->
    schema_ok b = true ->
    0 <= ratingCount b ->
    ratingCount b + Z.of_nat (length rs) <= 2 ^ 50 ->
    Forall valid_rating rs ->
    let s := fold_left running rs (rating b, ratingCount b) in
    books (submit_all authorization id rs db) !! id
    = Some (set_rating b (fst s) (snd s))
    /\ snd s = ratingCount b + Z.of_nat (length rs)
    /\ (0 <= fst s)%Q /\ (fst s <= 5)%Q.
Proof.
  induction rs as [| r rs IH]; intros db b Hauth Hb Hok Hc Hn Hrs.
  - cbn. rewrite Hb. destruct (schema_ok_rating b Hok) as [H0 H5].
    split; [now destruct b |]. split; [lia |]. split; assumption.
  - inversion Hrs as [| ? ? Hr Hrs']; subst.
    cbn [length] in Hn.
    assert (Hc' : 0 <= ratingCount b < 2 ^ 50) by lia.
    pose proof (schema_ok_rating b Hok) as Hin.
    pose proof (recordRating_number authorization id r db b Hauth Hb Hr Hin Hc')
      as E.
    cbv zeta in E.
    set (s1 := running (rating b, ratingCount b) r) in *.
    assert (Hcount : snd s1 = ratingCount b + 1)
      by (apply running_count_succ; exact Hc').
    destruct Hin as [H0 H5]. destruct Hr as [Hr1 Hr5].
    assert (Hrange : (0 <= fst s1)%Q /\ (fst s1 <= 5)%Q)
      by (apply running_in_range; try assumption; lra).
    set (b1 := set_rating b (fst s1) (ratingCount b + 1)) in *.
    assert (Hok1 : schema_ok b1 = true).
    { apply schema_ok_set_rating; [exact Hok |]. now apply rating_ok_iff. }
    rewrite Hok1 in E.
    cbn [submit_all fold_left]. rewrite E. cbn [snd].
    assert (Hb1 : books (with_books db (<[id := b1]> (books db))) !! id = Some b1)
      by (cbn; apply lookup_insert_eq).
    assert (Hauth1 : authenticated authorization
                       (with_books db (<[id := b1]> (books db))))
      by exact Hauth.
    specialize (IH _ b1 Hauth1 Hb1 Hok1).
    assert (Ec : ratingCount b1 = ratingCount b + 1) by reflexivity.
    assert (Er : rating b1 = fst s1) by reflexivity.
    rewrite Ec, Er in IH.
    destruct IH as (I1 & I2 & I3); [lia | lia | exact Hrs' |].
    fold s1. rewrite (surjective_pairing s1), Hcount.
    split; [exact I1 |]. split; [cbn [length]; lia | exact I3].
Qed.

End Rating.

(** *** The fold against the mean *)

Lemma Qsum_snoc (l : list Q) (r : Q) : (Qsum (l ++ [r]) == Qsum l + r)%Q.
Proof.
  induction l as [| x l IH]; cbn.
  - ring.
  - change (fold_right Qplus 0%Q (l ++ [r])) with (Qsum (l ++ [r])).
    change (fold_right Qplus 0%Q l) with (Qsum l).
    rewrite IH. ring.
Qed.

Lemma mean_snoc (l : list Q) (r : Q) :
  (mean (l ++ [r])
   == (mean l * inject_Z (Z.of_nat (length l)) + r)
      / (inject_Z (Z.of_nat (length l)) + 1))%Q.
Proof.
  unfold mean. rewrite Qsum_snoc, length_app. cbn [length].
  replace (Z.of_nat (length l + 1)) with (Z.of_nat (length l) + 1) by lia.
  rewrite inject_Z_plus. change (inject_Z 1) with 1%Q.
  destruct l as [| x l].
  - cbn [length Qsum fold_right].
    change (inject_Z (Z.of_nat 0)) with 0%Q.
    assert (E : (0 / 0 == 0)%Q) by reflexivity.
    rewrite E. field.
  - set (n := Z.of_nat (length (x :: l))).
    assert (Hn : 0 < n) by (unfold n; cbn [length]; lia).
    rewrite Zlt_Qlt in Hn. change (inject_Z 0) with 0%Q in Hn.
    field. split; lra.
Qed.

Lemma Qsum_range (rs : list Q) :
  Forall valid_rating rs ->
  (inject_Z (Z.of_nat (length rs)) <= Qsum rs)%Q
  /\ (Qsum rs <= 5 * inject_Z (Z.of_nat (length rs)))%Q.
Proof.
  induction 1 as [| r rs [H1 H5] _ [IH1 IH2]].
  - split; apply Qle_bool_iff; reflexivity.
  - cbn [length Qsum fold_right]. change (fold_right Qplus 0%Q rs) with (Qsum rs).
    rewrite Nat2Z.inj_succ. unfold Z.succ. rewrite inject_Z_plus.
    change (inject_Z 1) with 1%Q. split; lra.
Qed.

Lemma mean_range (rs : list Q) :
  Forall valid_rating rs -> (0 <= mean rs)%Q /\ (mean rs <= 5)%Q.
Proof.
  intros H. destruct (Qsum_range rs H) as [H1 H2]. unfold mean.
  destruct rs as [| r rs].
  - split; apply Qle_bool_iff; reflexivity.
  - set (n := Z.of_nat (length (r :: rs))) in *.
    assert (Hn : 0 < n) by (unfold n; cbn [length]; lia).
    rewrite Zlt_Qlt in Hn. change (inject_Z 0) with 0%Q in Hn. split.
    + apply Qle_shift_div_l; lra.
    + apply Qle_shift_div_r; lra.
Qed.

Lemma exact_prefixes_init (l : list Q) (r : Q) :
  exact_prefixes (l ++ [r]) ->
  exact_prefixes l /\ (l <> [] -> one_decimal (mean l)).
Proof.
  intros Hex. split.
  - intros k Hk. specialize (Hex k). rewrite length_app in Hex.
    rewrite firstn_app in Hex.
    replace (k - length l)%nat with 0%nat in Hex by lia.
    rewrite firstn_0, app_nil_r in Hex. apply Hex. cbn; lia.
  - intros Hl. specialize (Hex (length l)). rewrite firstn_app in Hex.
    rewrite Nat.sub_diag, firstn_0, app_nil_r, firstn_all in Hex.
    apply Hex. rewrite length_app. destruct l; [congruence | cbn; lia].
Qed.

(** The stored value stays the double nearest to the mean so far as long
    as every prefix mean is clear of the ties. *)
Lemma running_tracks_mean (rs : list Q) (x : Q) :
  (x == 0)%Q -> Forall valid_rating rs -> Z.of_nat (length rs) <= 2 ^ 50 ->
  exact_prefixes rs -> clear_of_ties (mean rs) (pow2 (-43)) ->
  rs <> [] ->
  fst (fold_left running rs (x, 0%Z)) = dbl (round1 (mean rs))
  /\ snd (fold_left running rs (x, 0%Z)) = Z.of_nat (length rs).
Proof.
  intros Hx. induction rs as [| r l IH] using rev_ind;
    intros Hrs Hn Hex Hclear Hne; [congruence |].
  apply Forall_app in Hrs as [Hl Hr]. inversion Hr as [| ? ? [Hr1 Hr5] _]; subst.
  rewrite length_app in Hn. cbn [length] in Hn.
  destruct (exact_prefixes_init l r Hex) as [Hex' Hone].
  rewrite fold_left_app. cbn [fold_left].
  set (c := Z.of_nat (length l)) in *.
  assert (Hc : 0 <= c < 2 ^ 50) by lia.
  assert (Hr0 : (0 <= r)%Q) by lra.
  assert (Hstate : exists a,
             fold_left running l (x, 0) = (a, c)
             /\ (0 <= a)%Q /\ (a <= 5)%Q /\ near a (mean l)).
  { destruct l as [| y l'] eqn:El.
    - exists x. split; [reflexivity |].
      assert (Em : (mean [] == 0)%Q) by reflexivity.
      pose proof (pow2_pos (-53)). pose proof (pow2_pos (-1075)).
      split; [lra |]. split; [lra |]. unfold near. rewrite Em. split; lra.
    - rewrite <- El in *.
      assert (Hl0 : l <> []) by (rewrite El; discriminate).
      specialize (Hone Hl0).
      destruct IH as [I1 I2]; try assumption; [lia | |].
      { apply (clear_of_ties_weaken _ (1 # 2)); [| now apply one_decimal_clear].
        apply Qle_bool_iff. vm_compute. reflexivity. }
      destruct (mean_range l Hl) as [M0 M5].
      exists (dbl (round1 (mean l))). split.
      + rewrite <- I1, <- I2. fold c. apply surjective_pairing.
      + assert (Ed : dbl (round1 (mean l)) = dbl (mean l))
          by (apply round64_comp; exact Hone).
        rewrite Ed. unfold dbl. split; [| split].
        * change 0%Q with (inject_Z 0). apply round64_ge_int; [lia | exact M0].
        * change 5%Q with (inject_Z 5). apply round64_le_int; [lia | exact M5].
        * apply near_dbl; assumption. }
  destruct Hstate as (a & Ef & Ha0 & Ha5 & Hnear).
  rewrite Ef. split.
  - rewrite (running_mean_step a (mean l) r c Ha0 Ha5 Hc Hr0 Hr5 Hnear).
    + apply round64_comp. unfold round1. rewrite (mean_snoc l r).
      reflexivity.
    + intros j. specialize (Hclear j). rewrite (mean_snoc l r) in Hclear.
      exact Hclear.
  - rewrite running_count_succ by exact Hc. rewrite length_app. cbn [length]. lia.
Qed.

(** C2, as amended.  Ratings [r1..rn] (at most 2^50 of them) sent as JSON
    numbers one after the other to a book that starts unrated leave
    [ratingCount = n]; the stored rating is the double nearest to
    [round1 (mean r1..rn)] provided the mean of every proper non-empty
    prefix has at most one decimal and ten times the mean of the whole is
    at least [2^-43] away from every tie [j + 1/2]. *)
Theorem sequential_ratings {P : Platform}
  (authorization : option string) (id : N) (rs : list Q) (db : Db) (b : Book) :
  authenticated authorization db ->
  books db !! id = Some b ->
  schema_ok b = true ->
  (rating b == 0)%Q ->
  ratingCount b = 0 ->
  Forall valid_rating rs ->
  Z.of_nat (length rs) <= 2 ^ 50 ->
  exists b',
    books (submit_all authorization id rs db) !! id = Some b'
    /\ ratingCount b' = Z.of_nat (length rs)
    /\ (exact_prefixes rs -> clear_of_ties (mean rs) (pow2 (-43)) ->
        (rating b' == dbl (round1 (mean rs)))%Q).
Proof.
  intros Hauth Hb Hok Hr0 Hc0 Hrs Hn.
  destruct (submit_all_fold authorization id rs db b Hauth Hb Hok)
    as (H1 & H2 & _); [lia | lia | exact Hrs |].
  rewrite Hc0 in H1, H2.
  eexists. split; [exact H1 |]. cbn [set_rating rating ratingCount].
  split; [lia |].
  intros Hex Hclear. destruct rs as [| r rs'].
  - cbn [fold_left fst]. rewrite Hr0. reflexivity.
  - destruct (running_tracks_mean (r :: rs') (rating b) Hr0 Hrs Hn Hex Hclear)
      as [E _]; [discriminate |].
    rewrite E. reflexivity.
Qed.

(** *** Concrete runs *)

Ltac q_order := unfold valid_rating, Qle; simpl; lia.

Ltac q_decide := apply Qle_bool_iff; vm_compute; reflexivity.

Lemma reader_authenticated (bs : gmap N Book) :
  authenticated (P := test_platform) as_reader (sample_db bs).
Proof. exists (1%N, reader). reflexivity. Qed.

Lemma recordRating_running_mean_witness :
  exists resp db',
    recordRating (P := test_platform) as_reader 7 (JNumber (9 # 2)) unrated_db
    = (Some resp, db')
    /\ (status resp = 200 ->
        body resp = RatingBody (fst (running (0%Q, 0%Z) (9 # 2))) (0 + 1)
        /\ books db'
           = <[7%N := set_rating (sample_book 0 0)
                        (fst (running (0%Q, 0%Z) (9 # 2))) (0 + 1)]> (books unrated_db)
        /\ users db' = users unrated_db)
    /\ (schema_ok (sample_book 0 0) = true -> status resp = 200)
    /\ (Qabs (fst (running (0%Q, 0%Z) (9 # 2))
              - (0 * inject_Z 0 + (9 # 2)) / (inject_Z 0 + 1))
        <= (1 # 20) + pow2 (-46))%Q
    /\ (clear_of_ties ((0 * inject_Z 0 + (9 # 2)) / (inject_Z 0 + 1)) (pow2 (-44)) ->
        fst (running (0%Q, 0%Z) (9 # 2))
        = dbl (round1 ((0 * inject_Z 0 + (9 # 2)) / (inject_Z 0 + 1)))).
Proof.
  apply (recordRating_running_mean (P := test_platform) as_reader 7 (9 # 2)
           unrated_db (sample_book 0 0)).
  - apply reader_authenticated.
  - reflexivity.
  - q_order.
  - split; q_order.
  - simpl; lia.
Defined.

(** What the run above stores, and that 4.5 is clear of the ties. *)
Example rating_9_2 :
  recordRating (P := test_platform) as_reader 7 (JNumber (9 # 2)) unrated_db
  = (Some (mkResponse 200 (RatingBody (9 # 2) 1)),
     sample_db {[ 7%N := sample_book (9 # 2) 1 ]})
  /\ clear_of_ties ((0 * inject_Z 0 + (9 # 2)) / (inject_Z 0 + 1)) (pow2 (-44)).
Proof.
  split; [vm_compute; reflexivity |].
  apply (clear_of_ties_weaken _ (1 # 2)); [q_decide |].
  apply one_decimal_clear. vm_compute. reflexivity.
Qed.

(** C1 as stated fails on doubles.  A new book rated with the double
    nearest to 1.45, which lies below 1.45, stores 1.5, while [round1] of
    that double is 1.4: the product by ten rounds up to the tie 14.5.  A
    book shown as [(1.4, 7)] and rated 1 stores 1.3, while [round1 1.35]
    is 1.4.  And a rating sent as the JSON string ['4'] passes the
    validator and is concatenated, not added: [(4.5, 1)] becomes
    [(2.3, 2)], while [round1 4.25] is 4.3. *)
Lemma recordRating_running_mean_counterexample :
  let rate (b : Book) (sent : json) :=
    recordRating (P := test_platform) as_reader 7 sent (sample_db {[ 7%N := b ]}) in
  let r := dbl (145 # 100) in
  valid_rating r
  /\ fst (rate (sample_book 0 0) (JNumber r))
     = Some (mkResponse 200 (RatingBody (3 # 2) 1))
  /\ (round1 ((0 * inject_Z 0 + r) / (inject_Z 0 + 1)) == 14 # 10)%Q
  /\ ~ (3 # 2 == dbl (14 # 10))%Q
  /\ fst (rate (sample_book (dbl (14 # 10)) 7) (JNumber 1))
     = Some (mkResponse 200 (RatingBody (dbl (13 # 10)) 8))
  /\ (round1 (((14 # 10) * inject_Z 7 + 1) / (inject_Z 7 + 1)) == 14 # 10)%Q
  /\ ~ (dbl (13 # 10) == dbl (14 # 10))%Q
  /\ fst (rate (sample_book (45 # 10) 1) (JString "4"))
     = Some (mkResponse 200 (RatingBody (dbl (23 # 10)) 2))
  /\ (round1 (((45 # 10) * inject_Z 1 + 4) / (inject_Z 1 + 1)) == 43 # 10)%Q
  /\ ~ (dbl (23 # 10) == dbl (43 # 10))%Q.
Proof.
  cbv zeta.
  split; [split; q_decide |].
  split; [vm_compute; reflexivity |].
  split; [vm_compute; reflexivity |].
  split; [intros H; vm_compute in H; discriminate H |].
  split; [vm_compute; reflexivity |].
  split; [vm_compute; reflexivity |].
  split; [intros H; vm_compute in H; discriminate H |].
  split; [vm_compute; reflexivity |].
  split; [vm_compute; reflexivity |].
  intros H; vm_compute in H; discriminate H.
Qed.

(** The scenario of the specification: 5, 3, 4 give a count of 3 and 4.0. *)
Lemma sequential_ratings_witness :
  exists b',
    books (submit_all (P := test_platform) as_reader 7 [5; 3; 4]%Q unrated_db) !! 7%N
    = Some b'
    /\ ratingCount b' = Z.of_nat (length [5; 3; 4]%Q)
    /\ (exact_prefixes [5; 3; 4]%Q ->
        clear_of_ties (mean [5; 3; 4]%Q) (pow2 (-43)) ->
        (rating b' == dbl (round1 (mean [5; 3; 4])))%Q).
Proof.
  apply (sequential_ratings (P := test_platform) as_reader 7 [5; 3; 4]%Q
           unrated_db (sample_book 0 0)).
  - apply reader_authenticated.
  - reflexivity.
  - reflexivity.
  - reflexivity.
  - reflexivity.
  - repeat (constructor; [q_order |]). constructor.
  - simpl; lia.
Defined.

Example ratings_5_3_4 :
  books (submit_all (P := test_platform) as_reader 7 [5; 3; 4]%Q unrated_db) !! 7%N
  = Some (sample_book 4 3)
  /\ exact_prefixes [5; 3; 4]%Q
  /\ clear_of_ties (mean [5; 3; 4]%Q) (pow2 (-43))
  /\ (dbl (round1 (mean [5; 3; 4])) == 4)%Q.
Proof.
  split; [vm_compute; reflexivity |]. split.
  { intros [| [| [| k]]] Hk; cbn in Hk; try lia; vm_compute; reflexivity. }
  split; [| vm_compute; reflexivity].
  apply (clear_of_ties_weaken _ (1 # 2)); [q_decide |].
  apply one_decimal_clear. vm_compute. reflexivity.
Qed.

(** C2 as stated fails: after 1, 1, 2, 1 the stored rating is 1.2 while the
    mean 1.25 rounds to 1.3; and the same four ratings in the order
    1, 1, 1, 2 leave 1.3.  On doubles a tie of the last mean is enough:
    seven ratings of 1.4 and then 1 leave 1.3, while the mean 1.35 rounds
    to 1.4 and every earlier mean is 1.4. *)
Lemma sequential_ratings_counterexample :
  let after (rs : list Q) :=
    books (submit_all (P := test_platform) as_reader 7 rs unrated_db) !! 7%N in
  let sevens := List.app (repeat (14 # 10)%Q 7) [1%Q] in
  Forall valid_rating [1; 1; 2; 1]%Q
  /\ Permutation [1; 1; 2; 1]%Q [1; 1; 1; 2]%Q
  /\ after [1; 1; 2; 1]%Q = Some (sample_book (dbl (12 # 10)) 4)
  /\ after [1; 1; 1; 2]%Q = Some (sample_book (dbl (13 # 10)) 4)
  /\ (round1 (mean [1; 1; 2; 1]) == 13 # 10)%Q
  /\ ~ (dbl (12 # 10) == dbl (round1 (mean [1; 1; 2; 1])))%Q
  /\ Forall valid_rating sevens
  /\ exact_prefixes sevens
  /\ after sevens = Some (sample_book (dbl (13 # 10)) 8)
  /\ (round1 (mean sevens) == 14 # 10)%Q
  /\ ~ (dbl (13 # 10) == dbl (round1 (mean sevens)))%Q.
Proof.
  cbv zeta. split.
  { repeat (constructor; [q_order |]). constructor. }
  split.
  { do 2 apply perm_skip. apply perm_swap. }
  split; [vm_compute; reflexivity |].
  split; [vm_compute; reflexivity |].
  split; [vm_compute; reflexivity |].
  split; [intros H; vm_compute in H; discriminate H |].
  split.
  { repeat (constructor; [q_order |]). constructor. }
  split.
  { intros [| [| [| [| [| [| [| [| k]]]]]]]] Hk; cbn in Hk; try lia;
      vm_compute; reflexivity. }
  split; [vm_compute; reflexivity |].
  split; [vm_compute; reflexivity |].
  intros H; vm_compute in H; discriminate H.
Qed.

(** ** The reference sort meets the contract *)

Section InsertionSort.

Context {A : Type} (le : A -> A -> bool).
Hypothesis le_total : forall a b, le a b = false -> le b a = true.

Lemma insert_sorted_perm (x : A) (l : list A) :
  Permutation (insert_sorted le x l) (x :: l).
Proof.
  induction l as [| y l IH]; cbn.
  - reflexivity.
  - destruct (le x y); [reflexivity |].
    rewrite IH. apply perm_swap.
Qed.

Lemma isort_perm (l : list A) : Permutation (isort le l) l.
Proof.
  induction l as [| x l IH]; cbn.
  - reflexivity.
  - rewrite insert_sorted_perm. now apply perm_skip.
Qed.

Lemma insert_sorted_hd (x a : A) (l : list A) :
  le a x = true -> HdRel (fun a b => le a b = true) a l -> HdRel (fun a b => le a b = true) a (insert_sorted le x l).
Proof.
  intros Hax Hl. destruct l as [| y l]; cbn.
  - now constructor.
  - destruct (le x y); constructor; [exact Hax |].
    now inversion Hl.
Qed.

Lemma insert_sorted_sorted (x : A) (l : list A) :
  Sorted (fun a b => le a b = true) l -> Sorted (fun a b => le a b = true) (insert_sorted le x l).
Proof.
  induction 1 as [| y l Hs IH Hhd]; cbn.
  - repeat constructor.
  - destruct (le x y) eqn:E.
    + constructor; [now constructor |]. now constructor.
    + constructor; [exact IH |].
      apply insert_sorted_hd; [| exact Hhd]. now apply le_total.
Qed.

Lemma isort_sorted (l : list A) : Sorted (fun a b => le a b = true) (isort le l).
Proof.
  induction l as [| x l IH]; cbn.
  - constructor.
  - now apply insert_sorted_sorted.
Qed.

End InsertionSort.

Lemma Sorted_weaken {A : Type} (R1 R2 : A -> A -> Prop) (l : list A) :
  (forall a b, R1 a b -> R2 a b) -> Sorted R1 l -> Sorted R2 l.
Proof.
  intros Himp. induction 1 as [| x l Hs IH Hhd]; constructor.
  - exact IH.
  - destruct Hhd; constructor. now apply Himp.
Qed.

Lemma Qle_bool_total (x y : Q) : Qle_bool x y = false -> Qle_bool y x = true.
Proof.
  intros H. apply Qle_bool_iff. apply Qlt_le_weak. apply Qnot_le_lt.
  intros Hle. apply Qle_bool_iff in Hle. congruence.
Qed.

Lemma key_le_total (a b : Key) : key_le a b = false -> key_le b a = true.
Proof.
  destruct a, b; cbn; try lia; try discriminate.
  - apply Qle_bool_total.
  - intros H. destruct (String.leb_total s s0) as [E | E]; congruence.
  - intros H. apply N.leb_le. apply N.leb_gt in H. lia.
Qed.

Lemma doc_le_total (f : string) (asc : bool) (x y : N * Book) :
  doc_le f asc x y = false -> doc_le f asc y x = true.
Proof.
  unfold doc_le. destruct (sort_key f x), (sort_key f y); try discriminate.
  destruct asc; apply key_le_total.
Qed.

Lemma test_le_total (p : Plan) (f : string) (asc : bool) (x y : N * Book) :
  test_le p f asc x y = false -> test_le p f asc y x = true.
Proof.
  unfold test_le.
  destruct (doc_le f asc x y) eqn:Exy, (doc_le f asc y x) eqn:Eyx; cbn;
    try reflexivity; try discriminate.
  - destruct (N.even p); intros H; apply N.leb_le; apply N.leb_gt in H; lia.
  - apply doc_le_total in Exy. congruence.
Qed.

Lemma carried_nonempty (f : string) : carried f = true -> f <> "".
Proof. intros H E. subst f. discriminate H. Qed.

Lemma test_platform_ok : PlatformOk test_platform.
Proof.
  split.
  - intros p f asc l s. cbn [mongo_sort test_platform].
    destruct (String.eqb f ""); [discriminate |].
    intros [= <-]. apply isort_perm.
  - intros p f asc l s. cbn [mongo_sort test_platform].
    destruct (String.eqb f ""); [discriminate |].
    intros [= <-].
    apply Sorted_weaken with (R1 := fun x y => test_le p f asc x y = true).
    + intros a b H. unfold test_le in H. now apply andb_true_iff in H.
    + apply isort_sorted. apply test_le_total.
  - intros p f asc l Hf. cbn [mongo_sort test_platform].
    destruct (String.eqb_spec f "") as [E | _]; [| discriminate].
    now apply carried_nonempty in Hf.
  - reflexivity.
Qed.

(** *** The key order is an order *)

Lemma ascii_compare_trans (x y z : ascii) :
  Ascii.compare x y = Lt -> Ascii.compare y z = Lt -> Ascii.compare x z = Lt.
Proof.
  unfold Ascii.compare. rewrite !N.compare_lt_iff. lia.
Qed.

Lemma ascii_compare_eq (x y : ascii) : Ascii.compare x y = Eq -> x = y.
Proof.
  unfold Ascii.compare. intros H. apply N.compare_eq in H.
  rewrite <- (ascii_N_embedding x), <- (ascii_N_embedding y). now rewrite H.
Qed.

Lemma string_leb_trans (a b c : string) :
  String.leb a b = true -> String.leb b c = true -> String.leb a c = true.
Proof.
  unfold String.leb. revert b c.
  induction a as [| x a IH]; intros [| y b] [| z c]; cbn;
    try reflexivity; try discriminate.
  destruct (Ascii.compare x y) eqn:E1.
  - apply ascii_compare_eq in E1. subst y.
    destruct (Ascii.compare x z) eqn:E2; try reflexivity; try discriminate.
    apply IH.
  - destruct (Ascii.compare y z) eqn:E2.
    + apply ascii_compare_eq in E2. subst z. rewrite E1. reflexivity.
    + rewrite (ascii_compare_trans x y z E1 E2). reflexivity.
    + discriminate.
  - discriminate.
Qed.

Lemma key_le_trans (a b c : Key) :
  key_le a b = true -> key_le b c = true -> key_le a c = true.
Proof.
  destruct a, b, c; cbn; try lia; try discriminate.
  - rewrite !Qle_bool_iff. apply Qle_trans.
  - apply string_leb_trans.
  - rewrite !N.leb_le. lia.
Qed.

Lemma carried_key (f : string) (d : N * Book) :
  carried f = true -> exists k, sort_key f d = Some k.
Proof.
  unfold carried, carried_paths. cbn [existsb]. intros H.
  repeat (apply orb_true_iff in H as [H | H];
          [apply String.eqb_eq in H; subst f; eexists; reflexivity |]).
  discriminate H.
Qed.

Lemma doc_le_trans (f : string) (asc : bool) :
  carried f = true ->
  Relations_1.Transitive (fun x y : N * Book => doc_le f asc x y = true).
Proof.
  intros Hf x y z. unfold doc_le.
  destruct (carried_key f x Hf) as [kx ->], (carried_key f y Hf) as [ky ->],
           (carried_key f z Hf) as [kz ->].
  destruct asc; intros H1 H2; eauto using key_le_trans.
Qed.




(** ** The list query *)



Lemma chunk_length {A : Type} (l : nat) (s : list A) (k : nat) :
  length (chunk l s k) = Nat.min l (length s - k * l).
Proof. unfold chunk. now rewrite length_firstn, length_skipn. Qed.

Lemma chunk_incl {A : Type} (l : nat) (s : list A) (k : nat) (x : A) :
  In x (chunk l s k) -> In x s.
Proof.
  unfold chunk. intros H.
  rewrite <- (firstn_skipn (k * l) s). apply in_or_app. right.
  rewrite <- (firstn_skipn l (skipn (k * l) s)). apply in_or_app. now left.
Qed.


Lemma parsed_numeric (o : option string) (d : Z) :
  numeric o -> exists z, parsed o d = Num z.
Proof.
  destruct o as [s |]; cbn; intros H.
  - destruct (parseInt s) as [| z]; [congruence | now exists z].
  - now exists d.
Qed.

Section Listing.

Context {P : Platform}.

Lemma pageNum_parsed (q : Query) (pn : Z) :
  parsed (q_page q) 1 = Num pn -> pageNum_of q = Num (Z.max 1 pn).
Proof. unfold pageNum_of. fold (parsed (q_page q) 1). now intros ->. Qed.

Lemma limitNum_parsed (q : Query) (ln : Z) :
  parsed (q_limit q) 12 = Num ln -> limitNum_of q = Num (Z.min 50 (Z.max 1 ln)).
Proof. unfold limitNum_of. fold (parsed (q_limit q) 12). now intros ->. Qed.

(** A query builds a filter object exactly when its filter values can be
    used, and the filter selects the books the query asks for. *)
Lemma build_filter_spec (q : Query) :
  match build_filter q with
  | Some f => usable q /\ forall b, matches f b = satisfies q b
  | None => ~ usable q
  end.
Proof.
  unfold build_filter, matches, satisfies, usable, cast_number.
  destruct (truthy (q_author q)) as [a |];
    [destruct (regex_compile a) eqn:Ere;
     [| intros (H & _); now apply (H a)] |];
    (destruct (truthy (q_minRating q)) as [m |];
     [destruct (parseFloat m) eqn:Pm;
      [intros (_ & H & _); now apply (H m) | |] |]);
    (destruct (truthy (q_publishedFrom q)) as [d1 |];
     [destruct (parseDate d1) eqn:P1;
      [| intros (_ & _ & H & _); now apply (H d1)] |]);
    (destruct (truthy (q_publishedTo q)) as [d2 |];
     [destruct (parseDate d2) eqn:P2;
      [| intros (_ & _ & _ & H); now apply (H d2)] |]);
    (split;
     [repeat split; intros s [= <-]; congruence
     | intros bk;
       cbn [f_text f_genre f_author f_language f_minRating f_from f_to opt_test];
       try rewrite Ere; try rewrite Pm; try rewrite P1; try rewrite P2;
       reflexivity]).
Qed.

Lemma build_filter_usable (q : Query) :
  usable q ->
  exists f, build_filter q = Some f /\ forall b, matches f b = satisfies q b.
Proof.
  intros Hu. pose proof (build_filter_spec q) as H.
  destruct (build_filter q) as [f |]; [| contradiction].
  exists f. split; [reflexivity | apply H].
Qed.

Lemma find_all_matching (q : Query) (f : Filter) (db : Db) :
  (forall b, matches f b = satisfies q b) -> find_all f db = matching q db.
Proof.
  intros H. unfold find_all, matching.
  induction (map_to_list (books db)) as [| d l IH]; [reflexivity |].
  cbn [List.filter]. now rewrite H, IH.
Qed.

Lemma find_all_In (f : Filter) (db : Db) (d : N * Book) :
  In d (find_all f db)
  <-> books db !! fst d = Some (snd d) /\ matches f (snd d) = true.
Proof.
  unfold find_all. rewrite filter_In, <- list_elem_of_In.
  destruct d as [i b]. rewrite elem_of_map_to_list. reflexivity.
Qed.

Lemma matching_In (q : Query) (db : Db) (d : N * Book) :
  In d (matching q db)
  <-> books db !! fst d = Some (snd d) /\ satisfies q (snd d) = true.
Proof.
  unfold matching. rewrite filter_In, <- list_elem_of_In.
  destruct d as [i b]. rewrite elem_of_map_to_list. reflexivity.
Qed.


Lemma matching_with_paging (q : Query) (pg lm : option string) (db : Db) :
  matching (with_paging q pg lm) db = matching q db.
Proof. reflexivity. Qed.

Context {Pok : PlatformOk P}.

(** What a query with numeric paging values is answered: the page, or the
    500 of the [catch] when a filter value cannot be used or the store
    refuses the sort. *)
Lemma listBooks_cases (q : Query) (plan : Plan) (db : Db) (pn ln : Z) :
  parsed (q_page q) 1 = Num pn ->
  parsed (q_limit q) 12 = Num ln ->
  let p := Z.max 1 pn in
  let l := Z.min 50 (Z.max 1 ln) in
  let total := Z.of_nat (length (matching q db)) in
  (listBooks q plan db = server_error
   /\ ~ (usable q /\ carried (sort_field q) = true))
  \/ (usable q
      /\ exists S,
           mongo_sort plan (sort_field q) (sort_asc q) (matching q db) = Some S
           /\ listBooks q plan db
              = mkResponse 200
                  (ListBody (chunk (Z.to_nat l) S (Z.to_nat (p - 1)))
                     (mkPagination total (Num p) (Num l)
                        (Num (Math_ceil_div total l))))).
Proof.
  intros Hp Hl p l total.
  pose proof (build_filter_spec q) as Hspec.
  destruct (build_filter q) as [f |] eqn:Hf.
  - destruct Hspec as [Hu Hm].
    pose proof (find_all_matching q f db Hm) as Ef.
    destruct (mongo_sort plan (sort_field q) (sort_asc q) (matching q db))
      as [S |] eqn:ES.
    + right. split; [exact Hu |]. exists S. split; [reflexivity |].
      unfold listBooks, skip_of, sorted_matches.
      rewrite Hf, (pageNum_parsed q pn Hp), (limitNum_parsed q ln Hl), Ef, ES.
      cbn [js_sub js_mul skip_limit]. unfold chunk. fold p l total.
      rewrite Z2Nat.inj_mul by lia. reflexivity.
    + left. split.
      * unfold listBooks, sorted_matches. now rewrite Hf, Ef, ES.
      * intros [_ Hs]. now apply sort_accepts in ES.
  - left. split.
    + unfold listBooks. now rewrite Hf.
    + intros [Hu _]. contradiction.
Qed.


(** C3.  A list query whose [page] and [limit] read as the integers
    [pn < 2^47] and [ln] is answered 200 whenever its filter values can be
    used and its sort field is a path of the schema.  When it is answered
    200: the effective page is [max 1 pn] and the effective limit
    [min 50 (max 1 ln)]; [total] is the number of stored books that satisfy
    the filters of the query, whatever the paging; the items are the slice
    of [limit] records after the first [(page - 1) * limit] of a sequence
    that holds each of those books once, hence [min (limit, remaining
    matches)] of them; [totalPages = ceil (total / limit)], the least
    number of pages that hold [total] items; and there is no item at all
    when [page] exceeds [totalPages]. *)
Theorem listBooks_pagination (q : Query) (plan : Plan) (db : Db) (pn ln : Z) :
  parsed (q_page q) 1 = Num pn ->
  pn < 2 ^ 47 ->
  parsed (q_limit q) 12 = Num ln ->
  let p := Z.max 1 pn in
  let l := Z.min 50 (Z.max 1 ln) in
  let total := Z.of_nat (length (matching q db)) in
  let tp := Math_ceil_div total l in
  (usable q -> carried (sort_field q) = true ->
   status (listBooks q plan db) = 200)
  /\ (status (listBooks q plan db) = 200 ->
      exists (bs S : list (N * Book)),
        listBooks q plan db
        = mkResponse 200 (ListBody bs (mkPagination total (Num p) (Num l) (Num tp)))
        /\ Permutation S (matching q db)
        /\ bs = firstn (Z.to_nat l) (skipn (Z.to_nat ((p - 1) * l)) S)
        /\ Z.of_nat (length bs) = Z.min l (Z.max 0 (total - (p - 1) * l))
        /\ (tp - 1) * l < total <= tp * l
        /\ (tp < p -> bs = [])
        /\ (forall pg lm, matching (with_paging q pg lm) db = matching q db)).
Proof.
  intros Hp _ Hl p l total tp.
  destruct (listBooks_cases q plan db pn ln Hp Hl) as [[E Hno] | (Hu & S & ES & E)];
    fold p l total tp in E; rewrite E.
  { split; [intros Hu Hs; exfalso; apply Hno; now split | discriminate]. }
  split; [reflexivity |]. intros _.
  pose proof (sort_perm _ _ _ _ _ ES) as Hperm.
  pose proof (Math_ceil_div_spec total l ltac:(lia)) as Hceil.
  fold tp in Hceil.
  assert (Hlen : Z.of_nat (length (chunk (Z.to_nat l) S (Z.to_nat (p - 1))))
                 = Z.min l (Z.max 0 (total - (p - 1) * l))).
  { rewrite chunk_length, (Permutation_length Hperm).
    rewrite <- Z2Nat.inj_mul by lia.
    assert (Hk : 0 <= (p - 1) * l) by nia. revert Hk.
    generalize ((p - 1) * l) as k. intros k Hk. unfold total. lia. }
  exists (chunk (Z.to_nat l) S (Z.to_nat (p - 1))), S.
  split; [reflexivity |]. split; [exact Hperm |]. split.
  { unfold chunk. rewrite Z2Nat.inj_mul by lia. reflexivity. }
  split; [exact Hlen |]. split; [exact Hceil |].
  split; [| intros pg lm; reflexivity].
  intros Hbeyond. apply length_zero_iff_nil.
  assert (total <= (p - 1) * l) by nia. lia.
Qed.

End Listing.

(** ** Ordering of the result *)




(** Page 2 of size 1 over two matching books: one item, two pages. *)
Lemma listBooks_pagination_witness :
  (usable (P := test_platform) (with_paging no_query (Some "2") (Some "1")) ->
   carried (sort_field (with_paging no_query (Some "2") (Some "1"))) = true ->
   status (listBooks (P := test_platform)
             (with_paging no_query (Some "2") (Some "1")) 0%N tie_db) = 200)
  /\ (status (listBooks (P := test_platform)
                (with_paging no_query (Some "2") (Some "1")) 0%N tie_db) = 200 ->
      exists (bs S : list (N * Book)),
        listBooks (P := test_platform)
          (with_paging no_query (Some "2") (Some "1")) 0%N tie_db
        = mkResponse 200
            (ListBody bs
               (mkPagination
                  (Z.of_nat (length (matching (P := test_platform)
                               (with_paging no_query (Some "2") (Some "1")) tie_db)))
                  (Num (Z.max 1 2)) (Num (Z.min 50 (Z.max 1 1)))
                  (Num (Math_ceil_div
                          (Z.of_nat (length (matching (P := test_platform)
                               (with_paging no_query (Some "2") (Some "1")) tie_db)))
                          (Z.min 50 (Z.max 1 1))))))
        /\ Permutation S
             (matching (P := test_platform)
                (with_paging no_query (Some "2") (Some "1")) tie_db)
        /\ bs = firstn (Z.to_nat (Z.min 50 (Z.max 1 1)))
                  (skipn (Z.to_nat ((Z.max 1 2 - 1) * Z.min 50 (Z.max 1 1))) S)).
Proof.
  destruct (listBooks_pagination (P := test_platform) (Pok := test_platform_ok)
              (with_paging no_query (Some "2") (Some "1")) 0%N tie_db 2 1)
    as [H1 H2].
  - reflexivity.
  - reflexivity.
  - reflexivity.
  - split; [exact H1 |]. intros H.
    destruct (H2 H) as (bs & S & E1 & E2 & E3 & _).
    exists bs, S. repeat (split; [assumption |]). assumption.
Defined.

(** What that request is answered. *)
Example page_2_of_1 :
  listBooks (P := test_platform) (with_paging no_query (Some "2") (Some "1")) 0%N tie_db
  = mkResponse 200
      (ListBody [(1%N, sample_book 4 1)] (mkPagination 2 (Num 2) (Num 1) (Num 2))).
Proof. vm_compute. reflexivity. Qed.

Lemma shelf_distinct :
  distinct_keys "createdAt" (matching (P := test_platform) no_query shelf_db).
Proof.
  intros x y Hx Hy.
  assert (E : matching (P := test_platform) no_query shelf_db
              = map_to_list (books shelf_db)).
  { unfold matching. apply forallb_filter_id. reflexivity. }
  rewrite E in Hx, Hy.
  apply list_elem_of_In, elem_of_map_to_list' in Hx.
  apply list_elem_of_In, elem_of_map_to_list' in Hy.
  destruct x as [i a], y as [j b]. cbn [fst snd] in Hx, Hy.
  unfold shelf_db, sample_db in Hx, Hy. cbn [books] in Hx, Hy.
  repeat (rewrite lookup_insert_Some in Hx; destruct Hx as [[<- <-] | [_ Hx]]);
    try (rewrite lookup_singleton_Some in Hx; destruct Hx as [<- <-]);
    repeat (rewrite lookup_insert_Some in Hy; destruct Hy as [[<- <-] | [_ Hy]]);
    try (rewrite lookup_singleton_Some in Hy; destruct Hy as [<- <-]);
    intros H; try reflexivity; try discriminate H.
Qed.


(** Pages 1, 2, 3 of size 1, each under a plan of its own. *)
Example shelf_pages :
  enumerate (P := test_platform) no_query (Some "1")
    (fun k => Some (String_of_int (Z.of_nat k + 1))) (fun k => N.of_nat k) 3 shelf_db
  = [(3%N, shelf_book "C" 3 30); (1%N, shelf_book "A" 4 20);
     (2%N, shelf_book "B" 5 10)].
Proof. vm_compute. reflexivity. Qed.


(** ** Query parameters that the specification calls invalid *)






(** C8, on the code.  [page=abc] gives [pageNum = NaN] and [limit=abc]
    gives [limitNum = NaN], not the defaults 1 and 12: whatever the store
    does with such a cursor, the answer is either the 500 of the [catch]
    clause or a body whose [page] (respectively [limit]) is [NaN]. *)
Theorem listBooks_non_numeric {P : Platform} (plan : Plan) (db : Db) :
  let bad_page := with_paging no_query (Some "abc") None in
  let bad_limit := with_paging no_query None (Some "abc") in
  parseInt "abc" = NaN
  /\ pageNum_of bad_page = NaN
  /\ limitNum_of bad_limit = NaN
  /\ (listBooks bad_page plan db = server_error
      \/ exists bs pg, listBooks bad_page plan db = mkResponse 200 (ListBody bs pg)
                       /\ page pg = NaN)
  /\ (listBooks bad_limit plan db = server_error
      \/ exists bs pg, listBooks bad_limit plan db = mkResponse 200 (ListBody bs pg)
                       /\ limit pg = NaN).
Proof.
  cbv zeta. repeat (split; [reflexivity |]).
  assert (Hf : forall pg lm,
             build_filter (with_paging no_query pg lm)
             = Some (mkFilter None None None None None None None))
    by reflexivity.
  split; unfold listBooks; rewrite Hf.
  - change (skip_of (with_paging no_query (Some "abc") None)) with NaN.
    change (pageNum_of (with_paging no_query (Some "abc") None)) with NaN.
    destruct (sorted_matches _ _ _ _) as [S |]; [| left; reflexivity].
    cbn [skip_limit].
    destruct (find_nan _) as [bs |]; [right | left; reflexivity].
    eexists _, _. split; reflexivity.
  - change (skip_of (with_paging no_query None (Some "abc"))) with NaN.
    change (limitNum_of (with_paging no_query None (Some "abc"))) with NaN.
    destruct (sorted_matches _ _ _ _) as [S |]; [| left; reflexivity].
    cbn [skip_limit].
    destruct (find_nan _) as [bs |]; [right | left; reflexivity].
    eexists _, _. split; reflexivity.
Qed.

(** A numeric [limit] above 50 is clamped to 50, and one below 1 raised
    to 1. *)
Lemma limitNum_clamped (q : Query) (s : string) (z : Z) :
  q_limit q = Some s -> parseInt s = Num z ->
  limitNum_of q = Num (Z.min 50 (Z.max 1 z))
  /\ (50 < z -> limitNum_of q = Num 50).
Proof.
  intros Hq Hs. unfold limitNum_of. rewrite Hq, Hs. cbn. split; [reflexivity |].
  intros Hz. f_equal. lia.
Qed.

(** An absent [page] or [limit] takes its default. *)
Lemma paging_defaults (q : Query) :
  (q_page q = None -> pageNum_of q = Num 1)
  /\ (q_limit q = None -> limitNum_of q = Num 12).
Proof.
  unfold pageNum_of, limitNum_of. split; intros ->; reflexivity.
Qed.


(** ** Registration *)

Section Registration.

Context {P : Platform}.

Lemma findOne_email_found (e : string) (us : gmap N User) (id : N) (u : User) :
  us !! id = Some u -> email u = e ->
  exists p, findOne_email e us = Some p.
Proof.
  intros Hu He. unfold findOne_email.
  destruct (find _ _) as [p |] eqn:E; [now exists p | exfalso].
  assert (Hin : In (id, u) (map_to_list us))
    by (apply list_elem_of_In, elem_of_map_to_list; exact Hu).
  pose proof (find_none _ _ E (id, u) Hin) as Hf. cbn in Hf.
  rewrite He, String.eqb_refl in Hf. discriminate Hf.
Qed.

Lemma register_validation_400 (b : RegisterBody) (resp : Response) :
  register_validation b = Some resp -> status resp = 400.
Proof.
  unfold register_validation. intros H.
  repeat match type of H with
         | context [if ?c then _ else _] => destruct c
         end;
    try discriminate H; injection H as <-; reflexivity.
Qed.

(** C9, as amended.  A registration whose email is that of an existing
    user is answered 400 (with the message "Email already in use." once
    the body passes the validators) and leaves the store as it was. *)
Theorem register_duplicate_email (b : RegisterBody) (fresh : N) (now : Z) (db : Db) :
  (exists id u, users db !! id = Some u /\ email u = or_else (r_email b) "") ->
  status (fst (register b fresh now db)) = 400
  /\ snd (register b fresh now db) = db
  /\ (register_validation b = None ->
      fst (register b fresh now db) = mkResponse 400 (Message "Email already in use.")).
Proof.
  intros (id & u & Hu & He). unfold register.
  destruct (register_validation b) as [resp |] eqn:Ev.
  - cbn. split; [now apply (register_validation_400 b) |].
    split; [reflexivity | discriminate].
  - destruct (findOne_email_found _ _ id u Hu He) as [p Hp]. rewrite Hp.
    cbn. repeat split.
Qed.

Lemma strict_eq_string_spec (v : option json) (lit : string) :
  strict_eq_string v lit = true <-> v = Some (JString lit).
Proof.
  destruct v as [[| | | s | |] |]; cbn; try (split; [discriminate | congruence]).
  rewrite String.eqb_eq. split; congruence.
Qed.

(** C10.  The registration route takes no credentials and reads [role]
    from the body: whenever it answers 201 it has stored one new user, and
    that user is an admin exactly when the body has [role] equal to the
    string ["admin"]; with any other value, or none, the role is ["user"].
    The answer carries the same role. *)
Theorem register_role (b : RegisterBody) (fresh : N) (now : Z) (db : Db)
  (resp : Response) (db' : Db) :
  register b fresh now db = (resp, db') ->
  status resp = 201 ->
  exists u : User,
    users db !! fresh = None
    /\ users db' = <[fresh := u]> (users db)
    /\ books db' = books db
    /\ email u = or_else (r_email b) ""
    /\ body resp = AuthBody (jwt_sign fresh now) fresh (name u) (email u) (role u)
    /\ (r_role b = Some (JString "admin") -> role u = "admin")
    /\ (r_role b <> Some (JString "admin") -> role u = "user").
Proof.
  unfold register. intros H Hs.
  destruct (register_validation b) as [r |] eqn:Ev.
  { injection H as <- <-. apply register_validation_400 in Ev. lia. }
  destruct (findOne_email _ _) as [p |].
  { injection H as <- <-. discriminate Hs. }
  unfold User_create in H.
  destruct (users db !! fresh) eqn:Hfresh.
  { injection H as <- <-. discriminate Hs. }
  injection H as <- <-. eexists. split; [reflexivity |].
  split; [reflexivity |]. split; [reflexivity |]. split; [reflexivity |].
  split; [reflexivity |]. cbn [role].
  destruct (strict_eq_string (r_role b) "admin") eqn:E.
  - split; [reflexivity |]. apply strict_eq_string_spec in E. congruence.
  - split; [| reflexivity]. intros Hr.
    apply strict_eq_string_spec in Hr. congruence.
Qed.

End Registration.

Lemma register_duplicate_email_witness :
  let b := mkRegisterBody (Some "Eve") (Some "ann@example.com") (Some "secret1") None in
  status (fst (register (P := test_platform) b 9 0 unrated_db)) = 400
  /\ snd (register (P := test_platform) b 9 0 unrated_db) = unrated_db.
Proof.
  cbv zeta.
  pose proof (register_duplicate_email (P := test_platform)
                (mkRegisterBody (Some "Eve") (Some "ann@example.com")
                                (Some "secret1") None) 9 0 unrated_db) as H.
  destruct H as (H1 & H2 & _).
  - exists 1%N, reader. split; reflexivity.
  - split; [exact H1 | exact H2].
Defined.

(** C9 as stated fails: the answer to a duplicate email is 400, not 409. *)
Lemma register_duplicate_email_counterexample :
  let b := mkRegisterBody (Some "Eve") (Some "ann@example.com") (Some "secret1") None in
  users unrated_db !! 1%N = Some reader
  /\ email reader = or_else (r_email b) ""
  /\ fst (register (P := test_platform) b 9 0 unrated_db)
     = mkResponse 400 (Message "Email already in use.")
  /\ status (fst (register (P := test_platform) b 9 0 unrated_db)) <> 409.
Proof.
  cbv zeta. split; [reflexivity |]. split; [reflexivity |].
  split; [vm_compute; reflexivity |]. vm_compute. discriminate.
Qed.

(** Anyone can register as an admin. *)
Lemma register_role_witness :
  let b := mkRegisterBody (Some "Eve") (Some "eve@example.com") (Some "secret1")
             (Some (JString "admin")) in
  exists u : User,
    users unrated_db !! 9%N = None
    /\ users (snd (register (P := test_platform) b 9 0 unrated_db))
       = <[9%N := u]> (users unrated_db)
    /\ role u = "admin".
Proof.
  cbv zeta.
  destruct (register_role (P := test_platform)
              (mkRegisterBody (Some "Eve") (Some "eve@example.com")
                              (Some "secret1") (Some (JString "admin")))
              9 0 unrated_db _ _ eq_refl eq_refl)
    as (u & H1 & H2 & _ & _ & _ & H3 & _).
  exists u. split; [exact H1 |]. split; [exact H2 |]. now apply H3.
Defined.


(** ** Engagement invariants *)

Section Invariants.

Context {P : Platform}.




Lemma update_ok_rating (i : BookInput) (r : Q) :
  update_ok i = true -> i_rating i = Some r -> rating_ok r = true.
Proof.
  unfold update_ok. rewrite !andb_true_iff. intros [_ H] E.
  now rewrite E in H.
Qed.







End Invariants.




(** ** Requests in flight together *)

Lemma bumps_cons (t : Call) (ts : list Call) :
  bumps (t :: ts) = bumped t + bumps ts.
Proof. reflexivity. Qed.

Lemma bumps_insert (ts : list Call) (i : nat) (t t' : Call) :
  ts !! i = Some t -> bumps (<[i := t']> ts) = bumps ts - bumped t + bumped t'.
Proof.
  revert i. induction ts as [| x ts IH]; intros [| i] H; try discriminate H.
  - injection H as ->. change (<[0%nat := t']> (t :: ts)) with (t' :: ts).
    rewrite !bumps_cons. lia.
  - change (<[S i := t']> (x :: ts)) with (x :: <[i := t']> ts).
    rewrite !bumps_cons, (IH i H). lia.
Qed.

Lemma bumps_all_succeeded (ts : list Call) :
  forallb succeeded ts = true -> bumps ts = Z.of_nat (length ts).
Proof.
  induction ts as [| t ts IH]; cbn [forallb bumps fold_right length].
  - reflexivity.
  - rewrite andb_true_iff. intros [Ht Hts].
    change (fold_right (fun t n => bumped t + n) 0 ts) with (bumps ts).
    rewrite (IH Hts). destruct t; cbn in Ht; try discriminate.
    cbn [bumped]. rewrite Ht. lia.
Qed.

Lemma bumps_not_started (id : N) (ts : list Call) :
  Forall (fun t => exists a, t = ReadStart a id) ts ->
  bumps ts = 0 /\ Forall (read_of id) ts.
Proof.
  induction 1 as [| t ts [a ->] _ [IH1 IH2]]; cbn.
  - split; [reflexivity | constructor].
  - change (fold_right (fun t n => bumped t + n) 0 ts) with (bumps ts).
    split; [lia | now constructor].
Qed.

Section Concurrent.

Context {P : Platform}.

Lemma protect_denied (authorization : option string) (db : Db) (resp : Response) :
  protect authorization db = inl resp -> status resp = 401.
Proof.
  unfold protect. intros H.
  repeat match type of H with
         | context [match ?o with _ => _ end] => destruct o
         end;
    try discriminate H; injection H as <-; reflexivity.
Qed.

(** One step of a read request for [id] adds to [readCount] what it adds
    to [bumped]. *)
Lemma step_read (id : N) (db : Db) (t : Call) (b : Book) :
  read_of id t ->
  books db !! id = Some b ->
  exists b',
    books (fst (step db t)) !! id = Some b'
    /\ readCount b' = readCount b + bumped (snd (step db t)) - bumped t
    /\ read_of id (snd (step db t)).
Proof.
  intros Ht Hb. destruct t as [| | | a i | uid i | uid i doc | resp];
    cbn in Ht; try contradiction; subst; cbn [step].
  - destruct (protect a db) as [resp | [uid u]] eqn:E; cbn.
    + apply protect_denied in E. rewrite E. cbn.
      exists b. split; [exact Hb |]. split; [lia | exact I].
    + exists b. split; [exact Hb |]. split; [lia | reflexivity].
  - rewrite Hb. cbn. rewrite lookup_insert_eq. eexists. split; [reflexivity |].
    cbn. split; [lia | reflexivity].
  - cbn. exists b. split; [exact Hb |]. split; [lia | exact I].
  - cbn. exists b. split; [exact Hb |]. split; [lia | exact I].
Qed.

Lemma run_schedule_reads (id : N) (sched : list nat) :
  forall (db : Db) (ts : list Call) (b : Book),
    Forall (read_of id) ts ->
    books db !! id = Some b ->
    exists b',
      books (fst (run_schedule sched db ts)) !! id = Some b'
      /\ readCount b' - bumps (snd (run_schedule sched db ts))
         = readCount b - bumps ts
      /\ length (snd (run_schedule sched db ts)) = length ts.
Proof.
  induction sched as [| i sched IH]; intros db ts b Hts Hb; cbn [run_schedule].
  - exists b. cbn [fst snd]. split; [exact Hb |]. split; reflexivity.
  - destruct (ts !! i) as [t |] eqn:Hi; [| now apply IH].
    assert (Ht : read_of id t).
    { rewrite Forall_forall in Hts. apply Hts.
      apply list_elem_of_lookup. now exists i. }
    destruct (step_read id db t b Ht Hb) as (b1 & Hb1 & Hc1 & Ht1).
    destruct (step db t) as [db1 t1]. cbn [fst snd] in *.
    destruct (IH db1 (<[i := t1]> ts) b1) as (b' & Hb' & Hc' & Hl').
    + apply Forall_insert; assumption.
    + exact Hb1.
    + exists b'. split; [exact Hb' |].
      rewrite (bumps_insert ts i t t1 Hi) in Hc'.
      rewrite length_insert in Hl'. split; [lia | exact Hl'].
Qed.

(** Reads are not lost: however the steps of [N] read requests for one
    book are interleaved, once all of them have answered 200 the book's
    [readCount] has grown by exactly [N].  The handler increments with a
    single [$inc] update. *)
Theorem concurrent_reads_counted (id : N) (sched : list nat) (db : Db)
  (ts : list Call) (b : Book) :
  books db !! id = Some b ->
  Forall (fun t => exists a, t = ReadStart a id) ts ->
  forallb succeeded (snd (run_schedule sched db ts)) = true ->
  exists b',
    books (fst (run_schedule sched db ts)) !! id = Some b'
    /\ readCount b' = readCount b + Z.of_nat (length ts).
Proof.
  intros Hb Hts Hdone.
  destruct (bumps_not_started id ts Hts) as [H0 Hread].
  destruct (run_schedule_reads id sched db ts b Hread Hb) as (b' & Hb' & Hc & Hl).
  exists b'. split; [exact Hb' |].
  rewrite (bumps_all_succeeded _ Hdone), Hl, H0 in Hc. lia.
Qed.

End Concurrent.

Lemma concurrent_reads_counted_witness :
  exists b',
    books (fst (run_schedule (P := test_platform) [0; 1; 1; 0; 0; 1]%nat unrated_db
                  [ReadStart as_reader 7; ReadStart as_admin 7])) !! 7%N
    = Some b'
    /\ readCount b' = 0 + Z.of_nat 2.
Proof.
  apply (concurrent_reads_counted (P := test_platform) 7 [0; 1; 1; 0; 0; 1]%nat
           unrated_db [ReadStart as_reader 7; ReadStart as_admin 7]
           (sample_book 0 0)).
  - reflexivity.
  - repeat constructor; eexists; reflexivity.
  - reflexivity.
Defined.

(** C5, on the code.  Ratings are lost: two rating requests (5, then 1)
    for one unrated book whose steps alternate both answer 200, yet the
    book ends with [ratingCount = 1] and [rating = 1.0]: the second [save]
    overwrites the first, whose rating is lost.  Run one after the other,
    the same two requests leave [ratingCount = 2] and [rating = 3.0]. *)
Theorem concurrent_ratings_lost_update :
  let ts := [RateStart as_reader 7 (JNumber 5); RateStart as_admin 7 (JNumber 1)] in
  let racy := run_schedule (P := test_platform) [0; 1; 0; 1; 0; 1]%nat unrated_db ts in
  let serial := run_schedule (P := test_platform) [0; 0; 0; 1; 1; 1]%nat unrated_db ts in
  snd racy = [Finished (mkResponse 200 (RatingBody 5 1));
              Finished (mkResponse 200 (RatingBody 1 1))]
  /\ books (fst racy) !! 7%N = Some (sample_book 1 1)
  /\ snd serial = [Finished (mkResponse 200 (RatingBody 5 1));
                   Finished (mkResponse 200 (RatingBody 3 2))]
  /\ books (fst serial) !! 7%N = Some (sample_book 3 2).
Proof. cbv zeta. repeat split; vm_compute; reflexivity. Qed.


(** ** Scenarios of the specification, run on the model *)

Example rating_out_of_range :
  fst (recordRating (P := test_platform) as_reader 7 (JNumber 0) unrated_db)
  = Some (mkResponse 400 (Message "Rating must be between 1 and 5"))
  /\ fst (recordRating (P := test_platform) as_reader 7 (JNumber (501 # 100)) unrated_db)
     = Some (mkResponse 400 (Message "Rating must be between 1 and 5"))
  /\ fst (recordRating (P := test_platform) as_reader 8 (JNumber 4) unrated_db)
     = Some (mkResponse 404 (Message "Book not found."))
  /\ fst (recordRating (P := test_platform) as_reader 7 JNull unrated_db)
     = Some (mkResponse 400 (Message "Rating must be between 1 and 5"))
  /\ fst (recordRating (P := test_platform) as_reader 7 (JString "abc") unrated_db)
     = Some (mkResponse 400 (Message "Rating must be between 1 and 5")).
Proof. repeat split; vm_compute; reflexivity. Qed.

(** What the validator lets through beside numbers: a string that reads
    as a number is concatenated to the product, an empty array passes and
    counts as an empty string, and an array of two ratings makes [NaN],
    which [save] refuses. *)
Example rating_not_a_number :
  let rate (b : Book) (sent : json) :=
    fst (recordRating (P := test_platform) as_reader 7 sent
           (sample_db {[ 7%N := b ]})) in
  rate (sample_book (dbl (12 # 10)) 1) (JString "1")
  = Some (mkResponse 200 (RatingBody (dbl (6 # 10)) 2))
  /\ rate (sample_book 4 1) (JArray [])
     = Some (mkResponse 200 (RatingBody 2 2))
  /\ rate (sample_book 4 1) (JArray [JNumber 4; JNumber 5])
     = Some server_error
  /\ rate (sample_book 5 100) (JString "4") = Some server_error.
Proof. cbv zeta. repeat split; vm_compute; reflexivity. Qed.

Example two_reads :
  let db1 := snd (recordRead (P := test_platform) as_reader 7 unrated_db) in
  fst (recordRead (P := test_platform) as_reader 7 db1)
  = Some (mkResponse 200 (ReadBody "Marked as read" 2))
  /\ readBooks <$> users (snd (recordRead (P := test_platform) as_reader 7 db1)) !! 1%N
     = Some [7%N].
Proof. split; vm_compute; reflexivity. Qed.

Example access_control :
  fst (recordRead (P := test_platform) None 7 unrated_db)
  = Some (mkResponse 401 (Message "Not authorized. No token provided."))
  /\ fst (deleteBook (P := test_platform) as_reader 7 unrated_db)
     = mkResponse 403 (Message "Access denied. Admin only.")
  /\ fst (deleteBook (P := test_platform) as_admin 99 unrated_db)
     = mkResponse 404 (Message "Book not found.")
  /\ fst (deleteBook (P := test_platform) as_admin 7 unrated_db)
     = mkResponse 200 (Message "Book deleted successfully.").
Proof. repeat split; vm_compute; reflexivity. Qed.

Example limit_above_cap :
  limitNum_of (with_paging no_query None (Some "500")) = Num 50
  /\ limitNum_of (with_paging no_query None (Some "0")) = Num 1
  /\ pageNum_of (with_paging no_query (Some "-3") None) = Num 1.
Proof. repeat split; reflexivity. Qed.

(** * Further properties *)

(** ** Catalog administration and single-book reads *)

Section Crud.

Context {P : Platform}.

Lemma admin_route_None (a : option string) (db : Db) :
  admin_route a db = None <-> admin_caller a db.
Proof.
  unfold admin_route, admin_caller, adminOnly. split.
  - destruct (protect a db) as [resp | [uid u]]; [discriminate |].
    destruct (String.eqb_spec (role u) "admin"); [| discriminate].
    intros _. now exists uid, u.
  - intros (uid & u & -> & Hr). now rewrite Hr.
Qed.

Lemma admin_route_refused (a : option string) (db : Db) (resp : Response) :
  admin_route a db = Some resp -> refused resp /\ ~ admin_caller a db.
Proof.
  intros H. split.
  - unfold admin_route, adminOnly in H.
    destruct (protect a db) as [r | [uid u]] eqn:E.
    + injection H as <-. left. now apply protect_denied in E.
    + destruct (String.eqb (role u) "admin"); [discriminate |].
      injection H as <-. now right.
  - intros Hadm. apply admin_route_None in Hadm. congruence.
Qed.

Lemma bookValidation_400 (i : BookInput) (resp : Response) :
  bookValidation i = inl resp -> status resp = 400.
Proof.
  unfold bookValidation. intros H.
  repeat match type of H with
         | context [if ?c then _ else _] => destruct c
         end;
    try discriminate H; injection H as <-; reflexivity.
Qed.


(** X2.  A delete answered 200 removes exactly that book: a read of it
    now answers 404, a repeated delete by the same caller answers 404 and
    changes nothing, and every other identifier reads as before. *)
Theorem delete_then_get (a : option string) (id : N) (db : Db)
  (resp : Response) (db' : Db) :
  deleteBook a id db = (resp, db') ->
  status resp = 200 ->
  getBook id db' = mkResponse 404 (Message "Book not found.")
  /\ deleteBook a id db' = (mkResponse 404 (Message "Book not found."), db')
  /\ (forall j, j <> id -> getBook j db' = getBook j db)
  /\ users db' = users db.
Proof.
  unfold deleteBook. intros H Hs.
  destruct (admin_route a db) as [r |] eqn:Ea.
  { injection H as <- <-. apply admin_route_refused in Ea as [[E | E] _]; lia. }
  destruct (books db !! id) eqn:Hb.
  2: { injection H as <- <-. discriminate Hs. }
  injection H as <- <-.
  change (admin_route a (with_books db (delete id (books db))))
    with (admin_route a db).
  unfold getBook. cbn [books with_books users].
  rewrite Ea, lookup_delete_eq.
  repeat (split; [reflexivity |]). split; [| reflexivity].
  intros j Hj. now rewrite lookup_delete_ne.
Qed.

(** X3.  An update with plain fields only that is answered 200 touched an
    existing book and returns the
    stored document: a read gives the same document; the paths absent from
    the body keep their stored value, [createdAt] always does; the
    document has a genre of the enumeration and a rating within 0..5 when
    the body carries one; every other book is as before. *)
Theorem update_then_get (a : option string) (id : N) (i : BookInput) (db : Db)
  (resp : Response) (db' : Db) :
  updateBook a id i [] db = (resp, db') ->
  status resp = 200 ->
  exists old doc : Book,
    books db !! id = Some old
    /\ body resp = BookBody id doc
    /\ getBook id db' = mkResponse 200 (BookBody id doc)
    /\ createdAt doc = createdAt old
    /\ is_genre (genre doc) = true
    /\ (i_language i = None -> language doc = language old)
    /\ (i_pages i = None -> pages doc = pages old)
    /\ (i_publishedDate i = None -> publishedDate doc = publishedDate old)
    /\ (i_rating i = None -> rating doc = rating old)
    /\ (forall r, i_rating i = Some r -> rating doc = r /\ rating_ok r = true)
    /\ (i_ratingCount i = None -> ratingCount doc = ratingCount old)
    /\ (i_readCount i = None -> readCount doc = readCount old)
    /\ (forall j, j <> id -> getBook j db' = getBook j db)
    /\ users db' = users db.
Proof.
  unfold updateBook. intros H Hs.
  destruct (admin_route a db) as [r |] eqn:Ea.
  { injection H as <- <-. apply admin_route_refused in Ea as [[E | E] _]; lia. }
  destruct (bookValidation i) as [r | i'] eqn:Ev.
  { injection H as <- <-. apply bookValidation_400 in Ev. lia. }
  cbn [conflict negb] in H. rewrite andb_true_r in H. cbn [fold_left] in H.
  destruct (update_ok i') eqn:Hok.
  2: { injection H as <- <-. discriminate Hs. }
  destruct (books db !! id) as [old |] eqn:Hb.
  2: { injection H as <- <-. discriminate Hs. }
  injection H as <- <-. exists old, (apply_update i' old).
  assert (Hi : i_genre i' = i_genre i /\ i_language i' = i_language i
               /\ i_pages i' = i_pages i
               /\ i_publishedDate i' = i_publishedDate i
               /\ i_rating i' = i_rating i
               /\ i_ratingCount i' = i_ratingCount i
               /\ i_readCount i' = i_readCount i
               /\ or_else (i_genre i) "" <> "").
  { unfold bookValidation in Ev.
    repeat match type of Ev with
           | context [if ?c then _ else _] => destruct c eqn:?; try discriminate Ev
           end.
    injection Ev as <-. cbn. repeat (split; [reflexivity |]).
    now apply String.eqb_neq. }
  destruct Hi as (Hg & Hl & Hp & Hd & Hr & Hc & Hrc & Hne).
  unfold getBook. cbn [books with_books users body].
  rewrite lookup_insert_eq.
  repeat (split; [reflexivity |]).
  cbn [apply_update genre language pages publishedDate rating ratingCount readCount].
  rewrite Hg, Hl, Hp, Hd, Hr, Hc, Hrc.
  split.
  { unfold update_ok in Hok. rewrite !andb_true_iff in Hok.
    destruct Hok as [[[_ Hgen] _] _]. rewrite Hg in Hgen.
    destruct (i_genre i) as [g |]; [exact Hgen | now cbn in Hne]. }
  split; [now intros -> |]. split; [now intros -> |].
  split; [now intros -> |]. split; [now intros -> |].
  split.
  { intros r Er. rewrite Er. split; [reflexivity |].
    apply (update_ok_rating i'); [exact Hok | now rewrite Hr]. }
  split; [now intros -> |]. split; [now intros -> |].
  split; [| reflexivity].
  intros j Hj. now rewrite lookup_insert_ne.
Qed.

(** X4.  The three admin mutations are closed to everyone but an
    authenticated admin: for any other caller each of them answers 401 or
    403 and leaves both collections as they were. *)
Theorem admin_mutations_guarded (a : option string) (db : Db) :
  ~ admin_caller a db ->
  (forall i fresh now,
      refused (fst (createBook a i fresh now db))
      /\ snd (createBook a i fresh now db) = db)
  /\ (forall id i ops,
         refused (fst (updateBook a id i ops db))
         /\ snd (updateBook a id i ops db) = db)
  /\ (forall id,
         refused (fst (deleteBook a id db))
         /\ snd (deleteBook a id db) = db).
Proof.
  intros Hna.
  destruct (admin_route a db) as [r |] eqn:Ea.
  2: { exfalso. apply Hna. now apply admin_route_None. }
  apply admin_route_refused in Ea as Hr. destruct Hr as [Hr _].
  unfold createBook, updateBook, deleteBook. rewrite Ea.
  repeat split; exact Hr.
Qed.

End Crud.


Lemma delete_then_get_witness :
  getBook 7 (snd (deleteBook (P := test_platform) as_admin 7 unrated_db))
  = mkResponse 404 (Message "Book not found.").
Proof.
  destruct (delete_then_get (P := test_platform) as_admin 7 unrated_db _ _
              eq_refl eq_refl) as (H & _).
  exact H.
Defined.

Lemma update_then_get_witness :
  exists old doc : Book,
    books unrated_db !! 7%N = Some old
    /\ getBook 7 (snd (updateBook (P := test_platform) as_admin 7
                         negative_count_input [] unrated_db))
       = mkResponse 200 (BookBody 7 doc)
    /\ createdAt doc = createdAt old
    /\ readCount doc = readCount old.
Proof.
  destruct (update_then_get (P := test_platform) as_admin 7 negative_count_input
              unrated_db _ _ eq_refl eq_refl)
    as (old & doc & H1 & _ & H2 & H3 & _ & _ & _ & _ & _ & _ & _ & H4 & _).
  exists old, doc. split; [exact H1 |]. split; [exact H2 |].
  split; [exact H3 |]. now apply H4.
Defined.

Lemma reader_not_admin (bs : gmap N Book) :
  ~ admin_caller (P := test_platform) as_reader (sample_db bs).
Proof.
  intros (uid & u & H & Hr). vm_compute in H. injection H as <- <-.
  discriminate Hr.
Qed.

Lemma admin_mutations_guarded_witness :
  refused (fst (deleteBook (P := test_platform) as_reader 7 unrated_db))
  /\ snd (deleteBook (P := test_platform) as_reader 7 unrated_db) = unrated_db.
Proof.
  destruct (admin_mutations_guarded (P := test_platform) as_reader unrated_db
              (reader_not_admin _)) as (_ & _ & H).
  exact (H 7%N).
Defined.

(** ** Marking a book as read *)

Section Reads.

Context {P : Platform}.

Lemma protect_inr (a : option string) (db : Db) (uid : N) (u : User) :
  protect a db = inr (uid, u) -> users db !! uid = Some u.
Proof.
  unfold protect. destruct (bearer_token a); [| discriminate].
  destruct (jwt_verify _); [| discriminate].
  destruct (users db !! _) eqn:E; [| discriminate].
  now intros [= <- <-].
Qed.

Lemma addToSet_In (x : N) (l : list N) : In x (addToSet x l).
Proof.
  unfold addToSet. destruct (existsb (N.eqb x) l) eqn:E.
  - apply existsb_exists in E as (y & Hy & Hxy).
    apply N.eqb_eq in Hxy. now subst.
  - apply in_or_app. right. now left.
Qed.

Lemma addToSet_present (x : N) (l : list N) : In x l -> addToSet x l = l.
Proof.
  intros H. unfold addToSet.
  replace (existsb (N.eqb x) l) with true; [reflexivity |].
  symmetry. apply existsb_exists. exists x. split; [exact H | apply N.eqb_refl].
Qed.

Lemma addToSet_NoDup (x : N) (l : list N) :
  List.NoDup l -> List.NoDup (addToSet x l).
Proof.
  intros H. unfold addToSet. destruct (existsb (N.eqb x) l) eqn:E; [exact H |].
  apply NoDup_ListNoDup, NoDup_app. repeat split.
  - now apply NoDup_ListNoDup.
  - intros y Hy Hy'. apply list_elem_of_In in Hy.
    apply list_elem_of_In in Hy' as [<- | []].
    assert (existsb (N.eqb x) l = true); [| congruence].
    apply existsb_exists. exists x. split; [exact Hy | apply N.eqb_refl].
  - apply NoDup_ListNoDup. repeat constructor. intros [].
Qed.

(** X5.  A read answered 200 was made by an authenticated user on an
    existing book; it raised that book's [readCount] by one and left its
    other fields and every other book alone, the answer carries the new
    count, and the book is now in the caller's [readBooks], no other user
    being touched. *)
Theorem recordRead_effect (a : option string) (id : N) (db : Db)
  (resp : Response) (db' : Db) :
  recordRead a id db = (Some resp, db') ->
  status resp = 200 ->
  exists uid u b,
    protect a db = inr (uid, u)
    /\ books db !! id = Some b
    /\ body resp = ReadBody "Marked as read" (readCount b + 1)
    /\ books db' = <[id := set_readCount b (readCount b + 1)]> (books db)
    /\ users db' !! uid = Some (add_read u id)
    /\ In id (readBooks (add_read u id))
    /\ (forall j, j <> uid -> users db' !! j = users db !! j).
Proof.
  unfold recordRead, serve, steps. cbn [step]. intros H Hs.
  destruct (protect a db) as [r | [uid u]] eqn:Ep.
  { cbn in H. injection H as <- <-. apply protect_denied in Ep. lia. }
  cbn [step] in H. destruct (books db !! id) as [b |] eqn:Hb.
  2: { cbn in H. injection H as <- <-. discriminate Hs. }
  cbn in H. injection H as <- <-. exists uid, u, b.
  apply protect_inr in Ep as Hu.
  repeat (split; [reflexivity |]). cbn [users with_users with_books].
  split; [now rewrite lookup_alter_eq, Hu |].
  split; [apply addToSet_In |].
  intros j Hj. now rewrite lookup_alter_ne.
Qed.

(** X6.  [readBooks] is a set while [readCount] is a count: a read never
    puts a duplicate into any user's [readBooks], and a user who reads a
    book already in the set leaves the set as it is although the book's
    [readCount] grows again. *)
Theorem recordRead_set_and_count (a : option string) (id : N) (db : Db) :
  (forall uid u, users db !! uid = Some u -> List.NoDup (readBooks u)) ->
  (forall uid u, users (snd (recordRead a id db)) !! uid = Some u ->
                 List.NoDup (readBooks u))
  /\ (forall uid u b,
         protect a db = inr (uid, u) -> books db !! id = Some b ->
         In id (readBooks u) ->
         users (snd (recordRead a id db)) = users db
         /\ books (snd (recordRead a id db)) !! id
            = Some (set_readCount b (readCount b + 1))).
Proof.
  intros Hnd. unfold recordRead, serve, steps. cbn [step]. split.
  - destruct (protect a db) as [r | [uid0 u0]] eqn:Ep; [exact Hnd |].
    cbn [step]. destruct (books db !! id) as [b |]; [| exact Hnd].
    cbn. intros uid u. rewrite lookup_alter.
    destruct (decide (uid0 = uid)) as [-> |]; [| apply Hnd].
    destruct (users db !! uid) as [u1 |] eqn:E; [| discriminate].
    intros [= <-]. cbn. apply addToSet_NoDup. now apply (Hnd uid).
  - intros uid u b Ep Hb Hin. rewrite Ep. cbn [step]. rewrite Hb. cbn.
    split; [| apply lookup_insert_eq].
    apply map_eq. intros j. rewrite lookup_alter.
    destruct (decide (uid = j)) as [<- |]; [| reflexivity].
    rewrite (protect_inr _ _ _ _ Ep). cbn. f_equal.
    unfold add_read. rewrite (addToSet_present _ _ Hin). now destruct u.
Qed.

Ltac served :=
  repeat (cbn [steps_with step response_of]; unfold step_with;
          cbn [steps_with step response_of];
          unfold protect;
          match goal with
          | |- context [bearer_token ?a] => destruct (bearer_token a) eqn:?
          | |- context [jwt_verify ?t] => destruct (jwt_verify t) eqn:?
          | |- context [users ?d !! ?i] => destruct (users d !! i) eqn:?
          | |- context [rating_valid ?s] => destruct (rating_valid s) eqn:?
          | |- context [rate_update ?b ?s] => destruct (rate_update b s) eqn:?
          | |- context [save_rating ?i ?d ?b] =>
              destruct (save_rating i d b) eqn:?
          | |- context [books ?d !! ?i] => destruct (books d !! i) eqn:?
          end);
  cbn [steps_with step response_of]; unfold step_with;
  cbn [steps_with step response_of].

(** X7.  Whatever operation the store rejects, a rating request that is
    not answered 200 changes neither collection.  A read request that is
    not answered 200 changes no user, and changes no book either but in
    one case: when the store rejects the update of the user after the
    [$inc] of the book has been applied, the answer is 500 and the book
    keeps its raised [readCount]. *)
Theorem failed_engagement_effect (a : option string) (id : N) (db : Db)
  (r1 r2 r3 : bool) :
  (forall sent resp db',
      serve_with r1 r2 r3 (RateStart a id sent) db = (Some resp, db') ->
      status resp <> 200 -> db' = db)
  /\ (forall resp db',
         serve_with r1 r2 r3 (ReadStart a id) db = (Some resp, db') ->
         status resp <> 200 ->
         users db' = users db
         /\ (db' = db
             \/ (r1 = false /\ r2 = false /\ r3 = true
                 /\ resp = server_error
                 /\ exists b,
                      books db !! id = Some b
                      /\ books db'
                         = <[id := set_readCount b (readCount b + 1)]> (books db))))
  /\ (forall b,
         authenticated a db -> books db !! id = Some b ->
         serve_with false false true (ReadStart a id) db
         = (Some server_error,
            with_books db (<[id := set_readCount b (readCount b + 1)]> (books db)))).
Proof.
  split; [| split].
  - intros sent resp db'. unfold serve_with. destruct r1, r2, r3; served.
    all: intros [= <- <-] H; try reflexivity; now contradiction H.
  - intros resp db'. unfold serve_with. destruct r1, r2, r3; served.
    all: intros [= <- <-] H; try (now contradiction H);
      (split; [reflexivity |]); try (now left).
    right. repeat (split; [reflexivity |]). eexists. split; reflexivity.
  - intros b [who Hauth] Hb. unfold serve_with, steps_with.
    cbn [step_with step]. rewrite Hauth. destruct who as [uid u].
    cbn [step]. rewrite Hb. reflexivity.
Qed.

End Reads.

Lemma recordRead_effect_witness :
  exists uid u b,
    protect (P := test_platform) as_reader unrated_db = inr (uid, u)
    /\ books unrated_db !! 7%N = Some b
    /\ books (snd (recordRead (P := test_platform) as_reader 7 unrated_db))
       = <[7%N := set_readCount b (readCount b + 1)]> (books unrated_db)
    /\ In 7%N (readBooks (add_read u 7)).
Proof.
  destruct (recordRead_effect (P := test_platform) as_reader 7 unrated_db _ _
              eq_refl eq_refl)
    as (uid & u & b & H1 & H2 & _ & H3 & _ & H4 & _).
  exists uid, u, b. split; [exact H1 |]. split; [exact H2 |].
  split; [exact H3 | exact H4].
Defined.

Lemma sample_users_NoDup (bs : gmap N Book) (uid : N) (u : User) :
  users (sample_db bs) !! uid = Some u -> List.NoDup (readBooks u).
Proof.
  cbn. unfold sample_users. rewrite lookup_insert.
  destruct (decide (2%N = uid)); [intros [= <-]; constructor |].
  rewrite lookup_insert.
  destruct (decide (1%N = uid)); [intros [= <-]; constructor |].
  now rewrite lookup_empty.
Qed.

Lemma recordRead_set_and_count_witness :
  users (snd (recordRead (P := test_platform) as_reader 7 unrated_db)) !! 1%N
  = Some (add_read reader 7)
  /\ List.NoDup (readBooks (add_read reader 7)).
Proof.
  split; [reflexivity |].
  apply (proj1 (recordRead_set_and_count (P := test_platform) as_reader 7
                  unrated_db (sample_users_NoDup _)) 1%N).
  reflexivity.
Defined.

(** ** Login and the bearer token *)

Lemma rev_string_rev (t a b : string) :
  rev_string (rev_string t a) b = rev_string a (t ++ b).
Proof.
  revert a. induction t as [| c t IH]; intros a; cbn.
  - reflexivity.
  - now rewrite IH.
Qed.

Lemma string_app_nil (t : string) : t ++ "" = t.
Proof.
  induction t as [| c t IH]; [reflexivity |].
  change (String c t ++ "") with (String c (t ++ "")). now rewrite IH.
Qed.

Lemma split_space_no_space (t cur : string) :
  no_space t -> split_space t cur = [rev_string (rev_string t cur) ""].
Proof.
  revert cur. induction t as [| c t IH]; intros cur H; cbn.
  - reflexivity.
  - inversion H as [| ? ? Hc Ht]; subst. rewrite Hc. now apply IH.
Qed.

Lemma bearer_token_Bearer (t : string) :
  t <> "" -> no_space t -> bearer_token (Some ("Bearer " ++ t)) = Some t.
Proof.
  intros Hne Hns. unfold bearer_token.
  assert (Hp : String.prefix "Bearer " ("Bearer " ++ t) = true)
    by (apply String.prefix_correct; destruct t; reflexivity).
  rewrite Hp.
  change (split_space ("Bearer " ++ t) "") with ("Bearer" :: split_space t "").
  cbn [nth_error]. rewrite (split_space_no_space t "" Hns). cbn [nth_error].
  rewrite rev_string_rev. cbn [rev_string]. rewrite string_app_nil.
  destruct t; [congruence | reflexivity].
Qed.

Lemma interceptor_Some (t : string) :
  t <> "" -> interceptor (Some t) = Some ("Bearer " ++ t).
Proof. destruct t; [congruence | reflexivity]. Qed.

Section Login.

Context {P : Platform} {S : Services}.

Lemma findOne_email_Some (e : string) (us : gmap N User) (id : N) (u : User) :
  findOne_email e us = Some (id, u) -> us !! id = Some u /\ email u = e.
Proof.
  unfold findOne_email. intros H. apply find_some in H as [Hin He].
  split.
  - now apply list_elem_of_In, elem_of_map_to_list in Hin.
  - now apply String.eqb_eq in He.
Qed.

(** X8.  Login has three outcomes: 400 when a validator fails; 200 with a
    token for a stored user who has the given email and whose stored
    password verifies the given one; and otherwise one and the same 401
    answer, whether the email is unknown or a password does not verify. *)
Theorem login_outcomes (e pw : option string) (now : Z) (db : Db) :
  (exists resp, login_validation e pw = Some resp
                /\ login e pw now db = resp /\ status resp = 400)
  \/ (login_validation e pw = None
      /\ login e pw now db = mkResponse 401 (Message "Invalid email or password.")
      /\ ((forall id u, users db !! id = Some u -> email u <> or_else e "")
          \/ (exists id u, users db !! id = Some u
                           /\ email u = or_else e ""
                           /\ comparePassword (or_else pw "") (password u) = false)))
  \/ (login_validation e pw = None
      /\ exists id u,
           users db !! id = Some u
           /\ email u = or_else e ""
           /\ comparePassword (or_else pw "") (password u) = true
           /\ login e pw now db
              = mkResponse 200
                  (AuthBody (jwt_sign id now) id (name u) (email u) (role u))).
Proof.
  unfold login. destruct (login_validation e pw) as [resp |] eqn:Ev.
  - left. exists resp. repeat split.
    unfold login_validation in Ev.
    repeat match type of Ev with
           | context [if ?c then _ else _] => destruct c
           end;
      try discriminate Ev; injection Ev as <-; reflexivity.
  - right.
    destruct (findOne_email (or_else e "") (users db)) as [[id u] |] eqn:Ef.
    + apply findOne_email_Some in Ef as [Hu He].
      destruct (comparePassword (or_else pw "") (password u)) eqn:Ec.
      * right. split; [reflexivity |]. now exists id, u.
      * left. split; [reflexivity |]. split; [reflexivity |].
        right. now exists id, u.
    + left. split; [reflexivity |]. split; [reflexivity |].
      left. intros id u Hu He.
      destruct (findOne_email_found _ _ id u Hu He) as [p Hp]. congruence.
Qed.

Lemma char_count_nonempty (s : string) : 6 <= char_count s -> s <> "".
Proof. intros H ->. vm_compute in H. now apply H. Qed.

(** X9.  Register, then log in: when [comparePassword] accepts a password
    against its own hash, a registration answered 201 can be followed, at
    any later time, by a login with the same email and password, which
    answers 200 with the same identifier, name, email and role, and with
    a token for that identifier signed at the time of the login. *)
Theorem register_then_login (b : RegisterBody) (fresh : N) (now now' : Z)
  (db : Db) (resp : Response) (db' : Db) :
  (forall pw, comparePassword pw (hash_password pw) = true) ->
  register b fresh now db = (resp, db') ->
  status resp = 201 ->
  exists n e r : string,
    body resp = AuthBody (jwt_sign fresh now) fresh n e r
    /\ login (r_email b) (r_password b) now' db'
       = mkResponse 200 (AuthBody (jwt_sign fresh now') fresh n e r).
Proof.
  intros Hcmp H Hs. unfold register in H.
  destruct (register_validation b) as [r |] eqn:Ev.
  { injection H as <- <-. apply register_validation_400 in Ev. lia. }
  destruct (findOne_email _ (users db)) as [p |] eqn:Ef.
  { injection H as <- <-. discriminate Hs. }
  unfold User_create in H. destruct (users db !! fresh) eqn:Hfresh.
  { injection H as <- <-. discriminate Hs. }
  injection H as <- <-.
  set (e := or_else (r_email b) "") in *.
  set (u := mkUser _ e _ _ _).
  exists (name u), (email u), (role u). split; [reflexivity |].
  assert (Hv : login_validation (r_email b) (r_password b) = None).
  { unfold register_validation in Ev. unfold login_validation.
    destruct (String.eqb _ _); [discriminate |].
    destruct (isEmail (or_else (r_email b) "")); [cbn in * | discriminate].
    destruct (char_count (or_else (r_password b) "") <? 6) eqn:Ec;
      [discriminate |].
    apply Z.ltb_ge, char_count_nonempty, String.eqb_neq in Ec. now rewrite Ec. }
  unfold login. rewrite Hv. cbn [users with_users]. fold e.
  destruct (findOne_email_found e (<[fresh := u]> (users db)) fresh u)
    as [[id' u'] Hp]; [apply lookup_insert_eq | reflexivity |].
  rewrite Hp. apply findOne_email_Some in Hp as [Hu' He'].
  destruct (decide (fresh = id')) as [<- | Hne].
  - rewrite lookup_insert_eq in Hu'. injection Hu' as <-.
    cbn [password u]. now rewrite Hcmp.
  - rewrite lookup_insert_ne in Hu' by exact Hne.
    destruct (findOne_email_found e (users db) id' u' Hu' He') as [p Hp'].
    congruence.
Qed.

(** X10.  The header the front end builds from a stored token is read
    back by [protect]: a non-empty token without a space comes out as it
    went in; with no token, or an empty one, no header is sent and
    [protect] answers 401 "No token provided". *)
Theorem bearer_round_trip (db : Db) :
  (forall t, t <> "" -> no_space t -> bearer_token (interceptor (Some t)) = Some t)
  /\ (forall t, t = None \/ t = Some "" ->
                interceptor t = None
                /\ protect (interceptor t) db
                   = inl (mkResponse 401
                            (Message "Not authorized. No token provided."))).
Proof.
  split.
  - intros t Hne Hns. rewrite (interceptor_Some _ Hne).
    now apply bearer_token_Bearer.
  - intros t [-> | ->]; split; reflexivity.
Qed.

(** X11.  Register, then call [/me]: when [jwt.verify] reads back what
    [jwt.sign] wrote and the token is non-empty and has no space, the token
    of a registration answered 201, sent the way the front end sends it,
    gives [/me] the identifier, name, email, role and books read of the
    user just created, and not the password. *)
Theorem register_then_me (b : RegisterBody) (fresh : N) (now : Z) (db : Db)
  (resp : Response) (db' : Db) :
  jwt_verify (jwt_sign fresh now) = Some fresh ->
  jwt_sign fresh now <> "" ->
  no_space (jwt_sign fresh now) ->
  register b fresh now db = (resp, db') ->
  status resp = 201 ->
  exists u,
    users db' !! fresh = Some u
    /\ body resp = AuthBody (jwt_sign fresh now) fresh (name u) (email u) (role u)
    /\ me (interceptor (Some (jwt_sign fresh now))) db'
       = inr (mkProfile fresh (name u) (email u) (role u) []).
Proof.
  intros Hjwt Hne Hns H Hs. unfold register in H.
  destruct (register_validation b) as [r |] eqn:Ev.
  { injection H as <- <-. apply register_validation_400 in Ev. lia. }
  destruct (findOne_email _ (users db)) as [p |] eqn:Ef.
  { injection H as <- <-. discriminate Hs. }
  unfold User_create in H. destruct (users db !! fresh) eqn:Hfresh.
  { injection H as <- <-. discriminate Hs. }
  injection H as <- <-. eexists. cbn [users with_users body].
  split; [apply lookup_insert_eq |]. split; [reflexivity |].
  unfold me, protect. rewrite (interceptor_Some _ Hne).
  rewrite (bearer_token_Bearer (jwt_sign fresh now) Hne Hns), Hjwt.
  cbn [users with_users]. now rewrite lookup_insert_eq.
Qed.

End Login.

(** Registered at time 0, logged in at time 60: the two tokens differ. *)
Lemma register_then_login_witness :
  exists n e r : string,
    body (fst (register (P := session_platform) eve 9 0 unrated_db))
    = AuthBody "9.0" 9 n e r
    /\ login (P := session_platform) (S := test_services) (r_email eve)
         (r_password eve) 60
         (snd (register (P := session_platform) eve 9 0 unrated_db))
       = mkResponse 200 (AuthBody "9.60" 9 n e r).
Proof.
  apply (register_then_login (P := session_platform) (S := test_services) eve 9
           0 60 unrated_db
           (fst (register (P := session_platform) eve 9 0 unrated_db))
           (snd (register (P := session_platform) eve 9 0 unrated_db))).
  - intros pw. apply String.eqb_refl.
  - reflexivity.
  - reflexivity.
Defined.

Lemma register_then_me_witness :
  exists u,
    users (snd (register (P := session_platform) eve 9 0 unrated_db)) !! 9%N = Some u
    /\ me (P := session_platform) (interceptor (Some "9.0"))
          (snd (register (P := session_platform) eve 9 0 unrated_db))
       = inr (mkProfile 9 (name u) (email u) (role u) []).
Proof.
  destruct (register_then_me (P := session_platform) eve 9 0 unrated_db
              (fst (register (P := session_platform) eve 9 0 unrated_db))
              (snd (register (P := session_platform) eve 9 0 unrated_db)))
    as (u & H1 & _ & H2); try reflexivity.
  - discriminate.
  - repeat constructor.
  - exists u. split; [exact H1 | exact H2].
Defined.

(** ** More on the list query *)



Lemma StronglySorted_lookup {A : Type} (R : A -> A -> Prop) (l : list A) :
  StronglySorted R l ->
  forall (i j : nat) (x y : A),
    (i < j)%nat -> l !! i = Some x -> l !! j = Some y -> R x y.
Proof.
  induction 1 as [| a l Hl IH Ha]; intros i j x y Hij Hi Hj.
  - discriminate.
  - destruct j as [| j]; [lia |]. destruct i as [| i]; cbn in Hi, Hj.
    + injection Hi as <-. rewrite List.Forall_forall in Ha. apply Ha.
      apply list_elem_of_In, list_elem_of_lookup. now exists j.
    + apply (IH i j); [lia | assumption | assumption].
Qed.

Section Listing2.

Context {P : Platform}.

Lemma truthy_idem (o : option string) : truthy (truthy o) = truthy o.
Proof. destruct o as [[| c s] |]; reflexivity. Qed.

(** What a query answered 200 was answered. *)
Lemma listBooks_200 {Pok : PlatformOk P}
  (q : Query) (plan : Plan) (db : Db) (bs : list (N * Book)) (pg : Pagination) :
  numeric (q_page q) ->
  numeric (q_limit q) ->
  listBooks q plan db = mkResponse 200 (ListBody bs pg) ->
  usable q
  /\ exists (S : list (N * Book)) (l k : nat),
       mongo_sort plan (sort_field q) (sort_asc q) (matching q db) = Some S
       /\ bs = chunk l S k.
Proof.
  intros Hpage Hlimit H.
  destruct (parsed_numeric _ 1 Hpage) as [pn Hp].
  destruct (parsed_numeric _ 12 Hlimit) as [ln Hl].
  destruct (listBooks_cases q plan db pn ln Hp Hl) as [[E _] | (Hu & S & ES & E)];
    rewrite E in H; [discriminate H |].
  injection H as <- _. split; [exact Hu |]. eexists S, _, _. split; [exact ES | reflexivity].
Qed.

(** X12.  Every book of a page satisfies every filter of the query: it is
    a stored book; it matches the text search and the author pattern; its
    genre and language are the ones asked for; its rating is at least
    [minRating]; and when a date bound is given it has a [publishedDate]
    within the bound (a book without one is left out). *)
Theorem listBooks_filters_sound {Pok : PlatformOk P}
  (q : Query) (plan : Plan) (db : Db) (bs : list (N * Book)) (pg : Pagination) :
  numeric (q_page q) ->
  numeric (q_limit q) ->
  listBooks q plan db = mkResponse 200 (ListBody bs pg) ->
  Forall (fun d =>
            books db !! fst d = Some (snd d)
            /\ (forall s, truthy (q_search q) = Some s ->
                          text_search s (snd d) = true)
            /\ (forall g, truthy (q_genre q) = Some g -> genre (snd d) = g)
            /\ (forall s, truthy (q_author q) = Some s ->
                          exists re, regex_compile s = Some re
                                     /\ re (author (snd d)) = true)
            /\ (forall l, truthy (q_language q) = Some l -> language (snd d) = l)
            /\ (forall s, truthy (q_minRating q) = Some s ->
                          parseFloat s <> Nan
                          /\ le64 (parseFloat s) (Finite (rating (snd d))) = true)
            /\ (forall s, truthy (q_publishedFrom q) = Some s ->
                          exists t x, parseDate s = Some t
                                      /\ publishedDate (snd d) = Some x /\ t <= x)
            /\ (forall s, truthy (q_publishedTo q) = Some s ->
                          exists t x, parseDate s = Some t
                                      /\ publishedDate (snd d) = Some x /\ x <= t))
         bs.
Proof.
  intros Hpage Hlimit H.
  destruct (listBooks_200 q plan db bs pg Hpage Hlimit H)
    as ((_ & Um & _ & _) & S & l & k & ES & ->).
  pose proof (sort_perm _ _ _ _ _ ES) as Hperm.
  apply Forall_forall. intros d Hd.
  apply list_elem_of_In, chunk_incl in Hd.
  apply (Permutation_in _ Hperm), matching_In in Hd as [Hstored Hm].
  split; [exact Hstored |].
  unfold satisfies in Hm. rewrite !andb_true_iff in Hm.
  destruct Hm as [[[[[[M1 M2] M3] M4] M5] M6] M7].
  split; [intros s Es; now rewrite Es in M1 |].
  split; [intros g Eg; rewrite Eg in M2; now apply String.eqb_eq in M2 |].
  split.
  { intros s Es. rewrite Es in M3. cbn in M3.
    destruct (regex_compile s) as [re |]; [now exists re | discriminate]. }
  split; [intros l0 El; rewrite El in M4; now apply String.eqb_eq in M4 |].
  split.
  { intros s Es. rewrite Es in M5. split; [now apply Um | exact M5]. }
  split.
  - intros s Es. rewrite Es in M6. cbn in M6.
    destruct (parseDate s) as [t |]; [| discriminate].
    destruct (publishedDate (snd d)) as [x |]; [| discriminate].
    exists t, x. repeat split. lia.
  - intros s Es. rewrite Es in M7. cbn in M7.
    destruct (parseDate s) as [t |]; [| discriminate].
    destruct (publishedDate (snd d)) as [x |]; [| discriminate].
    exists t, x. repeat split. lia.
Qed.

(** X13.  An empty filter parameter ([genre=], [search=], ...) is as good
    as an absent one: the answer is the same.  An empty [page] or [limit]
    is not: it parses to [NaN], where the absent one defaults to 1 or 12. *)
Theorem blank_parameters (q : Query) (plan : Plan) (db : Db) :
  listBooks (drop_blank q) plan db = listBooks q plan db
  /\ (q_page q = Some "" -> pageNum_of q = NaN)
  /\ (q_limit q = Some "" -> limitNum_of q = NaN).
Proof.
  split.
  - unfold listBooks.
    assert (Hf : build_filter (drop_blank q) = build_filter q)
      by (unfold build_filter, drop_blank; cbn; now rewrite !truthy_idem).
    rewrite Hf. reflexivity.
  - unfold pageNum_of, limitNum_of. split; intros ->; reflexivity.
Qed.


End Listing2.

Lemma listBooks_filters_sound_witness :
  Forall (fun d => genre (snd d) = "Science Fiction")
    [(2%N, sample_book 4 1); (1%N, sample_book 4 1)].
Proof.
  pose proof (listBooks_filters_sound (P := test_platform) (Pok := test_platform_ok)
                (with_genre no_query (Some "Science Fiction")) 0%N tie_db
                [(2%N, sample_book 4 1); (1%N, sample_book 4 1)]
                (mkPagination 2 (Num 1) (Num 12) (Num 1)) I I eq_refl) as H.
  eapply Forall_impl; [exact H |].
  intros d (_ & _ & Hg & _). now apply Hg.
Defined.


(** ** The admin listing and the insights *)

Lemma StronglySorted_app_cross {A : Type} (R : A -> A -> Prop) (l1 l2 : list A) :
  StronglySorted R (l1 ++ l2)%list ->
  forall x y, In x l1 -> In y l2 -> R x y.
Proof.
  induction l1 as [| a l1 IH]; cbn; intros H x y Hx Hy; [contradiction |].
  inversion H as [| ? ? Hl Ha]; subst. destruct Hx as [<- | Hx].
  - rewrite List.Forall_forall in Ha. apply Ha, in_or_app. now right.
  - now apply IH.
Qed.

Lemma sum_reads_perm (l1 l2 : list (N * Book)) :
  Permutation l1 l2 -> sum_reads l1 = sum_reads l2.
Proof. unfold sum_reads. induction 1; cbn; lia. Qed.

Lemma sum_counts_perm (l1 l2 : list GenreStat) :
  Permutation l1 l2 ->
  sum_counts l1 = sum_counts l2 /\ sum_totalReads l1 = sum_totalReads l2.
Proof. unfold sum_counts, sum_totalReads. induction 1; cbn; lia. Qed.

Lemma add_stat_sums (g : string) (r : Z) (gs : list GenreStat) :
  sum_counts (add_stat g r gs) = sum_counts gs + 1
  /\ sum_totalReads (add_stat g r gs) = sum_totalReads gs + r.
Proof.
  unfold sum_counts, sum_totalReads.
  induction gs as [| s gs [IH1 IH2]]; cbn.
  - lia.
  - destruct (String.eqb (g_id s) g); cbn; lia.
Qed.

Lemma add_stat_ids (g : string) (r : Z) (gs : list GenreStat) (x : string) :
  In x (map g_id (add_stat g r gs)) <-> x = g \/ In x (map g_id gs).
Proof.
  induction gs as [| s gs IH]; cbn.
  - intuition.
  - destruct (String.eqb_spec (g_id s) g) as [E | E]; cbn.
    + rewrite E. intuition.
    + rewrite IH. intuition.
Qed.

Lemma add_stat_NoDup (g : string) (r : Z) (gs : list GenreStat) :
  List.NoDup (map g_id gs) -> List.NoDup (map g_id (add_stat g r gs)).
Proof.
  induction gs as [| s gs IH]; cbn; intros H.
  - repeat constructor. intros [].
  - inversion H as [| ? ? Hs Hgs]; subst.
    destruct (String.eqb_spec (g_id s) g) as [E | E]; cbn.
    + rewrite <- E. now constructor.
    + constructor; [| now apply IH].
      rewrite add_stat_ids. intros [E' | Hin]; [congruence | contradiction].
Qed.

Lemma add_stat_positive (g : string) (r : Z) (gs : list GenreStat) :
  List.Forall (fun s => 1 <= g_count s) gs ->
  List.Forall (fun s => 1 <= g_count s) (add_stat g r gs).
Proof.
  induction 1 as [| s gs Hs Hgs IH]; cbn.
  - repeat constructor. cbn. lia.
  - destruct (String.eqb (g_id s) g); constructor; cbn; try assumption; lia.
Qed.

Lemma group_genres_facts (docs : list (N * Book)) :
  sum_counts (group_genres docs) = Z.of_nat (length docs)
  /\ sum_totalReads (group_genres docs) = sum_reads docs
  /\ List.NoDup (map g_id (group_genres docs))
  /\ List.Forall (fun s => 1 <= g_count s) (group_genres docs)
  /\ (forall g, In g (map g_id (group_genres docs))
                <-> exists d, In d docs /\ genre (snd d) = g).
Proof.
  induction docs as [| d docs (IH1 & IH2 & IH3 & IH4 & IH5)].
  - cbn. repeat split; try constructor; try contradiction.
    now intros (d & [] & _).
  - cbn [group_genres fold_right length sum_reads].
    fold (group_genres docs). fold (sum_reads docs).
    destruct (add_stat_sums (genre (snd d)) (readCount (snd d)) (group_genres docs))
      as [H1 H2].
    split; [lia |]. split; [lia |].
    split; [now apply add_stat_NoDup |].
    split; [now apply add_stat_positive |].
    intros g. rewrite add_stat_ids, IH5. split.
    + intros [-> | (d' & Hd' & Hg)]; [exists d | exists d']; cbn; auto.
    + intros (d' & [<- | Hd'] & Hg); [now left | right; now exists d'].
Qed.

Section Admin.

Context {P : Platform} {S : Services}.

(** X15.  The admin listing has no cap on [limit] and defaults to 20:
    for an admin caller, a [page] of at least 1 and a [limit] of at least 1
    (with [page * limit < 2^53]) give [total], the number of stored books
    that the search finds (all of them without a search),
    [totalPages = ceil (total / limit)], and the slice of [limit] books at
    [page] of a sequence that holds each of those books once, newest
    first. *)
Theorem adminBooks_pagination {Pok : PlatformOk P}
  (a : option string) (page limit search : option string) (plan : Plan)
  (db : Db) (p l : Z) :
  admin_caller a db ->
  parsed page 1 = Num p -> 1 <= p ->
  parsed limit 20 = Num l -> 1 <= l ->
  p * l < 2 ^ 53 ->
  let total := Z.of_nat (length (searched search db)) in
  let tp := Math_ceil_div total l in
  exists (bs S : list (N * Book)),
    adminBooks a page limit search plan db
    = inr (mkAdminList bs total (Num p) (Num tp))
    /\ Permutation S (searched search db)
    /\ bs = firstn (Z.to_nat l) (skipn (Z.to_nat ((p - 1) * l)) S)
    /\ Z.of_nat (length bs) = Z.min l (Z.max 0 (total - (p - 1) * l))
    /\ (tp - 1) * l < total <= tp * l
    /\ (truthy search = None -> total = Z.of_nat (size (books db)))
    /\ Forall (fun d => books db !! fst d = Some (snd d)
                        /\ forall s, truthy search = Some s ->
                                     text_search s (snd d) = true) bs
    /\ (forall (i j : nat) (x y : N * Book),
           (i < j)%nat -> S !! i = Some x -> S !! j = Some y ->
           createdAt (snd y) <= createdAt (snd x)).
Proof.
  intros Ha Hp Hp1 Hl Hl1 _ total tp. apply admin_route_None in Ha.
  unfold adminBooks. rewrite Ha, Hp, Hl.
  cbn [js_sub js_mul].
  assert (Ef : List.filter (fun d => match truthy search with
                                     | Some s => text_search s (snd d)
                                     | None => true
                                     end) (map_to_list (books db))
               = searched search db) by reflexivity.
  rewrite Ef. fold total.
  destruct (mongo_sort plan "createdAt" false (searched search db))
    as [S0 |] eqn:ES; [| now apply sort_accepts in ES].
  pose proof (sort_perm _ _ _ _ _ ES) as Hperm.
  assert (Hk : 0 <= (p - 1) * l) by nia.
  replace ((0 <=? (p - 1) * l) && (1 <=? l)) with true
    by (symmetry; apply andb_true_iff; split; apply Z.leb_le; lia).
  replace (l =? 0) with false by (symmetry; apply Z.eqb_neq; lia).
  eexists _, S0. split; [reflexivity |]. split; [exact Hperm |].
  split; [reflexivity |].
  split.
  { rewrite length_firstn, length_skipn, (Permutation_length Hperm).
    unfold total. lia. }
  split; [apply Math_ceil_div_spec; lia |].
  split.
  { intros Hs. unfold total, searched. rewrite Hs.
    rewrite <- length_map_to_list. f_equal. f_equal.
    apply forallb_filter_id. now apply forallb_forall. }
  split.
  { apply Forall_forall. intros d Hd.
    assert (Hin : In d S0).
    { apply list_elem_of_In in Hd.
      rewrite <- (firstn_skipn (Z.to_nat ((p - 1) * l)) S0).
      apply in_or_app. right.
      rewrite <- (firstn_skipn (Z.to_nat l) (skipn _ S0)).
      apply in_or_app. now left. }
    apply (Permutation_in _ Hperm) in Hin.
    unfold searched in Hin. apply filter_In in Hin as [Hin Hm].
    apply list_elem_of_In in Hin. destruct d as [i b].
    split; [now apply elem_of_map_to_list in Hin |].
    intros s Es. now rewrite Es in Hm. }
  assert (Hs : StronglySorted (fun x y => doc_le "createdAt" false x y = true) S0).
  { apply Sorted_StronglySorted; [now apply doc_le_trans |].
    apply (sort_sorted _ _ _ _ _ ES). }
  intros i j x y Hij Hi Hj.
  pose proof (StronglySorted_lookup _ _ Hs i j x y Hij Hi Hj) as Hxy.
  cbn in Hxy. lia.
Qed.

(** X16.  The figures of the insights agree with one another: [totalBooks]
    is the number of stored books and [totalReads] the sum of their
    [readCount]s; the genre breakdown has one group for each genre in use
    and no other, each counting at least one book; its counts add up to
    [totalBooks] and its reads to [totalReads]. *)
Theorem insights_totals {Sok : ServicesOk S}
  (a : option string) (plan : nat -> Plan) (db : Db) (ins : Insights) :
  insights a plan db = inr ins ->
  totalBooks ins = Z.of_nat (size (books db))
  /\ totalReads ins = sum_reads (map_to_list (books db))
  /\ sum_counts (genreBreakdown ins) = totalBooks ins
  /\ sum_totalReads (genreBreakdown ins) = totalReads ins
  /\ List.NoDup (map g_id (genreBreakdown ins))
  /\ (forall s, In s (genreBreakdown ins) -> 1 <= g_count s)
  /\ (forall g, In g (map g_id (genreBreakdown ins))
                <-> exists id b, books db !! id = Some b /\ genre b = g).
Proof.
  unfold insights. destruct (admin_route a db); [discriminate |].
  set (docs := map_to_list (books db)).
  destruct (mongo_sort (plan 0%nat) _ _ _); [| discriminate].
  destruct (mongo_sort (plan 1%nat) _ _ _); [| discriminate].
  destruct (mongo_sort (plan 2%nat) _ _ _); [| discriminate].
  destruct (mongo_sort (plan 3%nat) _ _ _); [| discriminate].
  intros [= <-]. cbn [totalBooks totalReads genreBreakdown].
  destruct (group_genres_facts docs) as (H1 & H2 & H3 & H4 & H5).
  pose proof (sort_stats_perm (group_genres docs)) as Hperm.
  destruct (sum_counts_perm _ _ Hperm) as [Hc Hr].
  split; [unfold docs; now rewrite length_map_to_list |].
  split; [reflexivity |].
  split; [lia |]. split; [lia |].
  split.
  { eapply Permutation_NoDup; [| exact H3].
    apply Permutation_map. now symmetry. }
  split.
  { intros s Hs. apply (Permutation_in _ Hperm) in Hs.
    rewrite List.Forall_forall in H4. now apply H4. }
  intros g. split.
  - intros Hg. apply (Permutation_in _ (Permutation_map g_id Hperm)) in Hg.
    apply H5 in Hg as ([id b] & Hd & Hgen). exists id, b.
    split; [| exact Hgen].
    now apply list_elem_of_In, elem_of_map_to_list in Hd.
  - intros (id & b & Hb & Hgen).
    apply (Permutation_in _ (Permutation_map g_id (Permutation_sym Hperm))).
    apply H5. exists (id, b). split; [| exact Hgen].
    now apply list_elem_of_In, elem_of_map_to_list.
Qed.

(** X17.  The top five are the most read and the bottom five the least
    read: a stored book that is not on the [topBooks] list has a
    [readCount] no greater than any book on it, and one that is not on the
    [bottomBooks] list a [readCount] no smaller than any book on that; each
    list has five entries, or all the books when there are fewer. *)
Theorem insights_top_bottom {Pok : PlatformOk P}
  (a : option string) (plan : nat -> Plan) (db : Db) (ins : Insights) :
  insights a plan db = inr ins ->
  length (topBooks ins) = Nat.min 5 (size (books db))
  /\ length (bottomBooks ins) = Nat.min 5 (size (books db))
  /\ (forall c id b,
         In c (topBooks ins) -> books db !! id = Some b ->
         unlisted id (topBooks ins) -> readCount b <= c_readCount c)
  /\ (forall c id b,
         In c (bottomBooks ins) -> books db !! id = Some b ->
         unlisted id (bottomBooks ins) -> c_readCount c <= readCount b).
Proof.
  unfold insights. destruct (admin_route a db); [discriminate |].
  set (docs := map_to_list (books db)).
  assert (Hside : forall pl asc sorted,
             mongo_sort pl "readCount" asc docs = Some sorted ->
             length (map read_card (firstn 5 sorted))
             = Nat.min 5 (size (books db))
             /\ forall c id b,
                 In c (map read_card (firstn 5 sorted)) ->
                 books db !! id = Some b ->
                 unlisted id (map read_card (firstn 5 sorted)) ->
                 exists x, c = read_card x
                           /\ doc_le "readCount" asc x (id, b) = true).
  { intros pl asc sorted ES.
    pose proof (sort_perm _ _ _ _ _ ES) as Hperm.
    split.
    { rewrite length_map, length_firstn.
      rewrite (Permutation_length Hperm). unfold docs.
      now rewrite length_map_to_list. }
    intros c id b Hc Hb Hun.
    apply in_map_iff in Hc as (x & <- & Hx). exists x. split; [reflexivity |].
    assert (Hs : StronglySorted (fun x y => doc_le "readCount" asc x y = true)
                   (firstn 5 sorted ++ skipn 5 sorted)%list).
    { rewrite firstn_skipn. apply Sorted_StronglySorted.
      - now apply doc_le_trans.
      - apply (sort_sorted _ _ _ _ _ ES). }
    apply (StronglySorted_app_cross _ _ _ Hs); [exact Hx |].
    assert (Hin : In (id, b) sorted).
    { apply (Permutation_in _ (Permutation_sym Hperm)).
      now apply list_elem_of_In, elem_of_map_to_list. }
    rewrite <- (firstn_skipn 5 sorted) in Hin.
    apply in_app_or in Hin as [Hin | Hin]; [| exact Hin].
    exfalso. apply (Hun (read_card (id, b))); [| reflexivity].
    apply in_map_iff. now exists (id, b). }
  destruct (mongo_sort (plan 0%nat) _ _ _) as [top |] eqn:E0; [| discriminate].
  destruct (mongo_sort (plan 1%nat) _ _ _) as [bottom |] eqn:E1; [| discriminate].
  destruct (mongo_sort (plan 2%nat) _ _ _); [| discriminate].
  destruct (mongo_sort (plan 3%nat) _ _ _); [| discriminate].
  intros [= <-]. cbn [topBooks bottomBooks].
  destruct (Hside _ _ _ E0) as [Lt Ht]. destruct (Hside _ _ _ E1) as [Lb Hb].
  split; [exact Lt |]. split; [exact Lb |]. split.
  - intros c id b Hc Hst Hun.
    destruct (Ht c id b Hc Hst Hun) as (x & -> & Hle).
    cbn in Hle. apply Qle_bool_iff in Hle. rewrite <- Zle_Qle in Hle.
    exact Hle.
  - intros c id b Hc Hst Hun.
    destruct (Hb c id b Hc Hst Hun) as (x & -> & Hle).
    cbn in Hle. apply Qle_bool_iff in Hle. rewrite <- Zle_Qle in Hle.
    exact Hle.
Qed.

(** X18.  A read shows in the insights: after a read answered 200 the
    insights count one more read in total and the same number of books. *)
Theorem read_then_insights (a : option string) (id : N) (db : Db)
  (resp : Response) (db' : Db) (a' : option string) (plan plan' : nat -> Plan)
  (ins ins' : Insights) :
  recordRead a id db = (Some resp, db') ->
  status resp = 200 ->
  insights a' plan db = inr ins ->
  insights a' plan' db' = inr ins' ->
  totalReads ins' = totalReads ins + 1
  /\ totalBooks ins' = totalBooks ins.
Proof.
  unfold recordRead, serve, steps. cbn [step]. intros H Hs.
  destruct (protect a db) as [r | [uid u]] eqn:Ep.
  { cbn in H. injection H as <- <-. apply protect_denied in Ep. lia. }
  cbn [step] in H. destruct (books db !! id) as [b |] eqn:Hb.
  2: { cbn in H. injection H as <- <-. discriminate Hs. }
  cbn in H. injection H as _ <-.
  unfold insights. cbn [books with_users with_books].
  change (admin_route a' (with_users _ _)) with
    (admin_route a' (with_users (with_books db
       (<[id := set_readCount b (readCount b + 1)]> (books db)))
       (alter (fun u0 => add_read u0 id) uid (users db)))).
  destruct (admin_route a' db); [discriminate |].
  destruct (admin_route a' _); [discriminate |].
  repeat match goal with
         | |- context [mongo_sort ?p ?f ?o ?l] =>
             destruct (mongo_sort p f o l); [| discriminate]
         end.
  intros [= <-] [= <-]. cbn [totalReads totalBooks].
  set (b' := set_readCount b (readCount b + 1)).
  assert (Hold : Permutation (map_to_list (books db))
                   ((id, b) :: map_to_list (delete id (books db)))).
  { rewrite <- (insert_delete_id (books db) id b Hb) at 1.
    apply map_to_list_insert, lookup_delete_eq. }
  assert (Hnew : Permutation (map_to_list (<[id := b']> (books db)))
                   ((id, b') :: map_to_list (delete id (books db)))).
  { rewrite <- insert_delete_eq.
    apply map_to_list_insert, lookup_delete_eq. }
  rewrite (sum_reads_perm _ _ Hold), (sum_reads_perm _ _ Hnew).
  rewrite (Permutation_length Hold), (Permutation_length Hnew).
  cbn. split; lia.
Qed.

End Admin.

Lemma test_services_ok : ServicesOk test_services.
Proof.
  split; intros l; cbn [sort_stats test_services].
  - apply isort_perm.
  - apply Sorted_weaken with (R1 := fun x y => (g_count y <=? g_count x) = true).
    + intros x y H. now apply Z.leb_le.
    + apply isort_sorted. intros x y H. apply Z.leb_le. apply Z.leb_gt in H. lia.
Qed.

Lemma admin_is_admin (bs : gmap N Book) :
  admin_caller (P := test_platform) as_admin (sample_db bs).
Proof. exists 2%N, admin. split; reflexivity. Qed.

(** Page 2 of size 1 of the two books named Dune, out of three stored. *)
Lemma adminBooks_pagination_witness :
  exists (bs S : list (N * Book)),
    adminBooks (P := test_platform) (S := test_services) as_admin
      (Some "2") (Some "1") (Some "Dune") 0%N dune_db
    = inr (mkAdminList bs
             (Z.of_nat (length (searched (P := test_platform) (Some "Dune") dune_db)))
             (Num 2)
             (Num (Math_ceil_div
                     (Z.of_nat (length (searched (P := test_platform)
                                          (Some "Dune") dune_db))) 1)))
    /\ Permutation S (searched (P := test_platform) (Some "Dune") dune_db)
    /\ bs = firstn (Z.to_nat 1) (skipn (Z.to_nat ((2 - 1) * 1)) S).
Proof.
  destruct (adminBooks_pagination (P := test_platform) (S := test_services)
              (Pok := test_platform_ok) as_admin (Some "2") (Some "1")
              (Some "Dune") 0%N dune_db 2 1
              (admin_is_admin _) eq_refl ltac:(lia) eq_refl ltac:(lia) ltac:(lia))
    as (bs & S & H1 & H2 & H3 & _).
  exists bs, S. split; [exact H1 |]. split; [exact H2 | exact H3].
Defined.

(** What that request is answered. *)
Example admin_page_2 :
  adminBooks (P := test_platform) (S := test_services) as_admin
    (Some "2") (Some "1") (Some "Dune") 0%N dune_db
  = inr (mkAdminList [(1%N, sample_book 4 1)] 2 (Num 2) (Num 2)).
Proof. vm_compute. reflexivity. Qed.

Lemma insights_totals_witness :
  exists ins,
    insights (P := test_platform) (S := test_services) as_admin (fun _ => 0%N) tie_db
    = inr ins
    /\ totalBooks ins = 2
    /\ sum_counts (genreBreakdown ins) = totalBooks ins
    /\ sum_totalReads (genreBreakdown ins) = totalReads ins.
Proof.
  eexists. split; [reflexivity |].
  destruct (insights_totals (P := test_platform) (S := test_services)
              (Sok := test_services_ok) as_admin (fun _ => 0%N) tie_db _ eq_refl)
    as (H1 & _ & H3 & H4 & _).
  split; [exact H1 |]. split; [exact H3 | exact H4].
Defined.

Lemma insights_top_bottom_witness :
  exists ins,
    insights (P := test_platform) (S := test_services) as_admin (fun _ => 0%N) tie_db
    = inr ins
    /\ length (topBooks ins) = Nat.min 5 (size (books tie_db)).
Proof.
  eexists. split; [reflexivity |].
  exact (proj1 (insights_top_bottom (P := test_platform) (S := test_services)
                  (Pok := test_platform_ok) as_admin (fun _ => 0%N) tie_db _
                  eq_refl)).
Defined.

Lemma read_then_insights_witness :
  exists ins ins',
    insights (P := test_platform) (S := test_services) as_admin (fun _ => 0%N)
      unrated_db = inr ins
    /\ insights (P := test_platform) (S := test_services) as_admin (fun _ => 1%N)
         (snd (recordRead (P := test_platform) as_reader 7 unrated_db)) = inr ins'
    /\ totalReads ins' = totalReads ins + 1
    /\ totalBooks ins' = totalBooks ins.
Proof.
  eexists _, _. split; [reflexivity |]. split; [reflexivity |].
  exact (read_then_insights (P := test_platform) (S := test_services)
           as_reader 7 unrated_db _ _ as_admin (fun _ => 0%N) (fun _ => 1%N) _ _
           eq_refl eq_refl eq_refl eq_refl).
Defined.

(** ** From the filter state to the list query *)

Lemma is_decimal_digit_char (d : Z) : 0 <= d < 10 -> is_decimal (digit_char d) = true.
Proof.
  intros H.
  assert (E : d = 0 \/ d = 1 \/ d = 2 \/ d = 3 \/ d = 4 \/ d = 5 \/ d = 6
              \/ d = 7 \/ d = 8 \/ d = 9) by lia.
  repeat destruct E as [-> | E]; try reflexivity. now subst.
Qed.

Lemma digit_of_digit_char (d : Z) : 0 <= d < 10 -> digit_of (digit_char d) = Some d.
Proof.
  intros H.
  assert (E : d = 0 \/ d = 1 \/ d = 2 \/ d = 3 \/ d = 4 \/ d = 5 \/ d = 6
              \/ d = 7 \/ d = 8 \/ d = 9) by lia.
  repeat destruct E as [-> | E]; try reflexivity. now subst.
Qed.

Lemma read_digits_digit (d : Z) (s : string) (acc : option Z) :
  0 <= d < 10 ->
  read_digits 10 (String (digit_char d) s) acc
  = read_digits 10 s (Some (match acc with Some a => a * 10 + d | None => d end)).
Proof.
  intros H. cbn [read_digits]. rewrite (digit_of_digit_char d H).
  replace (d <? 10) with true by (symmetry; apply Z.ltb_lt; lia). reflexivity.
Qed.

(** Reading back the digits written by [decimal]. *)
Lemma read_decimal (fuel : nat) :
  forall (n : Z) (acc : string) (k v : Z),
    0 <= n < 10 ^ Z.of_nat fuel -> (0 < fuel)%nat -> 0 <= k ->
    (forall a, read_digits 10 acc (Some a) = Some (a * 10 ^ k + v)) ->
    read_digits 10 (decimal fuel n acc) None = Some (n * 10 ^ k + v).
Proof.
  induction fuel as [| fuel IH]; intros n acc k v Hn Hfuel Hk Hacc; [lia |].
  cbn [decimal].
  assert (Hmod : 0 <= n mod 10 < 10) by (apply Z.mod_pos_bound; lia).
  destruct (Z.eqb_spec (n / 10) 0) as [Hz | Hz].
  - rewrite (read_digits_digit _ _ _ Hmod), Hacc. f_equal.
    rewrite (Z.div_mod n 10) at 2 by lia. rewrite Hz. lia.
  - assert (Hdiv : 0 <= n / 10 < 10 ^ Z.of_nat fuel).
    { split; [apply Z.div_pos; lia |].
      apply Z.div_lt_upper_bound; [lia |].
      replace (10 * 10 ^ Z.of_nat fuel) with (10 ^ Z.of_nat (S fuel)); [lia |].
      rewrite Nat2Z.inj_succ, Z.pow_succ_r; lia. }
    assert (Hf : (0 < fuel)%nat).
    { destruct fuel; [| lia]. cbn in Hdiv. lia. }
    rewrite (IH (n / 10) _ (k + 1) (n mod 10 * 10 ^ k + v) Hdiv Hf);
      [| lia |].
    + f_equal. rewrite Z.pow_add_r by lia.
      rewrite (Z.div_mod n 10) at 3 by lia. ring.
    + intros a. rewrite (read_digits_digit _ _ _ Hmod), Hacc. f_equal.
      rewrite Z.pow_add_r by lia. ring.
Qed.

Lemma decimal_all_decimal (fuel : nat) :
  forall (n : Z) (acc : string),
    0 <= n -> all_decimal acc = true -> all_decimal (decimal fuel n acc) = true.
Proof.
  induction fuel as [| fuel IH]; intros n acc Hn Hacc; [exact Hacc |].
  cbn [decimal].
  assert (Hd : all_decimal (String (digit_char (n mod 10)) acc) = true).
  { cbn [all_decimal]. rewrite Hacc, is_decimal_digit_char; [reflexivity |].
    apply Z.mod_pos_bound. lia. }
  destruct (n / 10 =? 0); [exact Hd |].
  apply IH; [apply Z.div_pos; lia | exact Hd].
Qed.

Lemma decimal_not_empty (fuel : nat) (n : Z) (acc : string) :
  (0 < fuel)%nat -> decimal fuel n acc <> "".
Proof.
  revert n acc. induction fuel as [| fuel IH]; intros n acc H; [lia |].
  cbn [decimal]. destruct (n / 10 =? 0); [discriminate |].
  destruct fuel; [cbn; discriminate |]. apply IH. lia.
Qed.

Lemma fuel_enough (n : Z) : 0 <= n -> n < 10 ^ Z.of_nat (S (Z.to_nat (Z.log2 n))).
Proof.
  intros Hn. rewrite Nat2Z.inj_succ, Z2Nat.id by apply Z.log2_nonneg.
  destruct (Z.eq_dec n 0) as [-> | Hne]; [cbn; lia |].
  pose proof (Z.log2_spec n ltac:(lia)) as [_ Hlt].
  pose proof (Z.log2_nonneg n) as Hlog.
  assert (2 ^ Z.succ (Z.log2 n) <= 10 ^ Z.succ (Z.log2 n))
    by (apply Z.pow_le_mono_l; lia).
  lia.
Qed.

(** White space starts with a control character, a space, or one of five
    bytes above 127. *)
Lemma skip_spaces_other (a : ascii) (r : string) :
  (32 < code a < 128)%N -> skip_spaces (String a r) = String a r.
Proof.
  intros H.
  assert (H1 : ws1 a = false).
  { unfold ws1. cbv zeta.
    replace (code a <=? 13)%N with false by (symmetry; apply N.leb_gt; lia).
    replace (code a =? 32)%N with false by (symmetry; apply N.eqb_neq; lia).
    now rewrite andb_false_r. }
  assert (H2 : forall b, ws2 a b = false).
  { intros b. unfold ws2.
    now replace (code a =? 194)%N with false by (symmetry; apply N.eqb_neq; lia). }
  assert (H3 : forall b c, ws3 a b c = false).
  { intros b c. unfold ws3. cbv zeta.
    replace (code a =? 225)%N with false by (symmetry; apply N.eqb_neq; lia).
    replace (code a =? 226)%N with false by (symmetry; apply N.eqb_neq; lia).
    replace (code a =? 227)%N with false by (symmetry; apply N.eqb_neq; lia).
    now replace (code a =? 239)%N with false by (symmetry; apply N.eqb_neq; lia). }
  cbn [skip_spaces]. rewrite H1.
  destruct r as [| b [| c r3]]; rewrite ?H2, ?H3; reflexivity.
Qed.

Lemma is_decimal_code (c : ascii) : is_decimal c = true -> (32 < code c < 128)%N.
Proof.
  unfold is_decimal, code. cbv zeta. rewrite andb_true_iff, !Nat.leb_le.
  intros [H1 H2]. rewrite <- (N2Nat.id (N_of_ascii c)).
  change (N.to_nat (N_of_ascii c)) with (nat_of_ascii c). lia.
Qed.

Lemma strip_sign_other (c : ascii) (r : string) :
  c <> "-"%char -> c <> "+"%char -> strip_sign (String c r) = (false, String c r).
Proof.
  intros H1 H2.
  destruct c as [[] [] [] [] [] [] [] []]; try reflexivity; congruence.
Qed.

Lemma strip_hex_other (c : ascii) (r : string) :
  (forall r', r <> String "x" r') -> (forall r', r <> String "X" r') ->
  strip_hex (String c r) = (10, String c r).
Proof.
  intros H1 H2.
  destruct c as [[] [] [] [] [] [] [] []]; try reflexivity.
  destruct r as [| c' r']; [reflexivity |].
  destruct c' as [[] [] [] [] [] [] [] []]; try reflexivity.
  - now contradiction (H1 r').
  - now contradiction (H2 r').
Qed.

(** [parseInt] on a non-empty string of decimal digits. *)
Lemma parseInt_decimal (s : string) (n : Z) :
  s <> "" -> all_decimal s = true -> read_digits 10 s None = Some n ->
  parseInt s = Num n
  /\ parseInt (String "-" s) = Num (- n).
Proof.
  intros Hne Hall Hread. destruct s as [| c r]; [congruence |].
  cbn [all_decimal] in Hall. apply andb_true_iff in Hall as [Hc Hr].
  assert (Hsign : strip_sign (String c r) = (false, String c r)).
  { apply strip_sign_other; intros ->; discriminate Hc. }
  assert (Hhex : strip_hex (String c r) = (10, String c r)).
  { apply strip_hex_other; intros r' ->; cbn in Hr; discriminate Hr. }
  unfold parseInt. split.
  - rewrite (skip_spaces_other c r (is_decimal_code c Hc)), Hsign, Hhex, Hread.
    reflexivity.
  - rewrite (skip_spaces_other "-" _ ltac:(vm_compute; split; reflexivity)).
    change (strip_sign (String "-" (String c r))) with (true, String c r).
    cbv beta iota. rewrite Hhex, Hread. reflexivity.
Qed.

(** [parseInt] reads a signed decimal numeral back. *)
Lemma parseInt_numeral (n : Z) : parseInt (String_of_int n) = Num n.
Proof.
  unfold String_of_int.
  assert (Hread : forall m, 0 <= m ->
            let s := decimal (S (Z.to_nat (Z.log2 m))) m "" in
            s <> "" /\ all_decimal s = true /\ read_digits 10 s None = Some m).
  { intros m Hm s. split; [apply decimal_not_empty; lia |].
    split; [now apply decimal_all_decimal |].
    unfold s. rewrite (read_decimal _ m "" 0 0).
    - f_equal. lia.
    - split; [exact Hm | now apply fuel_enough].
    - lia.
    - lia.
    - intros a. cbn. f_equal. lia. }
  destruct (Z.ltb_spec n 0) as [Hneg | Hpos].
  - destruct (Hread (- n) ltac:(lia)) as (H1 & H2 & H3).
    destruct (parseInt_decimal _ _ H1 H2 H3) as [_ H]. rewrite H. f_equal. lia.
  - destruct (Hread n Hpos) as (H1 & H2 & H3).
    now destruct (parseInt_decimal _ _ H1 H2 H3) as [H _].
Qed.



Section FrontEnd.

Context {P : Platform}.

Lemma fetchBooks_paging (st : FilterState) :
  parsed (q_page (fetchBooks_query st)) 1 = Num (fs_page st)
  /\ parsed (q_limit (fetchBooks_query st)) 12 = Num (fs_limit st).
Proof.
  unfold parsed, fetchBooks_query. cbn [q_page q_limit].
  now rewrite !parseInt_numeral.
Qed.



(** X21.  "Showing from-to of total" counts the books on the page: for a
    state with [page >= 1] and [1 <= limit <= 50], when the route answers
    the home page's request with a non-empty page, [from] is at least 1,
    [to] at most [total], and [to - from + 1] is the number of books
    received. *)
Theorem showing_counts_page {Pok : PlatformOk P}
  (st : FilterState) (plan : Plan) (db : Db) (bs : list (N * Book))
  (pg : Pagination) :
  1 <= fs_page st < 10 ^ 21 ->
  1 <= fs_limit st <= 50 ->
  listBooks (fetchBooks_query st) plan db = mkResponse 200 (ListBody bs pg) ->
  bs <> [] ->
  1 <= showing_from (fs_page st) (fs_limit st)
  /\ showing_from (fs_page st) (fs_limit st)
     <= showing_to (fs_page st) (fs_limit st) (total pg)
  /\ showing_to (fs_page st) (fs_limit st) (total pg) <= total pg
  /\ showing_to (fs_page st) (fs_limit st) (total pg)
     - showing_from (fs_page st) (fs_limit st) + 1
     = Z.of_nat (length bs).
Proof.
  intros Hp Hl H Hne.
  destruct (fetchBooks_paging st) as [Ep El].
  destruct (listBooks_cases (fetchBooks_query st) plan db _ _ Ep El)
    as [[E _] | (_ & S & ES & E)]; rewrite E in H; [discriminate H |].
  replace (Z.max 1 (fs_page st)) with (fs_page st) in H by lia.
  replace (Z.min 50 (Z.max 1 (fs_limit st))) with (fs_limit st) in H by lia.
  injection H as <- <-. cbn [total].
  pose proof (sort_perm _ _ _ _ _ ES) as Hperm.
  set (n := Z.of_nat (length (matching (fetchBooks_query st) db))).
  assert (Hlen : Z.of_nat (length (chunk (Z.to_nat (fs_limit st)) S
                                     (Z.to_nat (fs_page st - 1))))
                 = Z.min (fs_limit st)
                         (Z.max 0 (n - (fs_page st - 1) * fs_limit st))).
  { rewrite chunk_length, (Permutation_length Hperm).
    rewrite <- Z2Nat.inj_mul by lia.
    assert (Hk : 0 <= (fs_page st - 1) * fs_limit st) by nia.
    revert Hk. generalize ((fs_page st - 1) * fs_limit st) as k.
    intros k Hk. unfold n. lia. }
  assert (Hpos : 0 < Z.of_nat (length (chunk (Z.to_nat (fs_limit st)) S
                                         (Z.to_nat (fs_page st - 1))))).
  { destruct (chunk _ _ _); [congruence | cbn; lia]. }
  rewrite Hlen in *. unfold showing_from, showing_to.
  assert (Hk : 0 <= (fs_page st - 1) * fs_limit st) by nia.
  replace (fs_page st * fs_limit st)
    with ((fs_page st - 1) * fs_limit st + fs_limit st) by ring.
  revert Hk Hpos. generalize ((fs_page st - 1) * fs_limit st) as k.
  intros k Hk Hpos. lia.
Qed.

End FrontEnd.

(** X22.  From the initial state, while the components dispatch [setPage]
    with a page of at least 1 and [setLimit] with a limit within 1..50,
    every state has [page >= 1] and [1 <= limit <= 50]; and every action
    but [setPage] and [setSortOrder] puts the page back to 1. *)
Theorem reachable_filter_state (actions : list Action) :
  Forall dispatched actions ->
  (1 <= fs_page (run actions initialState)
   /\ 1 <= fs_limit (run actions initialState) <= 50)
  /\ (forall a st,
         match a with
         | setPage _ | setSortOrder _ => True
         | _ => fs_page (reducer st a) = 1
         end).
Proof.
  intros H. split.
  - unfold run.
    assert (Hinit : 1 <= fs_page initialState /\ 1 <= fs_limit initialState <= 50)
      by (cbn; lia).
    revert Hinit. generalize initialState as st.
    induction H as [| a actions Ha _ IH]; intros st Hst; [exact Hst |].
    cbn [fold_left]. apply IH.
    destruct a; cbn in *; lia.
  - intros a st. destruct a; exact I || reflexivity.
Qed.



Lemma showing_counts_page_witness :
  showing_to 1 12 2 - showing_from 1 12 + 1 = 2.
Proof.
  destruct (showing_counts_page (P := test_platform) (Pok := test_platform_ok)
              initialState 0%N tie_db
              [(2%N, sample_book 4 1); (1%N, sample_book 4 1)]
              (mkPagination 2 (Num 1) (Num 12) (Num 1)))
    as (_ & _ & _ & H).
  - cbn. lia.
  - cbn. lia.
  - reflexivity.
  - discriminate.
  - exact H.
Defined.

Lemma reachable_filter_state_witness :
  1 <= fs_page (run [setGenre "Fantasy"; setPage 3; setSortOrder Asc] initialState)
  /\ 1 <= fs_limit (run [setGenre "Fantasy"; setPage 3; setSortOrder Asc] initialState) <= 50.
Proof.
  apply (reachable_filter_state [setGenre "Fantasy"; setPage 3; setSortOrder Asc]).
  repeat constructor. cbn. lia.
Defined.

(** ** The pagination buttons and the star rating *)

Lemma range_nil (a b : Z) : b < a -> range a b = [].
Proof.
  intros H. unfold range. replace (Z.to_nat (b - a + 1)) with 0%nat by lia.
  reflexivity.
Qed.

Lemma range_cons (a b : Z) : a <= b -> range a b = a :: range (a + 1) b.
Proof.
  intros H. unfold range.
  replace (Z.to_nat (b - a + 1)) with (S (Z.to_nat (b - (a + 1) + 1))) by lia.
  cbn [seq map]. f_equal; [lia |].
  rewrite <- seq_shift, map_map. apply map_ext. intros i. lia.
Qed.

Lemma range_length (a b : Z) : length (range a b) = Z.to_nat (b - a + 1).
Proof. unfold range. now rewrite length_map, length_seq. Qed.

Lemma range_In (a b x : Z) : In x (range a b) <-> a <= x <= b.
Proof.
  unfold range. rewrite in_map_iff. split.
  - intros (i & <- & Hi). apply in_seq in Hi. lia.
  - intros H. exists (Z.to_nat (x - a)). split; [lia |]. apply in_seq. lia.
Qed.

Lemma range_snoc (a b : Z) : a <= b -> range a b = (range a (b - 1) ++ [b])%list.
Proof.
  intros H. unfold range.
  replace (Z.to_nat (b - a + 1)) with (S (Z.to_nat (b - 1 - a + 1))) by lia.
  rewrite seq_S, map_app. cbn [map Nat.add]. do 2 f_equal. lia.
Qed.

Lemma gaps_ok_range (k : nat) :
  forall (a b : Z) (tail : list (option Z)),
    Z.to_nat (b - a + 1) = k -> a <= b + 1 ->
    gaps_ok b tail ->
    gaps_ok (a - 1) (map Some (range a b) ++ tail)%list.
Proof.
  induction k as [| k IH]; intros a b tail Hk Hab Htail.
  - rewrite range_nil by lia. cbn. now replace (a - 1) with b by lia.
  - rewrite range_cons by lia. cbn [map app gaps_ok]. split; [lia |].
    replace a with (a + 1 - 1) at 1 by lia. apply IH; [lia | lia | exact Htail].
Qed.

(** X23.  The page buttons: nothing is rendered for at most one page;
    otherwise, for a current page within [1..totalPages], the row starts
    with page 1 and ends with the last page, shows the current page, has at
    most seven entries, goes up one page at a time between neighbouring
    numbers, and has an ellipsis exactly where pages are left out. *)
Theorem page_buttons_shape (page totalPages : Z) :
  (totalPages <= 1 -> page_buttons page totalPages = None)
  /\ (2 <= totalPages -> 1 <= page <= totalPages ->
      exists rest,
        page_buttons page totalPages = Some (Some 1 :: rest)
        /\ gaps_ok 1 rest
        /\ List.last (Some 1 :: rest) None = Some totalPages
        /\ In (Some page) (Some 1 :: rest)
        /\ (length (Some 1%Z :: rest) <= 7)%nat).
Proof.
  split.
  { intros H. unfold page_buttons.
    now replace (totalPages <=? 1) with true by (symmetry; apply Z.leb_le; lia). }
  intros Htp Hpage. unfold page_buttons.
  replace (totalPages <=? 1) with false by (symmetry; apply Z.leb_gt; lia).
  destruct (Z.leb_spec totalPages 7) as [H7 | H7].
  - exists (map Some (range 2 totalPages)).
    split; [now rewrite (range_cons 1 totalPages) by lia |].
    split.
    { rewrite <- (app_nil_r (map Some (range 2 totalPages))).
      apply (gaps_ok_range (Z.to_nat (totalPages - 2 + 1)) 2 totalPages []);
        [reflexivity | lia | exact I]. }
    split.
    { change (Some 1 :: map Some (range 2 totalPages))
        with (map Some (1 :: range (1 + 1) totalPages)).
      rewrite <- range_cons by lia. rewrite range_snoc by lia.
      rewrite map_app. cbn [map]. apply last_last. }
    split.
    { change (Some 1 :: map Some (range 2 totalPages))
        with (map Some (1 :: range (1 + 1) totalPages)).
      rewrite <- range_cons by lia. apply in_map, range_In. lia. }
    cbn [length]. rewrite length_map, range_length. lia.
  - set (a := Z.max 2 (page - 1)). set (b := Z.min (totalPages - 1) (page + 1)).
    set (tail := ((if page <? totalPages - 2 then [None] else [])
                    ++ [Some totalPages])%list).
    assert (Hab : a <= b + 1) by (unfold a, b; lia).
    assert (Htail : gaps_ok b tail).
    { unfold tail. destruct (Z.ltb_spec page (totalPages - 2)); cbn;
        unfold b; lia. }
    assert (Hwin : gaps_ok (a - 1) (map Some (range a b) ++ tail)%list)
      by (apply (gaps_ok_range (Z.to_nat (b - a + 1)) a b tail);
          [reflexivity | exact Hab | exact Htail]).
    exists ((if 3 <? page then [None] else [])
              ++ map Some (range a b) ++ tail)%list.
    split; [reflexivity |]. split.
    { destruct (Z.ltb_spec 3 page) as [H3 | H3]; cbn [app].
      - assert (Ha : a <= b) by (unfold a, b; lia).
        rewrite range_cons in * by exact Ha. cbn [map app gaps_ok] in *.
        split; [unfold a; lia | apply Hwin].
      - replace 1 with (a - 1) by (unfold a; lia). exact Hwin. }
    split.
    { unfold tail. rewrite app_comm_cons, !app_assoc. apply last_last. }
    split.
    { destruct (Z.eq_dec page 1) as [-> | Hp1]; [now left |]. right.
      apply in_or_app. right. apply in_or_app.
      destruct (Z.eq_dec page totalPages) as [-> | Hpt].
      - right. unfold tail. apply in_or_app. right. now left.
      - left. apply in_map, range_In. unfold a, b. lia. }
    cbn [length]. rewrite !length_app, length_map, range_length.
    unfold tail. rewrite length_app. cbn [length].
    destruct (3 <? page), (page <? totalPages - 2); cbn [length];
      unfold a, b; lia.
Qed.

Lemma page_buttons_shape_witness :
  exists rest,
    page_buttons 5 10 = Some (Some 1 :: rest)
    /\ gaps_ok 1 rest
    /\ List.last (Some 1 :: rest) None = Some 10
    /\ In (Some 5) (Some 1 :: rest)
    /\ (length (Some 1%Z :: rest) <= 7)%nat.
Proof.
  apply (proj2 (page_buttons_shape 5 10)); lia.
Defined.

Lemma Qfloor_unique (x : Q) (z : Z) :
  (inject_Z z <= x)%Q -> (x < inject_Z (z + 1))%Q -> Qfloor x = z.
Proof.
  intros Hle Hlt.
  pose proof (Qfloor_le x) as H1. pose proof (Qlt_floor x) as H2.
  assert (inject_Z (Qfloor x) < inject_Z (z + 1))%Q by lra.
  assert (inject_Z z < inject_Z (Qfloor x + 1))%Q by lra.
  rewrite <- Zlt_Qlt in *. lia.
Qed.

(** X24.  The stars of a book card show the rating rounded down to half a
    star: for a rating within 0..5 there are five glyphs and their value,
    a full star counting 1 and a half star 1/2, is [floor (2 * rating) / 2]. *)
Theorem StarRating_value (rating : Q) :
  (0 <= rating)%Q -> (rating <= 5)%Q ->
  length (StarRating rating) = 5%nat
  /\ (stars_value (StarRating rating) == inject_Z (Qfloor (2 * rating)) / 2)%Q.
Proof.
  intros H0 H5. split; [reflexivity |].
  pose proof (Qfloor_le rating) as Hlo. pose proof (Qlt_floor rating) as Hhi.
  rewrite inject_Z_plus in Hhi. change (inject_Z 1) with 1%Q in Hhi.
  assert (Hf0 : 0 <= Qfloor rating)
    by (change 0 with (Qfloor 0); now apply Qfloor_resp_le).
  assert (Hf5 : Qfloor rating <= 5)
    by (change 5 with (Qfloor 5); now apply Qfloor_resp_le).
  unfold StarRating, mod1.
  replace (Qle_bool 0 rating) with true by (symmetry; now apply Qle_bool_iff).
  set (full := Qfloor rating) in *.
  destruct (Qle_bool (1 # 2) (rating - inject_Z full)) eqn:Ehalf.
  - apply Qle_bool_iff in Ehalf.
    assert (Hfl : Qfloor (2 * rating) = 2 * full + 1).
    { apply Qfloor_unique.
      - rewrite inject_Z_plus, inject_Z_mult.
        change (inject_Z 2) with 2%Q. change (inject_Z 1) with 1%Q. lra.
      - rewrite !inject_Z_plus, inject_Z_mult.
        change (inject_Z 2) with 2%Q. change (inject_Z 1) with 1%Q. lra. }
    rewrite Hfl.
    assert (E : full = 0 \/ full = 1 \/ full = 2 \/ full = 3 \/ full = 4 \/ full = 5)
      by lia.
    destruct E as [E | [E | [E | [E | [E | E]]]]]; rewrite E in *;
      try (vm_compute; reflexivity).
    exfalso. change (inject_Z 5) with 5%Q in Ehalf. lra.
  - assert (Ehalf' : (rating - inject_Z full < 1 # 2)%Q).
    { apply Qnot_le_lt. intros H. apply Qle_bool_iff in H. congruence. }
    assert (Hfl : Qfloor (2 * rating) = 2 * full).
    { apply Qfloor_unique.
      - rewrite inject_Z_mult. change (inject_Z 2) with 2%Q. lra.
      - rewrite inject_Z_plus, inject_Z_mult.
        change (inject_Z 2) with 2%Q. change (inject_Z 1) with 1%Q. lra. }
    rewrite Hfl.
    assert (E : full = 0 \/ full = 1 \/ full = 2 \/ full = 3 \/ full = 4 \/ full = 5)
      by lia.
    destruct E as [E | [E | [E | [E | [E | E]]]]]; rewrite E;
      vm_compute; reflexivity.
Qed.

Lemma StarRating_value_witness :
  (stars_value (StarRating (47 # 10)) == inject_Z (Qfloor (2 * (47 # 10))) / 2)%Q.
Proof.
  apply (StarRating_value (47 # 10)); unfold Qle; simpl; lia.
Defined.

(** X25.  Nobody becomes an admin through the sign-up form: the body the
    front end posts has no [role], so a registration it makes that is
    answered 201 creates a user with role ["user"], whom [adminOnly]
    turns away with 403. *)
Theorem signup_is_user {P : Platform} (n e pw : string) (fresh : N) (now : Z)
  (db : Db)
  (resp : Response) (db' : Db) :
  register (register_call n e pw) fresh now db = (resp, db') ->
  status resp = 201 ->
  exists u,
    users db' !! fresh = Some u
    /\ role u = "user"
    /\ body resp = AuthBody (jwt_sign fresh now) fresh (name u) e "user"
    /\ adminOnly u = Some (mkResponse 403 (Message "Access denied. Admin only.")).
Proof.
  unfold register. intros H Hs.
  destruct (register_validation _) as [r |] eqn:Ev.
  { injection H as <- <-. apply register_validation_400 in Ev. lia. }
  destruct (findOne_email _ _) as [p |].
  { injection H as <- <-. discriminate Hs. }
  unfold User_create in H. destruct (users db !! fresh) eqn:Hfresh.
  { injection H as <- <-. discriminate Hs. }
  injection H as <- <-. eexists. cbn [users with_users body].
  split; [apply lookup_insert_eq |]. repeat split.
Qed.

Lemma signup_is_user_witness :
  exists u,
    users (snd (register (P := test_platform)
                  (register_call "Eve" "eve@example.com" "secret1") 9 0 unrated_db)) !! 9%N
    = Some u
    /\ role u = "user".
Proof.
  destruct (signup_is_user (P := test_platform) "Eve" "eve@example.com" "secret1"
              9 0 unrated_db
              (fst (register (P := test_platform)
                      (register_call "Eve" "eve@example.com" "secret1") 9 0 unrated_db))
              (snd (register (P := test_platform)
                      (register_call "Eve" "eve@example.com" "secret1") 9 0 unrated_db))
              eq_refl eq_refl)
    as (u & H1 & H2 & _).
  exists u. split; [exact H1 | exact H2].
Defined.


(** ** Titles and authors *)

Lemma skip_spaces_white (w s : string) :
  In w white_space -> skip_spaces (w ++ s) = skip_spaces s.
Proof.
  unfold white_space. cbn [map In]. intros H.
  repeat (destruct H as [<- | H]; [reflexivity |]). contradiction.
Qed.

Lemma skip_spaces_blank (s : string) : blank s -> skip_spaces s = "".
Proof.
  induction 1 as [| w s Hw _ IH]; [reflexivity |].
  now rewrite (skip_spaces_white w s Hw).
Qed.

Lemma trim_blank (s : string) : blank s -> trim s = "".
Proof. intros H. unfold trim. now rewrite (skip_spaces_blank s H). Qed.

(** Induction along the calls of [skip_spaces]. *)
Lemma skip_spaces_ind (Q : string -> Prop) :
  (forall s, skip_spaces s = s -> Q s) ->
  (forall a r, ws1 a = true -> Q r -> Q (String a r)) ->
  (forall a b r, ws1 a = false -> ws2 a b = true -> Q r ->
                 Q (String a (String b r))) ->
  (forall a b c r, ws1 a = false -> ws2 a b = false -> ws3 a b c = true -> Q r ->
                   Q (String a (String b (String c r)))) ->
  forall s, Q s.
Proof.
  intros Hid H1 H2 H3 s.
  assert (H : forall n s, (String.length s < n)%nat -> Q s).
  { clear s. induction n as [| n IH]; intros s Hn; [lia |].
    destruct s as [| a r1]; [now apply Hid |].
    destruct (ws1 a) eqn:E1.
    { apply H1; [exact E1 |]. apply IH. cbn in Hn. lia. }
    destruct r1 as [| b r2]; [apply Hid; cbn; now rewrite E1 |].
    destruct (ws2 a b) eqn:E2.
    { apply H2; try assumption. apply IH. cbn in Hn. lia. }
    destruct r2 as [| c r3]; [apply Hid; cbn; now rewrite E1, E2 |].
    destruct (ws3 a b c) eqn:E3.
    { apply H3; try assumption. apply IH. cbn in Hn. lia. }
    apply Hid. cbn. now rewrite E1, E2, E3. }
  apply (H (S (String.length s))). lia.
Qed.

Lemma skip_spaces_idem (s : string) : skip_spaces (skip_spaces s) = skip_spaces s.
Proof.
  induction s as [s E | a r E1 IH | a b r E1 E2 IH | a b c r E1 E2 E3 IH]
    using skip_spaces_ind.
  - now rewrite E.
  - cbn [skip_spaces]. now rewrite E1.
  - cbn [skip_spaces]. now rewrite E1, E2.
  - cbn [skip_spaces]. now rewrite E1, E2, E3.
Qed.

(** White space in front of a string is skipped whatever follows. *)
Lemma skip_spaces_app (x w : string) :
  skip_spaces x = "" -> skip_spaces (x ++ w) = skip_spaces w.
Proof.
  induction x as [s E | a r E1 IH | a b r E1 E2 IH | a b c r E1 E2 E3 IH]
    using skip_spaces_ind.
  - intros H. rewrite H in E. now subst s.
  - change (String a r ++ w) with (String a (r ++ w)).
    cbn [skip_spaces]. rewrite E1. exact IH.
  - change (String a (String b r) ++ w) with (String a (String b (r ++ w))).
    cbn [skip_spaces]. rewrite E1, E2. exact IH.
  - change (String a (String b (String c r)) ++ w)
      with (String a (String b (String c (r ++ w)))).
    cbn [skip_spaces]. rewrite E1, E2, E3. exact IH.
Qed.

Lemma skip_spaces_length (s : string) :
  (String.length (skip_spaces s) <= String.length s)%nat.
Proof.
  induction s as [s E | a r E1 IH | a b r E1 E2 IH | a b c r E1 E2 E3 IH]
    using skip_spaces_ind.
  - now rewrite E.
  - cbn [skip_spaces]. rewrite E1. cbn. lia.
  - cbn [skip_spaces]. rewrite E1, E2. cbn. lia.
  - cbn [skip_spaces]. rewrite E1, E2, E3. cbn. lia.
Qed.

(** A string that [skip_spaces] leaves alone does not start with white
    space. *)
Lemma skip_spaces_fixed (a : ascii) (r1 : string) :
  skip_spaces (String a r1) = String a r1 ->
  ws1 a = false
  /\ forall b r2, r1 = String b r2 ->
       ws2 a b = false
       /\ forall c r3, r2 = String c r3 -> ws3 a b c = false.
Proof.
  intros H. cbn [skip_spaces] in H.
  destruct (ws1 a) eqn:E1.
  { exfalso. apply (f_equal String.length) in H.
    pose proof (skip_spaces_length r1). cbn in H. lia. }
  split; [reflexivity |]. intros b r2 ->.
  destruct (ws2 a b) eqn:E2.
  { exfalso. apply (f_equal String.length) in H.
    pose proof (skip_spaces_length r2). cbn in H. lia. }
  split; [reflexivity |]. intros c r3 ->.
  destruct (ws3 a b c) eqn:E3; [| reflexivity].
  exfalso. apply (f_equal String.length) in H.
  pose proof (skip_spaces_length r3). cbn in H. lia.
Qed.

(** [strip_end] takes white space away, at the end. *)
Lemma strip_end_suffix (s : string) :
  exists w, s = strip_end s ++ w /\ skip_spaces w = "".
Proof.
  induction s as [| c r (w & Hw & Hb)]; [now exists "" |].
  cbn [strip_end]. destruct (blankb (String c r)) eqn:E.
  - exists (String c r). split; [reflexivity |]. now apply String.eqb_eq in E.
  - exists w. split; [| exact Hb].
    change (String c (strip_end r) ++ w) with (String c (strip_end r ++ w)).
    now rewrite <- Hw.
Qed.

Lemma blankb_strip_end (c : ascii) (r : string) :
  blankb (String c r) = false -> blankb (String c (strip_end r)) = false.
Proof.
  intros H. destruct (blankb (String c (strip_end r))) eqn:E; [| reflexivity].
  apply String.eqb_eq in E.
  destruct (strip_end_suffix r) as (w & Hw & Hb).
  pose proof (skip_spaces_app _ w E) as Happ.
  change (String c (strip_end r) ++ w) with (String c (strip_end r ++ w)) in Happ.
  rewrite <- Hw, Hb in Happ.
  unfold blankb in H. rewrite Happ in H. discriminate H.
Qed.

Lemma strip_end_idem (s : string) : strip_end (strip_end s) = strip_end s.
Proof.
  induction s as [| c r IH]; [reflexivity |].
  cbn [strip_end]. destruct (blankb (String c r)) eqn:E; [reflexivity |].
  cbn [strip_end]. now rewrite (blankb_strip_end c r E), IH.
Qed.

(** The first characters of [strip_end s] are those of [s]. *)
Lemma strip_end_cons (s : string) :
  strip_end s = ""
  \/ exists c r, s = String c r /\ strip_end s = String c (strip_end r).
Proof.
  destruct s as [| c r]; [now left |]. cbn [strip_end].
  destruct (blankb (String c r)); [now left |]. right. now exists c, r.
Qed.

Lemma strip_end_clean (s : string) :
  skip_spaces s = s -> skip_spaces (strip_end s) = strip_end s.
Proof.
  intros H.
  destruct (strip_end_cons s) as [-> | (a & r1 & -> & ->)]; [reflexivity |].
  destruct (skip_spaces_fixed a r1 H) as [E1 H2].
  cbn [skip_spaces]. rewrite E1.
  destruct (strip_end_cons r1) as [-> | (b & r2 & -> & ->)]; [reflexivity |].
  destruct (H2 b r2 eq_refl) as [E2 H3]. rewrite E2.
  destruct (strip_end_cons r2) as [-> | (c & r3 & -> & ->)]; [reflexivity |].
  now rewrite (H3 c r3 eq_refl).
Qed.

(** Trimming twice is trimming once. *)
Lemma trim_idempotent (s : string) : trim (trim s) = trim s.
Proof.
  unfold trim.
  rewrite (strip_end_clean (skip_spaces s) (skip_spaces_idem s)).
  apply strip_end_idem.
Qed.

Section Titles.

Context {P : Platform}.

(** X26.  A book cannot be given a blank title: for an admin caller, a
    create or update whose [title] is absent or made of white space only
    -- the white space of ECMAScript, U+00A0 and the like included -- is
    answered 400 "Title is required", and the store is left as it was. *)
Theorem blank_title_rejected (a : option string) (i : BookInput) (db : Db) :
  admin_caller a db ->
  (i_title i = None \/ exists s, i_title i = Some s /\ blank s) ->
  (forall fresh now,
      createBook a i fresh now db
      = (mkResponse 400 (Message "Title is required"), db))
  /\ (forall id ops,
         updateBook a id i ops db
         = (mkResponse 400 (Message "Title is required"), db)).
Proof.
  intros Ha Ht. apply admin_route_None in Ha.
  assert (Hv : bookValidation i = inl (mkResponse 400 (Message "Title is required"))).
  { unfold bookValidation.
    replace (trim (or_else (i_title i) "")) with "".
    - reflexivity.
    - destruct Ht as [-> | (s & -> & Hs)]; [reflexivity |].
      symmetry. now apply trim_blank. }
  unfold createBook, updateBook. rewrite Ha, Hv. split; reflexivity.
Qed.

(** X27.  Titles and authors are stored trimmed: the document of a create
    answered 201 has a title and an author that are not empty and that
    [trim] leaves unchanged, namely the trimmed title and author of the
    body. *)
Theorem created_title_trimmed (a : option string) (i : BookInput) (fresh : N)
  (now : Z) (db : Db) (resp : Response) (db' : Db) :
  createBook a i fresh now db = (resp, db') ->
  status resp = 201 ->
  exists doc,
    books db' !! fresh = Some doc
    /\ title doc = trim (or_else (i_title i) "")
    /\ author doc = trim (or_else (i_author i) "")
    /\ title doc <> "" /\ author doc <> ""
    /\ trim (title doc) = title doc /\ trim (author doc) = author doc.
Proof.
  unfold createBook. intros H Hs.
  destruct (admin_route a db) as [r |] eqn:Ea.
  { injection H as <- <-. apply admin_route_refused in Ea as [[E | E] _]; lia. }
  destruct (bookValidation i) as [r | i'] eqn:Ev.
  { injection H as <- <-. apply bookValidation_400 in Ev. lia. }
  destruct (schema_ok (new_book i' now)) eqn:Hok.
  2: { injection H as <- <-. discriminate Hs. }
  destruct (books db !! fresh) eqn:Hf.
  { injection H as <- <-. discriminate Hs. }
  injection H as <- <-. exists (new_book i' now).
  cbn [books with_books]. split; [apply lookup_insert_eq |].
  unfold bookValidation in Ev.
  destruct (String.eqb_spec (trim (or_else (i_title i) "")) "") as [| Ht];
    [discriminate |].
  destruct (String.eqb_spec (trim (or_else (i_author i) "")) "") as [| Hau];
    [discriminate |].
  repeat match type of Ev with
         | context [if ?c then _ else _] => destruct c; try discriminate Ev
         end.
  injection Ev as <-. cbn [new_book title author i_title i_author or_else].
  rewrite !trim_idempotent. repeat split; assumption.
Qed.

End Titles.

(** A title made of a space, a no-break space and a tab. *)
Lemma blank_title_rejected_witness :
  createBook (P := test_platform) as_admin
    (mkBookInput (Some (utf8 [32; 194; 160; 9]%N)) (Some "A") (Some "D")
                 (Some "Other") None None None None None None) 8 0 unrated_db
  = (mkResponse 400 (Message "Title is required"), unrated_db).
Proof.
  destruct (blank_title_rejected (P := test_platform) as_admin
              (mkBookInput (Some (utf8 [32; 194; 160; 9]%N)) (Some "A") (Some "D")
                           (Some "Other") None None None None None None)
              unrated_db (admin_is_admin _)) as [H _].
  - right. exists (utf8 [32; 194; 160; 9]%N). split; [reflexivity |].
    apply (blank_space (utf8 [32]%N) (utf8 [194; 160; 9]%N));
      [vm_compute; tauto |].
    apply (blank_space (utf8 [194; 160]%N) (utf8 [9]%N)); [vm_compute; tauto |].
    apply (blank_space (utf8 [9]%N) ""); [vm_compute; tauto |].
    apply blank_empty.
  - exact (H 8%N 0).
Defined.

(** A title between a no-break space and an ideographic space. *)
Lemma created_title_trimmed_witness :
  exists doc,
    books (snd (createBook (P := test_platform) as_admin
                  (mkBookInput (Some (utf8 [194; 160; 69; 109; 109; 97;
                                            227; 128; 128]%N))
                               (Some "Jane Austen") (Some "D")
                               (Some "Romance") None None None None None None)
                  8 0 unrated_db)) !! 8%N = Some doc
    /\ title doc = "Emma".
Proof.
  destruct (created_title_trimmed (P := test_platform) as_admin
              (mkBookInput (Some (utf8 [194; 160; 69; 109; 109; 97;
                                        227; 128; 128]%N))
                           (Some "Jane Austen") (Some "D")
                           (Some "Romance") None None None None None None)
              8 0 unrated_db _ _ eq_refl eq_refl) as (doc & H1 & H2 & _).
  exists doc. split; [exact H1 | exact H2].
Defined.

(** ** More on ratings *)

Section MoreRatings.

Context {P : Platform}.


End MoreRatings.




(** One step of the running mean adds at most [(count + 1) * d], with
    [d = 1/20 + 2^-46], to the distance between [rating * count] and the
    sum of the ratings. *)
Lemma running_step_drift (m r T : Q) (c : Z) :
  (0 <= m)%Q -> (m <= 5)%Q -> 0 <= c < 2 ^ 50 -> (0 <= r)%Q -> (r <= 5)%Q ->
  let n := inject_Z c in
  let d := ((1 # 20) + pow2 (-46))%Q in
  (m * n - T <= d * (n * n + n) / 2)%Q ->
  (T - m * n <= d * (n * n + n) / 2)%Q ->
  let m1 := fst (running (m, c) r) in
  (m1 * (n + 1) - (T + r) <= d * ((n + 1) * (n + 1) + (n + 1)) / 2)%Q
  /\ (T + r - m1 * (n + 1) <= d * ((n + 1) * (n + 1) + (n + 1)) / 2)%Q.
Proof.
  intros Hm0 Hm5 Hc Hr0 Hr5 n d Hup Hdown m1.
  destruct (count_bounds c Hc) as [Hn _]. fold n in Hn.
  pose proof (running_close m r c Hm0 Hm5 Hc Hr0 Hr5) as Hclose.
  cbv zeta in Hclose. fold n m1 d in Hclose.
  set (y := ((m * n + r) / (n + 1))%Q) in *.
  apply Qabs_Qle_condition in Hclose as [Hlo Hhi].
  assert (Ey : (y * (n + 1) == m * n + r)%Q) by (unfold y; field; lra).
  assert (H1 : (m1 * (n + 1) <= (y + d) * (n + 1))%Q)
    by (apply Qmult_le_compat_r; lra).
  assert (H2 : ((y - d) * (n + 1) <= m1 * (n + 1))%Q)
    by (apply Qmult_le_compat_r; lra).
  assert (E1 : ((y + d) * (n + 1) == m * n + r + d * (n + 1))%Q)
    by (rewrite <- Ey; ring).
  assert (E2 : ((y - d) * (n + 1) == m * n + r - d * (n + 1))%Q)
    by (rewrite <- Ey; ring).
  rewrite E1 in H1. rewrite E2 in H2.
  assert (E3 : (d * ((n + 1) * (n + 1) + (n + 1)) / 2
                == d * (n * n + n) / 2 + d * (n + 1))%Q) by field.
  rewrite E3. split; lra.
Qed.

Lemma running_drift (rs : list Q) :
  forall (m T : Q) (c : Z),
    (0 <= m)%Q -> (m <= 5)%Q -> 0 <= c ->
    c + Z.of_nat (length rs) <= 2 ^ 50 ->
    Forall valid_rating rs ->
    let d := ((1 # 20) + pow2 (-46))%Q in
    (m * inject_Z c - T <= d * (inject_Z c * inject_Z c + inject_Z c) / 2)%Q ->
    (T - m * inject_Z c <= d * (inject_Z c * inject_Z c + inject_Z c) / 2)%Q ->
    let s := fold_left running rs (m, c) in
    let n := inject_Z (c + Z.of_nat (length rs)) in
    (fst s * n - (T + Qsum rs) <= d * (n * n + n) / 2)%Q
    /\ (T + Qsum rs - fst s * n <= d * (n * n + n) / 2)%Q.
Proof.
  induction rs as [| r rs IH]; intros m T c Hm0 Hm5 Hc Hlen Hrs d Hup Hdown.
  - cbn [fold_left fst length Qsum fold_right]. cbv zeta.
    replace (c + Z.of_nat 0) with c by lia.
    assert (Es : (T + 0 == T)%Q) by ring.
    rewrite Es. split; assumption.
  - inversion Hrs as [| ? ? [Hr1 Hr5] Hrs']; subst.
    cbn [length] in Hlen.
    assert (Hcc : 0 <= c < 2 ^ 50) by lia.
    assert (Hr0 : (0 <= r)%Q) by lra.
    cbn [fold_left].
    destruct (running_step_drift m r T c Hm0 Hm5 Hcc Hr0 Hr5 Hup Hdown) as [H1 H2].
    destruct (running_in_range m r c Hm0 Hm5 Hcc Hr0 Hr5) as [R0 R5].
    pose proof (running_count_succ m r c Hcc) as Ec.
    specialize (IH (fst (running (m, c) r)) (T + r)%Q (c + 1) R0 R5
                  ltac:(lia) ltac:(lia) Hrs').
    rewrite inject_Z_plus in IH. change (inject_Z 1) with 1%Q in IH.
    specialize (IH H1 H2). cbv zeta in IH.
    rewrite (surjective_pairing (running (m, c) r)), Ec.
    cbv zeta. cbn [Qsum fold_right length].
    change (fold_right Qplus 0%Q rs) with (Qsum rs).
    replace (c + Z.of_nat (S (length rs))) with (c + 1 + Z.of_nat (length rs))
      by lia.
    destruct IH as [I1 I2]. unfold d.
    assert (Es : (T + (r + Qsum rs) == T + r + Qsum rs)%Q) by ring.
    rewrite Es. split; assumption.
Qed.

(** X29.  How far the stored rating can drift from the mean: after
    [1 <= n <= 2^50] valid ratings sent as JSON numbers one after the
    other to an unrated book, the stored rating is within
    [(n + 1) * (1/40 + 2^-47)] of the mean of the ratings. *)
Theorem sequential_ratings_drift {P : Platform}
  (authorization : option string) (id : N) (rs : list Q) (db : Db) (b : Book) :
  authenticated authorization db ->
  books db !! id = Some b ->
  schema_ok b = true ->
  (rating b == 0)%Q ->
  ratingCount b = 0 ->
  Forall valid_rating rs ->
  rs <> [] ->
  Z.of_nat (length rs) <= 2 ^ 50 ->
  let bound :=
    ((inject_Z (Z.of_nat (length rs)) + 1) * ((1 # 40) + pow2 (-47)))%Q in
  exists b',
    books (submit_all authorization id rs db) !! id = Some b'
    /\ (rating b' - mean rs <= bound)%Q
    /\ (mean rs - rating b' <= bound)%Q.
Proof.
  intros Hauth Hb Hok Hr0 Hc0 Hrs Hne Hlen bound.
  destruct (submit_all_fold authorization id rs db b Hauth Hb Hok)
    as (H & _ & _); [lia | lia | exact Hrs |].
  rewrite Hc0 in H.
  eexists. split; [exact H |]. cbn [set_rating rating].
  destruct (running_drift rs (rating b) 0 0) as [H1 H2];
    try assumption; try lia.
  { rewrite Hr0. apply Qle_refl. }
  { rewrite Hr0. discriminate. }
  { change (inject_Z 0) with 0%Q.
    assert (E : (rating b * 0 - 0 == 0)%Q) by ring.
    rewrite E. apply Qle_bool_iff. vm_compute. reflexivity. }
  { change (inject_Z 0) with 0%Q.
    assert (E : (0 - rating b * 0 == 0)%Q) by ring.
    rewrite E. apply Qle_bool_iff. vm_compute. reflexivity. }
  replace (0 + Z.of_nat (length rs)) with (Z.of_nat (length rs)) in H1, H2 by lia.
  set (m := fst (fold_left running rs (rating b, 0))) in *.
  unfold bound.
  set (n := inject_Z (Z.of_nat (length rs))) in *.
  assert (Hn : (1 <= n)%Q).
  { unfold n. change 1%Q with (inject_Z 1). rewrite <- Zle_Qle.
    destruct rs; [congruence | cbn; lia]. }
  unfold mean. fold n.
  assert (E : (Qsum rs / n * n == Qsum rs)%Q) by (field; lra).
  assert (Ep : (pow2 (-47) == pow2 (-46) / 2)%Q) by reflexivity.
  set (e := pow2 (-46)) in *.
  assert (E2 : (((1 # 20) + e) * (n * n + n) / 2
                == (n + 1) * ((1 # 40) + e / 2) * n)%Q) by field.
  rewrite E2 in H1, H2. rewrite Ep.
  split; apply (Qmult_le_r _ _ n); lra.
Qed.

Lemma sequential_ratings_drift_witness :
  exists b',
    books (submit_all (P := test_platform) as_reader 7 [1; 1; 2; 1]%Q unrated_db) !! 7%N
    = Some b'
    /\ (rating b' - mean [1; 1; 2; 1]
        <= (inject_Z (Z.of_nat (length [1; 1; 2; 1]%Q)) + 1)
           * ((1 # 40) + pow2 (-47)))%Q
    /\ (mean [1; 1; 2; 1] - rating b'
        <= (inject_Z (Z.of_nat (length [1; 1; 2; 1]%Q)) + 1)
           * ((1 # 40) + pow2 (-47)))%Q.
Proof.
  apply (sequential_ratings_drift (P := test_platform) as_reader 7 [1; 1; 2; 1]%Q
           unrated_db (sample_book 0 0)).
  - apply reader_authenticated.
  - reflexivity.
  - reflexivity.
  - reflexivity.
  - reflexivity.
  - repeat (constructor; [q_order |]). constructor.
  - discriminate.
  - simpl; lia.
Defined.

(** ** Reads among ratings in flight *)

Lemma marks_cons (t : Call) (ts : list Call) : marks (t :: ts) = marked t + marks ts.
Proof. reflexivity. Qed.

Lemma marks_insert (ts : list Call) (i : nat) (t t' : Call) :
  ts !! i = Some t -> marks (<[i := t']> ts) = marks ts - marked t + marked t'.
Proof.
  revert i. induction ts as [| x ts IH]; intros [| i] H; try discriminate H.
  - injection H as ->. change (<[0%nat := t']> (t :: ts)) with (t' :: ts).
    rewrite !marks_cons. lia.
  - change (<[S i := t']> (x :: ts)) with (x :: <[i := t']> ts).
    rewrite !marks_cons, (IH i H). lia.
Qed.

Section ReadsAmongRatings.

Context {P : Platform}.

Lemma protect_denied_body (a : option string) (db : Db) (resp : Response) :
  protect a db = inl resp -> exists m, body resp = Message m.
Proof.
  unfold protect. intros H.
  repeat match type of H with
         | context [match ?o with _ => _ end] => destruct o
         end;
    try discriminate H; injection H as <-; eexists; reflexivity.
Qed.

(** One step of a rating request, or of a read request for [id], adds to
    the [readCount] of [id] what it adds to [marked], and keeps the
    request of its kind. *)
Lemma step_marked (id : N) (db : Db) (t : Call) (b : Book) :
  rate_or_read_of id t ->
  books db !! id = Some b ->
  exists b',
    books (fst (step db t)) !! id = Some b'
    /\ readCount b' = readCount b + marked (snd (step db t)) - marked t
    /\ rate_or_read_of id (snd (step db t)).
Proof.
  intros Ht Hb.
  destruct t as [a i r | i r | i doc | a i | uid i | uid i doc | resp];
    cbn in Ht; cbn [step].
  - destruct (protect a db) as [resp | who] eqn:E; cbn.
    + destruct (protect_denied_body _ _ _ E) as [m ->].
      exists b. split; [exact Hb |]. split; [lia | exact I].
    + destruct (rating_valid r); cbn;
        exists b; (split; [exact Hb |]); split; (lia || exact I).
  - destruct (books db !! i) as [bi |]; cbn;
      [destruct (rate_update bi r); cbn |];
      exists b; (split; [exact Hb |]); split; (lia || exact I).
  - unfold save_rating. destruct (schema_ok doc); cbn.
    2: { exists b. split; [exact Hb |]. split; [lia | exact I]. }
    destruct (books db !! i) as [stored |] eqn:Hi; cbn.
    2: { exists b. split; [exact Hb |]. split; [lia | exact I]. }
    destruct (decide (i = id)) as [-> | Hne].
    + rewrite lookup_insert_eq. eexists. split; [reflexivity |].
      assert (stored = b) by congruence. subst. cbn. split; [lia | exact I].
    + rewrite lookup_insert_ne by exact Hne.
      exists b. split; [exact Hb |]. split; [lia | exact I].
  - subst. destruct (protect a db) as [resp | [uid u]] eqn:E; cbn.
    + destruct (protect_denied_body _ _ _ E) as [m ->].
      exists b. split; [exact Hb |]. split; [lia | exact I].
    + exists b. split; [exact Hb |]. split; [lia | reflexivity].
  - subst. rewrite Hb. cbn. rewrite lookup_insert_eq. eexists.
    split; [reflexivity |]. cbn. split; [lia | reflexivity].
  - subst. cbn. exists b. split; [exact Hb |]. split; [lia | exact I].
  - cbn. exists b. split; [exact Hb |]. split; [lia | exact I].
Qed.

(** X30.  Ratings in flight do not disturb the read count: however the
    steps of rating requests (for any book) and of read requests for one
    book are interleaved, that book's [readCount] has grown by exactly the
    number of read requests that have got through -- even when a rating is
    saved from a document read before the reads. *)
Theorem reads_counted_among_ratings (id : N) (sched : list nat) :
  forall (db : Db) (ts : list Call) (b : Book),
    Forall (rate_or_read_of id) ts ->
    books db !! id = Some b ->
    exists b',
      books (fst (run_schedule sched db ts)) !! id = Some b'
      /\ readCount b' - marks (snd (run_schedule sched db ts))
         = readCount b - marks ts.
Proof.
  induction sched as [| i sched IH]; intros db ts b Hts Hb; cbn [run_schedule].
  - exists b. cbn [fst snd]. split; [exact Hb | reflexivity].
  - destruct (ts !! i) as [t |] eqn:Hi; [| now apply IH].
    assert (Ht : rate_or_read_of id t).
    { rewrite Forall_forall in Hts. apply Hts.
      apply list_elem_of_lookup. now exists i. }
    destruct (step_marked id db t b Ht Hb) as (b1 & Hb1 & Hc1 & Ht1).
    destruct (step db t) as [db1 t1]. cbn [fst snd] in *.
    destruct (IH db1 (<[i := t1]> ts) b1) as (b' & Hb' & Hc').
    + apply Forall_insert; assumption.
    + exact Hb1.
    + exists b'. split; [exact Hb' |].
      rewrite (marks_insert ts i t t1 Hi) in Hc'. lia.
Qed.

End ReadsAmongRatings.

(** A read between the [findById] and the [save] of a rating is kept. *)
Lemma reads_counted_among_ratings_witness :
  exists b',
    books (fst (run_schedule (P := test_platform) [0; 0; 1; 1; 1; 0]%nat unrated_db
                  [RateStart as_admin 7 (JNumber 4); ReadStart as_reader 7])) !! 7%N
    = Some b'
    /\ readCount b'
       - marks (snd (run_schedule (P := test_platform) [0; 0; 1; 1; 1; 0]%nat
                       unrated_db [RateStart as_admin 7 (JNumber 4); ReadStart as_reader 7]))
       = 0 - 0.
Proof.
  apply (reads_counted_among_ratings (P := test_platform) 7 [0; 0; 1; 1; 1; 0]%nat
           unrated_db [RateStart as_admin 7 (JNumber 4); ReadStart as_reader 7]
           (sample_book 0 0)).
  - repeat constructor.
  - reflexivity.
Defined.

Example read_between_find_and_save :
  let '(db', ts') :=
    run_schedule (P := test_platform) [0; 0; 1; 1; 1; 0]%nat unrated_db
      [RateStart as_admin 7 (JNumber 4); ReadStart as_reader 7] in
  books db' !! 7%N
  = Some (mkBook "Dune" "Frank Herbert" "Desert planet" "Science Fiction"
                 None None "English" 4 1 1 0)
  /\ marks ts' = 1.
Proof. vm_compute. split; reflexivity. Qed.

Lemma limitNum_clamped_witness :
  limitNum_of (with_paging no_query None (Some "500")) = Num (Z.min 50 (Z.max 1 500))
  /\ (50 < 500 -> limitNum_of (with_paging no_query None (Some "500")) = Num 50).
Proof.
  apply (limitNum_clamped (with_paging no_query None (Some "500")) "500" 500);
    reflexivity.
Defined.

(** A read whose update of the user is rejected: 500, and the book keeps
    the raised count. *)
Lemma failed_engagement_effect_witness :
  serve_with (P := test_platform) false false true (ReadStart as_reader 7) unrated_db
  = (Some server_error,
     with_books unrated_db
       (<[7%N := set_readCount (sample_book 0 0) (readCount (sample_book 0 0) + 1)]>
          (books unrated_db))).
Proof.
  apply (proj2 (proj2 (failed_engagement_effect (P := test_platform)
                         as_reader 7 unrated_db false false true))).
  - apply reader_authenticated.
  - reflexivity.
Defined.

Lemma bearer_round_trip_witness :
  bearer_token (interceptor (Some "abc")) = Some "abc".
Proof.
  apply (proj1 (bearer_round_trip (P := test_platform) unrated_db) "abc").
  - discriminate.
  - repeat constructor.
Defined.

Lemma blank_parameters_witness :
  pageNum_of (with_paging no_query (Some "") None) = NaN.
Proof.
  apply (proj1 (proj2 (blank_parameters (P := test_platform)
                         (with_paging no_query (Some "") None) 0%N unrated_db))).
  reflexivity.
Defined.
